(** * hw_07: address book with phones and birthdays

    A shallow embedding of [hw_07.py] (classes [Field], [Name], [Phone],
    [Birthday], [Record], [AddressBook]) together with the parts of the
    Python runtime the program calls: [str.isdigit], [len], [int],
    [datetime.strptime] with the format ["%d.%m.%Y"], [date.replace],
    date comparison and subtraction, [date.weekday], [date + timedelta],
    [date.strftime], and the [dict] and [list] primitives. The runtime is
    written after CPython's own sources ([Lib/_pydatetime.py] for the
    calendar, [Lib/_strptime.py] for the pattern a format compiles to).

    Conventions.
    - A Python [str] is a sequence of Unicode code points: [str := list N].
      The two properties of characters the program depends on are written
      out for the code points below U+0100; for the others they are read
      from a table [UnicodeData], over which every statement is general.
    - Python integers are [Z]; [//] and [%] are [Z.div] and [Z.modulo]
      (both round towards minus infinity, as in Python).
    - An exception is a value of [exn]; a computation that may raise and
      that mutates an object is a function [S -> Result A * S]: when it
      raises, the state it returns is the state at the [raise], so a
      mutation done before the exception stays visible, as in Python.
    - [datetime.today()] reads the clock; the reading is the parameter
      [today] of [get_upcoming_birthdays]. *)

From Stdlib Require Import ZArith NArith List String Ascii Bool Lia.
Import ListNotations.

Set Implicit Arguments.
Open Scope Z_scope.

(* ===================================================================== *)
(** ** Python strings *)
(* ===================================================================== *)

Module PyStr.

Definition char := N.
Definition str := list char.

(** A literal of the source, read as code points. *)
Fixpoint lit (s : string) : str :=
  match s with
  | EmptyString => []
  | String a s' => N_of_ascii a :: lit s'
  end.

Definition str_eq_dec : forall a b : str, {a = b} + {a <> b} :=
  list_eq_dec N.eq_dec.

Definition str_eqb (a b : str) : bool :=
  if str_eq_dec a b then true else false.

(** [len(s)] *)
Definition len (s : str) : Z := Z.of_nat (List.length s).

(** [sep.join(parts)] *)
Fixpoint join (sep : str) (parts : list str) : str :=
  match parts with
  | [] => []
  | [p] => p
  | p :: rest => p ++ sep ++ join sep rest
  end.

(** The Unicode character database, for the code points from U+0100 on.
    Below U+0100 the two properties the program depends on are fixed
    (and the same in every Unicode version) and are written out in
    [is_decimal], [decimal_value] and [is_digit]. *)
Class UnicodeData := {
  (** the decimal value of a character of category Nd *)
  ucd_decimal : char -> option Z;
  (** Numeric_Type=Digit or Numeric_Type=Decimal *)
  ucd_digit : char -> bool
}.

Definition ascii_digit (c : char) : bool := ((48 <=? c) && (c <=? 57))%N.

Section Unicode.
Context {U : UnicodeData}.

(** Value of a decimal digit character (what [\d] matches and [int]
    converts). *)
Definition decimal_value (c : char) : option Z :=
  if ascii_digit c then Some (Z.of_N c - 48)
  else if (c <? 256)%N then None
  else ucd_decimal c.

Definition is_decimal (c : char) : bool :=
  match decimal_value c with Some _ => true | None => false end.

(** One character of [str.isdigit]: the decimal digits, and the other
    characters with Numeric_Type=Digit; below U+0100 these are the
    superscripts U+00B2, U+00B3 and U+00B9. *)
Definition is_digit (c : char) : bool :=
  if ascii_digit c then true
  else if (c <? 256)%N then
    (c =? 178)%N || (c =? 179)%N || (c =? 185)%N
  else ucd_digit c || is_decimal c.

(** [s.isdigit()]: every character is a digit and there is at least
    one character. *)
Definition isdigit (s : str) : bool :=
  match s with
  | [] => false
  | _ => forallb is_digit s
  end.

(** [int(s)] on the strings the program converts: optional leading
    blanks, then one or more decimal digits. *)
Fixpoint lstrip (s : str) : str :=
  match s with
  | c :: t => if (c =? 32)%N then lstrip t else s
  | [] => []
  end.

Fixpoint int_digits (acc : Z) (s : str) : option Z :=
  match s with
  | [] => Some acc
  | c :: t =>
      match decimal_value c with
      | Some v => int_digits (10 * acc + v) t
      | None => None
      end
  end.

Definition int (s : str) : option Z :=
  match lstrip s with
  | [] => None
  | t => int_digits 0 t
  end.
End Unicode.

(** A table with no digit beyond U+00FF, to run the definitions. *)
Definition latin1_only : UnicodeData :=
  {| ucd_decimal := fun _ => None; ucd_digit := fun _ => false |}.

End PyStr.
Import PyStr.

(* ===================================================================== *)
(** ** Exceptions and stateful computations *)
(* ===================================================================== *)

(** The exception classes the program can meet. A [ValueError] raised by a
    [raise] statement of [hw_07.py] carries the text written there; one
    raised inside the runtime ([strptime], [date], [replace]) carries
    [None]: its text is not fixed by this repository. *)
Inductive exn : Type :=
| ValueError (msg : option string)
| OverflowError
| KeyError (key : str).

Inductive Result (A : Type) : Type :=
| Ok (a : A)
| Raise (e : exn).
Arguments Ok {A} a.
Arguments Raise {A} e.

Definition M (S A : Type) : Type := S -> Result A * S.

Definition ret {S A} (a : A) : M S A := fun s => (Ok a, s).
Definition raise {S A} (e : exn) : M S A := fun s => (Raise e, s).
Definition bind {S A B} (m : M S A) (k : A -> M S B) : M S B :=
  fun s =>
    match m s with
    | (Ok a, s') => k a s'
    | (Raise e, s') => (Raise e, s')
    end.
Definition get {S} : M S S := fun s => (Ok s, s).
(** A computation that may raise and has no state of its own. *)
Definition lift {S A} (r : Result A) : M S A := fun s => (r, s).

Declare Scope py_scope.
Delimit Scope py_scope with py.
Notation "x <- m ;; k" := (bind m (fun x => k))
  (at level 61, m at next level, right associativity) : py_scope.
Notation "m ;; k" := (bind m (fun _ => k))
  (at level 61, right associativity) : py_scope.

(** [try: body except ValueError: raise e] *)
Definition except_ValueError {A} (body : Result A) (e : exn) : Result A :=
  match body with
  | Raise (ValueError _) => Raise e
  | r => r
  end.

(** Sequencing of computations without state. *)
Definition rbind {A B} (r : Result A) (k : A -> Result B) : Result B :=
  match r with
  | Ok a => k a
  | Raise e => Raise e
  end.

(* ===================================================================== *)
(** ** The [datetime] module: proleptic Gregorian dates *)
(* ===================================================================== *)

Module Datetime.

Definition MINYEAR : Z := 1.
Definition MAXYEAR : Z := 9999.
(** [date.max.toordinal()] *)
Definition _MAXORDINAL : Z := 3652059.

(** [_DAYS_IN_MONTH = [-1, 31, 28, 31, 30, 31, 30, 31, 31, 30, 31, 30, 31]] *)
Definition _DAYS_IN_MONTH (month : Z) : Z :=
  match month with
  | 1 => 31 | 2 => 28 | 3 => 31 | 4 => 30 | 5 => 31 | 6 => 30
  | 7 => 31 | 8 => 31 | 9 => 30 | 10 => 31 | 11 => 30 | 12 => 31
  | _ => -1
  end.

(** The running sum of [_DAYS_IN_MONTH]: days before the first of the
    month in a common year. *)
Definition _DAYS_BEFORE_MONTH (month : Z) : Z :=
  match month with
  | 1 => 0 | 2 => 31 | 3 => 59 | 4 => 90 | 5 => 120 | 6 => 151
  | 7 => 181 | 8 => 212 | 9 => 243 | 10 => 273 | 11 => 304 | 12 => 334
  | _ => -1
  end.

(** [year % 4 == 0 and (year % 100 != 0 or year % 400 == 0)] *)
Definition _is_leap (year : Z) : bool :=
  (year mod 4 =? 0) && (negb (year mod 100 =? 0) || (year mod 400 =? 0)).

(** Number of days before January 1st of [year]. *)
Definition _days_before_year (year : Z) : Z :=
  let y := year - 1 in
  y * 365 + y / 4 - y / 100 + y / 400.

Definition _days_in_month (year month : Z) : Z :=
  if (month =? 2) && _is_leap year then 29 else _DAYS_IN_MONTH month.

Definition _days_before_month (year month : Z) : Z :=
  _DAYS_BEFORE_MONTH month
  + (if (2 <? month) && _is_leap year then 1 else 0).

(** Ordinal of a date, January 1st of year 1 being day 1. *)
Definition _ymd2ord (year month day : Z) : Z :=
  _days_before_year year + _days_before_month year month + day.

Definition _DI400Y : Z := Eval cbv in _days_before_year 401.
Definition _DI100Y : Z := Eval cbv in _days_before_year 101.
Definition _DI4Y : Z := Eval cbv in _days_before_year 5.

(** The inverse of [_ymd2ord]: the 400-, 100-, 4- and 1-year cycles
    are peeled off in turn, then the month is estimated by a shift and
    corrected. *)
Definition _ord2ymd (n : Z) : Z * Z * Z :=
  let n := n - 1 in
  let n400 := n / _DI400Y in
  let n := n mod _DI400Y in
  let year := n400 * 400 + 1 in
  let n100 := n / _DI100Y in
  let n := n mod _DI100Y in
  let n4 := n / _DI4Y in
  let n := n mod _DI4Y in
  let n1 := n / 365 in
  let n := n mod 365 in
  let year := year + (n100 * 100 + n4 * 4 + n1) in
  if (n1 =? 4) || (n100 =? 4) then (year - 1, 12, 31)
  else
    let leapyear := (n1 =? 3) && (negb (n4 =? 24) || (n100 =? 3)) in
    let month := Z.shiftr (n + 50) 5 in
    let preceding :=
      _DAYS_BEFORE_MONTH month
      + (if (2 <? month) && leapyear then 1 else 0) in
    let '(month, preceding) :=
      if n <? preceding then
        (month - 1,
         preceding
         - (_DAYS_IN_MONTH (month - 1)
            + (if (month - 1 =? 2) && leapyear then 1 else 0)))
      else (month, preceding) in
    (year, month, n - preceding + 1).

(** The class [date]; its three attributes. *)
Record date : Type := mkdate { year : Z; month : Z; day : Z }.

(** [_check_date_fields]: what the constructor accepts. *)
Definition _check_date_fields (y m d : Z) : Result unit :=
  if negb ((MINYEAR <=? y) && (y <=? MAXYEAR)) then Raise (ValueError None)
  else if negb ((1 <=? m) && (m <=? 12)) then Raise (ValueError None)
  else if negb ((1 <=? d) && (d <=? _days_in_month y m))
       then Raise (ValueError None)
  else Ok tt.

(** [date(year, month, day)] *)
Definition date_new (y m d : Z) : Result date :=
  rbind (_check_date_fields y m d) (fun _ => Ok (mkdate y m d)).

(** [self.replace(year=y)] *)
Definition replace_year (self : date) (y : Z) : Result date :=
  date_new y (month self) (day self).

Definition toordinal (self : date) : Z :=
  _ymd2ord (year self) (month self) (day self).

Definition fromordinal (n : Z) : date :=
  let '(y, m, d) := _ord2ymd n in mkdate y m d.

(** Monday is 0, Sunday is 6. *)
Definition weekday (self : date) : Z := (toordinal self + 6) mod 7.

(** [a < b]: comparison of the triples (year, month, day). *)
Definition date_lt (a b : date) : bool :=
  (year a <? year b)
  || ((year a =? year b)
      && ((month a <? month b)
          || ((month a =? month b) && (day a <? day b)))).

(** [(a - b).days] *)
Definition sub_days (a b : date) : Z := toordinal a - toordinal b.

(** [self + timedelta(days=n)] *)
Definition add_days (self : date) (n : Z) : Result date :=
  let o := toordinal self + n in
  if (0 <? o) && (o <=? _MAXORDINAL) then Ok (fromordinal o)
  else Raise OverflowError.

(** The decimal digit for [0 <= n <= 9]. *)
Definition digit_char (n : Z) : char := Z.to_N (48 + n).

(** [n] written with two, and with four, digits. *)
Definition pad2 (n : Z) : str :=
  [digit_char (n / 10 mod 10); digit_char (n mod 10)].
Definition pad4 (n : Z) : str :=
  [digit_char (n / 1000 mod 10); digit_char (n / 100 mod 10);
   digit_char (n / 10 mod 10); digit_char (n mod 10)].

(** [self.strftime("%d.%m.%Y")]: day and month zero-padded to two
    digits, the year written with four digits, as the library
    documents [%Y] (for a year below 1000 some C libraries leave the
    padding out; no statement below rests on such a year). *)
Definition strftime_dmY (self : date) : str :=
  pad2 (day self) ++ lit "." ++ pad2 (month self) ++ lit "."
  ++ pad4 (year self).

(** The invariant of a [date] object. *)
Definition valid_date (d : date) : Prop :=
  MINYEAR <= year d <= MAXYEAR /\ 1 <= month d <= 12
  /\ 1 <= day d <= _days_in_month (year d) (month d).

End Datetime.
Import Datetime.

Notation "x <~ r ;; k" := (rbind r (fun x => k))
  (at level 61, r at next level, right associativity) : py_scope.

(* ===================================================================== *)
(** ** [datetime.strptime(s, "%d.%m.%Y")] *)
(* ===================================================================== *)

Module Strptime.

(** The fragment of regular expressions the format compiles to. *)
Inductive regex : Type :=
| Chr (c : char)            (* a literal character *)
| Rng (lo hi : char)        (* [lo-hi] *)
| Dig                       (* \d *)
| Cat (r1 r2 : regex)
| Alt (r1 r2 : regex).

Section Matching.
Context {U : UnicodeData}.

Definition one (p : char -> bool) (s : str) : list (str * str) :=
  match s with
  | c :: t => if p c then [([c], t)] else []
  | [] => []
  end.

(** All the ways [r] matches a prefix of [s], as (matched text, rest),
    in the order a backtracking matcher tries them: the alternatives
    of [|] from left to right. *)
Fixpoint rx (r : regex) (s : str) : list (str * str) :=
  match r with
  | Chr c => one (N.eqb c) s
  | Rng lo hi => one (fun x => (lo <=? x) && (x <=? hi))%N s
  | Dig => one is_decimal s
  | Cat r1 r2 =>
      flat_map (fun '(a, t) => map (fun '(b, u) => (a ++ b, u)) (rx r2 t))
               (rx r1 s)
  | Alt r1 r2 => rx r1 s ++ rx r2 s
  end.

Definition c0 : char := 48%N.
Definition c1 : char := 49%N.
Definition c2 : char := 50%N.
Definition c3 : char := 51%N.
Definition c9 : char := 57%N.
Definition blank : char := 32%N.
Definition dot : char := 46%N.

(** [%d]: [3[0-1]|[1-2]\d|0[1-9]|[1-9]| [1-9]] *)
Definition re_d : regex :=
  Alt (Cat (Chr c3) (Rng c0 c1))
 (Alt (Cat (Rng c1 c2) Dig)
 (Alt (Cat (Chr c0) (Rng c1 c9))
 (Alt (Rng c1 c9)
      (Cat (Chr blank) (Rng c1 c9))))).

(** [%m]: [1[0-2]|0[1-9]|[1-9]] *)
Definition re_m : regex :=
  Alt (Cat (Chr c1) (Rng c0 c2))
 (Alt (Cat (Chr c0) (Rng c1 c9))
      (Rng c1 c9)).

(** [%Y]: [\d\d\d\d] *)
Definition re_Y : regex := Cat Dig (Cat Dig (Cat Dig Dig)).

(** All the ways the pattern [(?P<d>..)\.(?P<m>..)\.(?P<Y>..)] matches
    a prefix of [s], in the order the matcher tries them: the three
    groups and the text left after the match. *)
Definition all_matches (s : str) : list (str * str * str * str) :=
  flat_map (fun '(d, s1) =>
  flat_map (fun '(_, s2) =>
  flat_map (fun '(m, s3) =>
  flat_map (fun '(_, s4) =>
  map (fun '(Y, s5) => (d, m, Y, s5)) (rx re_Y s4))
    (rx (Chr dot) s3))
    (rx re_m s2))
    (rx (Chr dot) s1))
    (rx re_d s).

(** [format_regex.match(data_string)]: the first of them. *)
Definition format_regex_match (s : str) : option (str * str * str * str) :=
  hd_error (all_matches s).

Definition int_or_raise (s : str) : Result Z :=
  match int s with
  | Some v => Ok v
  | None => Raise (ValueError None)
  end.

(** [datetime.strptime(data_string, "%d.%m.%Y").date()] *)
Definition strptime_dmY (data_string : str) : Result date :=
  match format_regex_match data_string with
  | None => Raise (ValueError None)        (* does not match format *)
  | Some (d, m, Y, rest) =>
      match rest with
      | _ :: _ => Raise (ValueError None)  (* unconverted data remains *)
      | [] =>
          (year <~ int_or_raise Y ;;
           month <~ int_or_raise m ;;
           day <~ int_or_raise d ;;
           date_new year month day)%py
      end
  end.
End Matching.

End Strptime.
Import Strptime.

(* ===================================================================== *)
(** ** The built-in [list] and [dict] *)
(* ===================================================================== *)

Module Builtins.

Section ListRemove.
Variable A : Type.
(** [a == b] for the elements *)
Variable eq : A -> A -> bool.

(** [l.remove(x)]: delete the first element equal to [x]; [ValueError]
    when there is none. *)
Fixpoint list_remove (x : A) (l : list A) : Result (list A) :=
  match l with
  | [] => Raise (ValueError None)
  | y :: t =>
      if eq y x then Ok t
      else match list_remove x t with
           | Ok t' => Ok (y :: t')
           | Raise e => Raise e
           end
  end.
End ListRemove.

(** A [dict] with [str] keys: the entries in insertion order. *)
Definition dict (V : Type) : Type := list (str * V).

Section Dict.
Variable V : Type.

(** [d[k] = v]: the value of an existing key is replaced where it
    stands; a new key goes to the end. *)
Fixpoint dict_setitem (k : str) (v : V) (d : dict V) : dict V :=
  match d with
  | [] => [(k, v)]
  | (k', v') :: t =>
      if str_eqb k' k then (k', v) :: t
      else (k', v') :: dict_setitem k v t
  end.

(** [d.get(k, None)] *)
Fixpoint dict_get (k : str) (d : dict V) : option V :=
  match d with
  | [] => None
  | (k', v') :: t => if str_eqb k' k then Some v' else dict_get k t
  end.

(** [k in d] *)
Definition dict_contains (k : str) (d : dict V) : bool :=
  match dict_get k d with Some _ => true | None => false end.

(** [del d[k]]: [KeyError] when the key is absent. *)
Fixpoint dict_delitem (k : str) (d : dict V) : Result (dict V) :=
  match d with
  | [] => Raise (KeyError k)
  | (k', v') :: t =>
      if str_eqb k' k then Ok t
      else match dict_delitem k t with
           | Ok t' => Ok ((k', v') :: t')
           | Raise e => Raise e
           end
  end.

(** [d.values()] *)
Definition dict_values (d : dict V) : list V := map snd d.
Definition dict_keys (d : dict V) : list str := map fst d.

(** Every key of a [dict] occurs once. *)
Definition dict_wf (d : dict V) : Prop := NoDup (dict_keys d).
End Dict.

End Builtins.
Import Builtins.

(* ===================================================================== *)
(** ** The classes of [hw_07.py] *)
(* ===================================================================== *)

Open Scope py_scope.

(** [class Field] has one attribute, [value], and no check; [Name],
    [Phone] and [Birthday] derive from it. [Name] and [Birthday] objects
    are never compared, so they are their [value]. [Phone] objects are
    compared by [list.remove]; the class defines no [__eq__], so two
    phones are equal when they are the same object: a [Phone] carries the
    identity [oid] it was given when it was created. *)
Record Name : Type := mkName { Name_value : str }.
Record Phone : Type := mkPhone { oid : nat; Phone_value : str }.
Record Birthday : Type := mkBirthday { Birthday_value : str }.

(** [a == b] on [Phone] objects: identity. *)
Definition Phone_eq (a b : Phone) : bool := Nat.eqb (oid a) (oid b).

(** [class Record] (lines 33-70); [Record] is a reserved word here. *)
Record PyRecord : Type := mkRecord {
  name : Name;
  phones : list Phone;
  birthday : option Birthday
}.

(** The state a method of [Record] runs in: the object itself and the
    next free object identity. *)
Record RState : Type := mkRState { next_oid : nat; self : PyRecord }.

Definition set_phones (l : list Phone) : M RState unit :=
  fun st =>
    (Ok tt,
     mkRState (next_oid st)
              (mkRecord (name (self st)) l (birthday (self st)))).

Definition set_birthday (b : option Birthday) : M RState unit :=
  fun st =>
    (Ok tt,
     mkRState (next_oid st)
              (mkRecord (name (self st)) (phones (self st)) b)).

(** A new object takes the next identity. *)
Definition new_Phone (value : str) : M RState Phone :=
  fun st => (Ok (mkPhone (next_oid st) value),
             mkRState (S (next_oid st)) (self st)).

Section Classes.
Context {U : UnicodeData}.

(** [Name(value)]: [class Name(Field): pass] (lines 13-14). *)
Definition Name_init (value : str) : Result Name := Ok (mkName value).

(** The test of [Phone.__init__] (line 19). *)
Definition Phone_check (value : str) : Result unit :=
  if negb (isdigit value) || negb (len value =? 10)
  then Raise (ValueError (Some "Phone number must be 10 digits"%string))
  else Ok tt.

(** [Phone(value)] (lines 17-21). *)
Definition Phone_init (value : str) : M RState Phone :=
  lift (Phone_check value) ;;
  new_Phone value.

(** [Birthday(value)] (lines 24-30). *)
Definition Birthday_init (value : str) : Result Birthday :=
  _ <~ except_ValueError
         (strptime_dmY value)
         (ValueError
            (Some "Invalid date. Ensure the date is valid and in DD.MM.YYYY format"%string)) ;;
  Ok (mkBirthday value).

(** [Record(name)] (lines 34-37). *)
Definition Record_init (name : str) : Result PyRecord :=
  n <~ Name_init name ;;
  Ok (mkRecord n [] None).

(** [find_phone] (lines 58-62): the loop over [self.phones]. *)
Fixpoint find_phone_loop (l : list Phone) (phone : str) : option Phone :=
  match l with
  | [] => None
  | ph :: t =>
      if str_eqb (Phone_value ph) phone then Some ph
      else find_phone_loop t phone
  end.

Definition find_phone (self : PyRecord) (phone : str) : option Phone :=
  find_phone_loop (phones self) phone.

(** [add_phone] (lines 39-40). *)
Definition add_phone (phone : str) : M RState unit :=
  p <- Phone_init phone ;;
  st <- get ;;
  set_phones (phones (self st) ++ [p]).

(** [self.phones.remove(x)] *)
Definition phones_remove (x : Phone) : M RState unit :=
  st <- get ;;
  l <- lift (list_remove Phone_eq x (phones (self st))) ;;
  set_phones l.

(** [remove_phone] (lines 42-47). *)
Definition remove_phone (phone : str) : M RState unit :=
  st <- get ;;
  match find_phone (self st) phone with
  | Some phone_obj => phones_remove phone_obj
  | None => raise (ValueError (Some "Phone number not found"%string))
  end.

(** [edit_phone] (lines 49-56). *)
Definition edit_phone (old_phone new_phone : str) : M RState unit :=
  st <- get ;;
  match find_phone (self st) old_phone with
  | Some phone_obj =>
      new_phone_obj <- Phone_init new_phone ;;
      phones_remove phone_obj ;;
      st <- get ;;
      set_phones (phones (self st) ++ [new_phone_obj])
  | None => raise (ValueError (Some "Old phone number not found"%string))
  end.

(** [add_birthday] (lines 64-65). *)
Definition add_birthday (birthday : str) : M RState unit :=
  b <- lift (Birthday_init birthday) ;;
  set_birthday (Some b).

(** [Record.__str__] (lines 67-70). *)
Definition Record_str (self : PyRecord) : str :=
  let phones_s :=
    match phones self with
    | [] => lit "No phones"
    | _ => join (lit "; ") (map Phone_value (phones self))
    end in
  let birthday_s :=
    match birthday self with
    | Some b => Birthday_value b
    | None => lit "No birthday"
    end in
  lit "Contact name: " ++ Name_value (name self)
  ++ lit ", phones: " ++ phones_s ++ lit ", birthday: " ++ birthday_s.

(** [class AddressBook(UserDict)]: the attribute [data]. A record in it
    is held by value: no statement below looks at a record through two
    references; a method call on a record of the book is [add_record]
    of the changed record, which has the same name. *)
Definition AddressBook : Type := dict PyRecord.

(** [add_record] (lines 74-75). *)
Definition add_record (record : PyRecord) : M AddressBook unit :=
  fun data => (Ok tt, dict_setitem (Name_value (name record)) record data).

(** [find] (lines 77-78). *)
Definition find (data : AddressBook) (name : str) : option PyRecord :=
  dict_get name data.

(** [delete] (lines 80-82). *)
Definition delete (name : str) : M AddressBook unit :=
  fun data =>
    if dict_contains name data then
      match dict_delitem name data with
      | Ok data' => (Ok tt, data')
      | Raise e => (Raise e, data)
      end
    else (Ok tt, data).

(** One element of the list [get_upcoming_birthdays] returns: the dict
    with keys ["name"] and ["birthday"]. *)
Record Entry : Type := mkEntry { entry_name : str; entry_birthday : str }.

(** The body of the loop of [get_upcoming_birthdays] (lines 88-103):
    from [upcoming] before the iteration to [upcoming] after it. *)
Definition upcoming_body (today : date) (upcoming : list Entry)
           (record : PyRecord) : Result (list Entry) :=
  match birthday record with
  | None => Ok upcoming
  | Some b =>
      bday <~ strptime_dmY (Birthday_value b) ;;
      bday_this_year <~ replace_year bday (year today) ;;
      bday_this_year <~
        (if date_lt bday_this_year today
         then replace_year bday_this_year (year today + 1)
         else Ok bday_this_year) ;;
      let days_until := sub_days bday_this_year today in
      if (0 <=? days_until) && (days_until <=? 7) then
        let congratulation_date := bday_this_year in
        congratulation_date <~
          (if 5 <=? weekday congratulation_date then
             let days_to_monday := 7 - weekday congratulation_date in
             add_days congratulation_date days_to_monday
           else Ok congratulation_date) ;;
        Ok (upcoming
            ++ [mkEntry (Name_value (name record))
                        (strftime_dmY congratulation_date)])
      else Ok upcoming
  end.

Fixpoint upcoming_loop (today : date) (upcoming : list Entry)
         (records : list PyRecord) : Result (list Entry) :=
  match records with
  | [] => Ok upcoming
  | record :: rest =>
      upcoming' <~ upcoming_body today upcoming record ;;
      upcoming_loop today upcoming' rest
  end.

(** [get_upcoming_birthdays] (lines 84-104); [today] is the value of
    [datetime.today().date()]. *)
Definition get_upcoming_birthdays (today : date) (data : AddressBook)
  : Result (list Entry) :=
  upcoming_loop today [] (dict_values data).

(** [AddressBook.__str__] (lines 106-107). *)
Definition AddressBook_str (data : AddressBook) : str :=
  join (lit (String (ascii_of_nat 10) EmptyString))
       (map Record_str (dict_values data)).

End Classes.

(* ===================================================================== *)
(** ** [str.split], [str.strip], [str.lower] *)
(* ===================================================================== *)

Unset Implicit Arguments.

Module PyText.

(** The Unicode character database, for what [parse_input] asks of it:
    which code points from U+0100 on are whitespace, and the lower-case
    form of a text that has a character beyond ASCII. *)
Class UnicodeText := {
  ucd_space : char -> bool;
  ucd_lower : str -> str
}.

(** The whitespace below U+0100: tab to carriage return, the four
    separators U+001C to U+001F, the blank, U+0085 and U+00A0. *)
Definition latin1_space (c : char) : bool :=
  (((9 <=? c) && (c <=? 13)) || ((28 <=? c) && (c <=? 32))
   || (c =? 133) || (c =? 160))%N.

(** [A] to [Z] become [a] to [z]. *)
Definition ascii_lower (c : char) : char :=
  if ((65 <=? c) && (c <=? 90))%N then (c + 32)%N else c.

Section Text.
Context {T : UnicodeText}.

(** One character of [str.isspace]. *)
Definition is_space (c : char) : bool :=
  if (c <? 256)%N then latin1_space c else ucd_space c.

(** [s.split()]: the maximal runs of characters that are not whitespace;
    [word] is the run being read. *)
Fixpoint split_from (word : str) (s : str) : list str :=
  match s with
  | [] => match word with [] => [] | _ => [word] end
  | c :: t =>
      if is_space c then
        match word with
        | [] => split_from [] t
        | _ => word :: split_from [] t
        end
      else split_from (word ++ [c]) t
  end.

Definition split (s : str) : list str := split_from [] s.

Fixpoint lstrip_space (s : str) : str :=
  match s with
  | c :: t => if is_space c then lstrip_space t else s
  | [] => []
  end.

(** [s.strip()] *)
Definition strip (s : str) : str :=
  rev (lstrip_space (rev (lstrip_space s))).

(** [s.lower()] *)
Definition lower (s : str) : str :=
  if forallb (fun c => (c <? 128)%N) s then map ascii_lower s
  else ucd_lower s.

End Text.

(** A table with no whitespace beyond U+00FF, to run the definitions. *)
Definition plain_text : UnicodeText :=
  {| ucd_space := fun _ => false; ucd_lower := fun s => s |}.

End PyText.
Import PyText.

(* ===================================================================== *)
(** ** The command handlers and the command loop of [hw_07.py] *)
(* ===================================================================== *)

(** What the handlers work on: the address book, whose records they
    reach and change in place, and the next free object identity. *)
Record World : Type := mkWorld { book : AddressBook; heap : nat }.

(** The text of a message: one written in [hw_07.py], or the text the
    runtime gave to an exception of its own, which is never empty and
    is longer than two characters. *)
Inductive text : Type :=
| Text (s : str)
| RuntimeText.

(** What a function under [@input_error] gives back: its own value, or
    the message made from the exception it raised. *)
Inductive reply (A : Type) : Type :=
| Returned (a : A)
| Caught (m : text).
Arguments Returned {A} a.
Arguments Caught {A} m.

(** What the program writes: [print(t)], and the prompt of [input]. *)
Inductive output : Type :=
| Print (t : text)
| Prompt (s : str).

(** How the command loop ends: [break], an exception nothing catches,
    or [input] finding no line to read. *)
Inductive ending : Type :=
| Good_bye
| Uncaught (e : exn)
| End_of_input.

(** One turn of the command loop: go on, or leave it. *)
Inductive turn : Type :=
| Continue (printed : list output)
| Break (printed : list output).

Definition newline : str := [10%N].

Module Handlers.
Section Handling.
Context {U : UnicodeData} {T : UnicodeText}.

(** A method of [AddressBook] called on the book of the world. *)
Definition in_book {A} (m : M AddressBook A) : M World A :=
  fun w =>
    match m (book w) with
    | (res, data) => (res, mkWorld data (heap w))
    end.

(** A method called on [record], the object the book holds under [key]:
    the book holds the object itself, so what the method changes is
    changed in the book, also when the method raises afterwards. *)
Definition on_record {A} (key : str) (record : PyRecord) (m : M RState A)
  : M World A :=
  fun w =>
    match m (mkRState (heap w) record) with
    | (res, st) =>
        (res, mkWorld (dict_setitem key (self st) (book w)) (next_oid st))
    end.

(** [str(e)] for a [ValueError]. *)
Definition str_ValueError (msg : option string) : text :=
  match msg with
  | Some m => Text (lit m)
  | None => RuntimeText
  end.

(** [input_error] (lines 111-121). The branch for [IndexError] has no
    counterpart: nothing the decorated functions call raises one. *)
Definition input_error {A} (func : M World A) : M World (reply A) :=
  fun w =>
    match func w with
    | (Ok a, w') => (Ok (Returned a), w')
    | (Raise (KeyError _), w') =>
        (Ok (Caught (Text (lit "This contact does not exist."))), w')
    | (Raise (ValueError msg), w') =>
        (Ok (Caught
               match str_ValueError msg with
               | Text [] => Text (lit "Invalid input. Check arguments.")
               | m => m
               end), w')
    | (Raise e, w') => (Raise e, w')
    end.

(** [parse_input] (lines 124-127). Unpacking [cmd, *args] from an empty
    list raises [ValueError]. *)
Definition parse_input (user_input : str)
  : M World (reply (str * list str)) :=
  input_error
    (match split user_input with
     | cmd :: args => ret (lower (strip cmd), args)
     | [] => raise (ValueError None)
     end).

(** [add_contact] (lines 130-141). Unpacking [name, phone, *_] from
    fewer than two arguments raises [ValueError]. *)
Definition add_contact (args : list str) : M World (reply str) :=
  input_error
    (match args with
     | name :: phone :: _ =>
         w <- get ;;
         p <- match find (book w) name with
              | None =>
                  record <- lift (Record_init name) ;;
                  in_book (add_record record) ;;
                  ret (record, lit "Contact added.")
              | Some record => ret (record, lit "Contact updated.")
              end ;;
         let record := fst p in
         let message := snd p in
         match phone with
         | [] => ret tt
         | _ => on_record name record (add_phone phone)
         end ;;
         ret message
     | _ => raise (ValueError None)
     end).

(** [change_contact] (lines 144-151). A bare [raise KeyError] carries no
    key; it is written with the empty one, which [input_error] does not
    look at. *)
Definition change_contact (args : list str) : M World (reply str) :=
  input_error
    (match args with
     | name :: old_phone :: new_phone :: _ =>
         w <- get ;;
         match find (book w) name with
         | Some record =>
             on_record name record (edit_phone old_phone new_phone) ;;
             ret (lit "Contact updated.")
         | None => raise (KeyError [])
         end
     | _ => raise (ValueError None)
     end).

(** [show_phone] (lines 154-160). *)
Definition show_phone (args : list str) : M World (reply str) :=
  input_error
    (match args with
     | name :: _ =>
         w <- get ;;
         match find (book w) name with
         | Some record =>
             ret match phones record with
                 | [] => lit "No phones"
                 | _ => join (lit "; ") (map Phone_value (phones record))
                 end
         | None => raise (KeyError [])
         end
     | _ => raise (ValueError None)
     end).

(** [show_all] (lines 163-167). *)
Definition show_all (args : list str) : M World (reply str) :=
  input_error
    (w <- get ;;
     match book w with
     | [] => ret (lit "No contacts saved.")
     | _ => ret (AddressBook_str (book w))
     end).

(** [add_birthday] (lines 170-177). *)
Definition add_birthday (args : list str) : M World (reply str) :=
  input_error
    (match args with
     | name :: birthday :: _ =>
         w <- get ;;
         match find (book w) name with
         | Some record =>
             on_record name record (add_birthday birthday) ;;
             ret (lit "Birthday added.")
         | None => raise (KeyError [])
         end
     | _ => raise (ValueError None)
     end).

(** [show_birthday] (lines 180-186). *)
Definition show_birthday (args : list str) : M World (reply str) :=
  input_error
    (match args with
     | name :: _ =>
         w <- get ;;
         match find (book w) name with
         | Some record =>
             ret match birthday record with
                 | Some b => Birthday_value b
                 | None => lit "No birthday set"
                 end
         | None => raise (KeyError [])
         end
     | _ => raise (ValueError None)
     end).

(** [birthdays] (lines 189-194); [today] is what the clock shows. *)
Definition birthdays (today : date) (args : list str) : M World (reply str) :=
  input_error
    (w <- get ;;
     upcoming <- lift (get_upcoming_birthdays today (book w)) ;;
     match upcoming with
     | [] => ret (lit "No birthdays in the next 7 days.")
     | _ =>
         ret (join newline
                (map (fun item =>
                        entry_name item ++ lit ": " ++ entry_birthday item)
                     upcoming))
     end).

(** [print(x)] for what a handler gave back. *)
Definition printed (r : reply str) : output :=
  match r with
  | Returned s => Print (Text s)
  | Caught m => Print m
  end.

(** [command, args = parse_input(user_input)] (line 205). When
    [parse_input] gave back a message, it is the message that is
    unpacked, character by character: a text of two characters would
    give the two names one character each, any other text raises
    [ValueError]. *)
Definition unpack_command (p : reply (str * list str))
  : Result (str * list str) :=
  match p with
  | Returned (command, args) => Ok (command, args)
  | Caught (Text [a; b]) => Ok ([a], [[b]])
  | Caught _ => Raise (ValueError None)
  end.

(** The body of the loop of [main] (lines 201-227), for the line [input]
    returned. *)
Definition main_turn (today : date) (user_input : str) : M World turn :=
  match user_input with
  | [] => ret (Continue [Print (Text (lit "Empty input. Please try again."))])
  | _ =>
      p <- parse_input user_input ;;
      ca <- lift (unpack_command p) ;;
      let command := fst ca in
      let args := snd ca in
      if str_eqb command (lit "close") || str_eqb command (lit "exit")
      then ret (Break [Print (Text (lit "Good bye!"))])
      else if str_eqb command (lit "hello")
      then ret (Continue [Print (Text (lit "How can I help you?"))])
      else if str_eqb command (lit "add")
      then r <- add_contact args ;; ret (Continue [printed r])
      else if str_eqb command (lit "change")
      then r <- change_contact args ;; ret (Continue [printed r])
      else if str_eqb command (lit "phone")
      then r <- show_phone args ;; ret (Continue [printed r])
      else if str_eqb command (lit "all")
      then r <- show_all args ;; ret (Continue [printed r])
      else if str_eqb command (lit "add-birthday")
      then r <- add_birthday args ;; ret (Continue [printed r])
      else if str_eqb command (lit "show-birthday")
      then r <- show_birthday args ;; ret (Continue [printed r])
      else if str_eqb command (lit "birthdays")
      then r <- birthdays today args ;; ret (Continue [printed r])
      else ret (Continue [Print (Text (lit "Invalid command."))])
  end.

(** The loop of [main] run on the lines typed, each with what the clock
    shows when it is read: what is written, how the loop ends, and the
    world at that point. *)
Fixpoint main_loop (inputs : list (date * str)) (w : World)
  : list output * ending * World :=
  match inputs with
  | [] => ([Prompt (lit "Enter a command: ")], End_of_input, w)
  | (today, user_input) :: rest =>
      match main_turn today user_input w with
      | (Ok (Continue printed), w') =>
          match main_loop rest w' with
          | (out, e, w'') =>
              (Prompt (lit "Enter a command: ") :: printed ++ out, e, w'')
          end
      | (Ok (Break printed), w') =>
          (Prompt (lit "Enter a command: ") :: printed, Good_bye, w')
      | (Raise e, w') =>
          ([Prompt (lit "Enter a command: ")], Uncaught e, w')
      end
  end.

(** [main] (lines 197-227). *)
Definition main (inputs : list (date * str))
  : list output * ending * World :=
  match main_loop inputs (mkWorld [] 0) with
  | (out, e, w) =>
      (Print (Text (lit "Welcome to the assistant bot!")) :: out, e, w)
  end.

End Handling.
End Handlers.

Set Implicit Arguments.

(* ===================================================================== *)
(** ** Notions the statements use *)
(* ===================================================================== *)

(** The language of a regular expression. *)
Inductive matches {U : UnicodeData} : regex -> str -> Prop :=
| m_chr c : matches (Chr c) [c]
| m_rng lo hi x : (lo <= x <= hi)%N -> matches (Rng lo hi) [x]
| m_dig x : is_decimal x = true -> matches Dig [x]
| m_cat r1 r2 a b :
    matches r1 a -> matches r2 b -> matches (Cat r1 r2) (a ++ b)
| m_alt_l r1 r2 a : matches r1 a -> matches (Alt r1 r2) a
| m_alt_r r1 r2 a : matches r2 a -> matches (Alt r1 r2) a.

(** No character [r] can match is [c]. *)
Fixpoint avoids {U : UnicodeData} (c : char) (r : regex) : bool :=
  match r with
  | Chr x => negb (x =? c)%N
  | Rng lo hi => negb ((lo <=? c) && (c <=? hi))%N
  | Dig => negb (is_decimal c)
  | Cat r1 r2 | Alt r1 r2 => avoids c r1 && avoids c r2
  end.

(** [s] is a day, a month and a year as [%d], [%m] and [%Y] read them,
    separated by dots, and the three numbers are the date [dt]. *)
Definition reads_as {U : UnicodeData} (s : str) (dt : date) : Prop :=
  exists d m Y,
    s = d ++ dot :: m ++ dot :: Y
    /\ matches re_d d /\ matches re_m m /\ matches re_Y Y
    /\ int Y = Some (year dt) /\ int m = Some (month dt)
    /\ int d = Some (day dt)
    /\ valid_date dt.

(** The strict shape DD.MM.YYYY: ten characters, ASCII digits around two
    dots. *)
Definition strict_shape (s : str) : Prop :=
  exists d1 d2 m1 m2 y1 y2 y3 y4,
    s = [d1; d2; dot; m1; m2; dot; y1; y2; y3; y4]
    /\ Forall (fun c => ascii_digit c = true)
              [d1; d2; m1; m2; y1; y2; y3; y4].

(** The month and the day from the day of the year: the end of
    [_ord2ymd], on its own. *)
Definition month_day (leapyear : bool) (n : Z) : Z * Z :=
  let month := Z.shiftr (n + 50) 5 in
  let preceding :=
    _DAYS_BEFORE_MONTH month + (if (2 <? month) && leapyear then 1 else 0) in
  let '(month, preceding) :=
    if n <? preceding then
      (month - 1,
       preceding - (_DAYS_IN_MONTH (month - 1)
                    + (if (month - 1 =? 2) && leapyear then 1 else 0)))
    else (month, preceding) in
  (month, n - preceding + 1).

Definition month_day_ok (leapyear : bool) (n : Z) : bool :=
  let '(m, d) := month_day leapyear n in
  (1 <=? m) && (m <=? 12) && (1 <=? d)
  && (d <=? _DAYS_IN_MONTH m + (if (m =? 2) && leapyear then 1 else 0))
  && (_DAYS_BEFORE_MONTH m + (if (2 <? m) && leapyear then 1 else 0) + d
      =? n + 1).

(** One identity, one object: phones with the same [oid] have the same
    [value]. *)
Definition heap_consistent (l : list Phone) : Prop :=
  forall p q, In p l -> In q l -> oid p = oid q -> Phone_value p = Phone_value q.

(** The identities in use were all given out already. *)
Definition RState_wf (st : RState) : Prop :=
  heap_consistent (phones (self st))
  /\ Forall (fun p => (oid p < next_oid st)%nat) (phones (self st)).

(** The calls a caller can make on a record, and a run of them, going
    on after a call that raised, as the command loop does. *)
Inductive call : Type :=
| Call_add_phone (phone : str)
| Call_remove_phone (phone : str)
| Call_edit_phone (old_phone new_phone : str)
| Call_add_birthday (birthday : str).

Definition perform {U : UnicodeData} (c : call) : M RState unit :=
  match c with
  | Call_add_phone p => add_phone p
  | Call_remove_phone p => remove_phone p
  | Call_edit_phone o n => edit_phone o n
  | Call_add_birthday b => add_birthday b
  end.

Fixpoint perform_all {U : UnicodeData} (cs : list call) (st : RState)
  : RState :=
  match cs with
  | [] => st
  | c :: rest => perform_all rest (snd (perform c st))
  end.

(** The invariant of the address book: keys occur once, and a record is
    filed under its own name. *)
Definition book_inv (data : AddressBook) : Prop :=
  dict_wf data
  /\ Forall (fun kv => fst kv = Name_value (name (snd kv))) data.

(** The next occurrence of a birthday: its month and day in today's
    year, or in the year after when that date is before today. *)
Definition occurrence (today bday : date) : date :=
  let this_year := mkdate (year today) (month bday) (day bday) in
  if date_lt this_year today
  then mkdate (year today + 1) (month bday) (day bday)
  else this_year.

(** The occurrence is today or within the seven days after it. *)
Definition in_window (today bday : date) : bool :=
  let days_until := sub_days (occurrence today bday) today in
  (0 <=? days_until) && (days_until <=? 7).

(** The congratulation date for an occurrence: itself from Monday to
    Friday, the Monday after on a Saturday or a Sunday. *)
Definition shifted (occ cong : date) : Prop :=
  (weekday occ <= 4 /\ cong = occ)
  \/ (weekday occ = 5 /\ toordinal cong = toordinal occ + 2
      /\ weekday cong = 0)
  \/ (weekday occ = 6 /\ toordinal cong = toordinal occ + 1
      /\ weekday cong = 0).

(** A record born on 29 February. *)
Definition born_feb_29 {U : UnicodeData} (r : PyRecord) : Prop :=
  exists b bday,
    birthday r = Some b /\ strptime_dmY (Birthday_value b) = Ok bday
    /\ month bday = 2 /\ day bday = 29.

(** Every stored birthday went through [Birthday]. *)
Definition birthdays_valid {U : UnicodeData} (data : AddressBook) : Prop :=
  Forall (fun r => forall b, birthday r = Some b ->
                   exists bday, strptime_dmY (Birthday_value b) = Ok bday)
         (dict_values data).

(** A record whose birthday falls in the window. *)
Definition due {U : UnicodeData} (today : date) (r : PyRecord) : bool :=
  match birthday r with
  | Some b =>
      match strptime_dmY (Birthday_value b) with
      | Ok bday => in_window today bday
      | Raise _ => false
      end
  | None => false
  end.

(** The text [a] is in the language of [r] and is worth [v]. *)
Definition token_ok {U : UnicodeData} (r : regex) (a : str) (v : Z) : bool :=
  existsb (fun p => str_eqb (fst p) a
                    && match snd p with [] => true | _ => false end)
          (rx r a)
  && match int a with Some x => x =? v | None => false end.

Definition book0 : AddressBook := [].

(** Records and books for the examples. *)
Definition contact (n bd : string) : PyRecord :=
  mkRecord (mkName (lit n)) [] (Some (mkBirthday (lit bd))).

Definition book_of (l : list PyRecord) : AddressBook :=
  fold_left (fun data r => snd (add_record r data)) l book0.

Definition superscript_twos : str :=
  [178; 178; 178; 178; 178; 178; 178; 178; 178; 178]%N.

Definition phone_a : Phone := mkPhone 0 (lit "1111111111").
Definition phone_b : Phone := mkPhone 1 (lit "2222222222").
Definition phone_c : Phone := mkPhone 2 (lit "1111111111").

(** A record with three phones, the first and the last with the same
    number. *)
Definition state3 : RState :=
  mkRState 3 (mkRecord (mkName (lit "Ann")) [phone_a; phone_b; phone_c] None).

Definition state0 : RState := mkRState 0 (mkRecord (mkName (lit "Bob")) [] None).


(** *** Notions of the further statements *)

(** The fields of a record went through their validators. *)
Definition fields_valid {U : UnicodeData} (r : PyRecord) : Prop :=
  Forall (fun p => Phone_check (Phone_value p) = Ok tt) (phones r)
  /\ (forall b, birthday r = Some b ->
                exists dt, reads_as (Birthday_value b) dt).

(** A record the query can handle on the day [today]: one not born on
    29 February, or any record in a leap year while 29 February is not
    yet past. *)
Definition answerable {U : UnicodeData} (today : date) (r : PyRecord) : Prop :=
  born_feb_29 r ->
  _is_leap (year today) = true
  /\ date_lt (mkdate (year today) 2 29) today = false.

(** A word: a text that is not empty and has no whitespace in it. *)
Definition word_ok {T : UnicodeText} (s : str) : Prop :=
  s <> [] /\ Forall (fun c => is_space c = false) s.

(** What holds of a record of the book: its fields were validated, and
    the identities of its phones are sound and were given out already. *)
Definition record_inv {U : UnicodeData} (h : nat) (r : PyRecord) : Prop :=
  fields_valid r
  /\ heap_consistent (phones r)
  /\ Forall (fun p => (oid p < h)%nat) (phones r).

(** What holds of the world all along a run of the command loop. *)
Definition World_inv {U : UnicodeData} {T : UnicodeText} (w : World) : Prop :=
  book_inv (book w)
  /\ Forall word_ok (dict_keys (book w))
  /\ Forall (record_inv (heap w)) (dict_values (book w)).

Unset Implicit Arguments.

(* ===================================================================== *)
(** ** Strings, results *)
(* ===================================================================== *)

Lemma str_eqb_eq (a b : str) : str_eqb a b = true <-> a = b.
Proof.
  unfold str_eqb. destruct (str_eq_dec a b); split; congruence.
Qed.

Lemma str_eqb_neq (a b : str) : str_eqb a b = false <-> a <> b.
Proof.
  unfold str_eqb. destruct (str_eq_dec a b); split; congruence.
Qed.

Lemma str_eqb_refl (a : str) : str_eqb a a = true.
Proof. now apply str_eqb_eq. Qed.

Lemma len_length (s : str) (n : nat) :
  (len s =? Z.of_nat n) = Nat.eqb (List.length s) n.
Proof.
  unfold len. destruct (Nat.eqb_spec (List.length s) n) as [->|H].
  - apply Z.eqb_refl.
  - apply Z.eqb_neq. lia.
Qed.

Lemma ascii_digit_is_digit {U : UnicodeData} (c : char) :
  ascii_digit c = true -> is_digit c = true.
Proof. unfold is_digit. now intros ->. Qed.

Lemma is_digit_ascii {U : UnicodeData} (c : char) :
  (c < 128)%N -> is_digit c = true -> ascii_digit c = true.
Proof.
  unfold is_digit. intros Hc. destruct (ascii_digit c); [reflexivity|].
  destruct (N.ltb_spec c 256); [|lia].
  rewrite !orb_true_iff, !N.eqb_eq. lia.
Qed.

Lemma isdigit_spec {U : UnicodeData} (s : str) :
  isdigit s = true <-> s <> [] /\ Forall (fun c => is_digit c = true) s.
Proof.
  unfold isdigit. destruct s as [|c t].
  - split; [discriminate|]. intros [H _]. now elim H.
  - rewrite forallb_forall, Forall_forall. split.
    + intros H. split; [discriminate|exact H].
    + intros [_ H]. exact H.
Qed.

(* ===================================================================== *)
(** ** Field validators and the Record constructor *)
(* ===================================================================== *)

Section Validators.
Context {U : UnicodeData}.

Lemma Phone_check_ok (s : str) :
  Phone_check s = Ok tt
  <-> List.length s = 10%nat /\ Forall (fun c => is_digit c = true) s.
Proof.
  unfold Phone_check. change 10 with (Z.of_nat 10). rewrite len_length.
  destruct (isdigit s) eqn:D; cbn [negb orb].
  - apply isdigit_spec in D. destruct D as [_ D].
    destruct (Nat.eqb_spec (List.length s) 10); cbn [negb]; split;
      try tauto; try discriminate.
  - split; [discriminate|]. intros [L F].
    assert (isdigit s = true) as E; [|congruence].
    apply isdigit_spec. split; [|exact F].
    intros ->. discriminate L.
Qed.

Lemma Phone_check_cases (s : str) :
  Phone_check s = Ok tt
  \/ Phone_check s
     = Raise (ValueError (Some "Phone number must be 10 digits"%string)).
Proof. unfold Phone_check. destruct (_ || _); auto. Qed.

Lemma Phone_init_ok (s : str) (st : RState) :
  Phone_check s = Ok tt ->
  Phone_init s st
  = (Ok (mkPhone (next_oid st) s), mkRState (S (next_oid st)) (self st)).
Proof. intros H. unfold Phone_init, bind, lift. now rewrite H. Qed.

Lemma Phone_init_raise (s : str) (st : RState) :
  Phone_check s <> Ok tt ->
  Phone_init s st
  = (Raise (ValueError (Some "Phone number must be 10 digits"%string)), st).
Proof.
  intros H. unfold Phone_init, bind, lift.
  destruct (Phone_check_cases s) as [E|E]; [contradiction|now rewrite E].
Qed.

(** C3, as the code has it: [Phone(s)] succeeds exactly when [s] has ten
    characters and each of them is a digit for [str.isdigit] (the ASCII
    digits, and the other characters Unicode classes as digits, such as
    the superscript two); otherwise it raises the [ValueError] of line
    20 and nothing changes; on success the stored value is [s]. Ten
    ASCII digits are accepted, and a string of ASCII characters is
    accepted only when it is ten ASCII digits. *)
Theorem C3_phone_validation (s : str) (st : RState) :
  ((List.length s = 10%nat /\ Forall (fun c => is_digit c = true) s) ->
     Phone_init s st
     = (Ok (mkPhone (next_oid st) s),
        mkRState (S (next_oid st)) (self st)))
  /\ (~ (List.length s = 10%nat /\ Forall (fun c => is_digit c = true) s) ->
     Phone_init s st
     = (Raise (ValueError (Some "Phone number must be 10 digits"%string)),
        st))
  /\ (forall p st', Phone_init s st = (Ok p, st') -> Phone_value p = s)
  /\ (List.length s = 10%nat ->
      Forall (fun c => ascii_digit c = true) s ->
      exists p st', Phone_init s st = (Ok p, st'))
  /\ (Forall (fun c => (c < 128)%N) s ->
      (exists p st', Phone_init s st = (Ok p, st')) ->
      List.length s = 10%nat /\ Forall (fun c => ascii_digit c = true) s).
Proof.
  assert (Hno : Phone_check s <> Ok tt ->
                forall p st', Phone_init s st <> (Ok p, st')).
  { intros H p st' E. rewrite Phone_init_raise in E by exact H. discriminate. }
  repeat split.
  - intros H. apply Phone_init_ok. now apply Phone_check_ok.
  - intros H. apply Phone_init_raise. now rewrite Phone_check_ok.
  - intros p st' E.
    destruct (Phone_check_cases s) as [C|C].
    + rewrite Phone_init_ok in E by exact C. now inversion E.
    + exfalso. apply (Hno ltac:(congruence) p st' E).
  - intros L F. eexists _, _. apply Phone_init_ok, Phone_check_ok.
    split; [exact L|].
    eapply Forall_impl; [|exact F]. apply ascii_digit_is_digit.
  - destruct H0 as (p & st' & E).
    destruct (Phone_check_cases s) as [C|C].
    + now apply Phone_check_ok in C.
    + exfalso. apply (Hno ltac:(congruence) p st' E).
  - destruct H0 as (p & st' & E).
    destruct (Phone_check_cases s) as [C|C].
    + apply Phone_check_ok in C. destruct C as [_ C].
      rewrite Forall_forall in *. intros c Hc.
      apply is_digit_ascii; auto.
    + exfalso. apply (Hno ltac:(congruence) p st' E).
Qed.

(** C9, as the code has it: [Record(name)] succeeds for every name, the
    empty one included, and gives a record with that name, no phone and
    no birthday. *)
Theorem C9_record_constructor (n : str) :
  Record_init n = Ok (mkRecord (mkName n) [] None).
Proof. reflexivity. Qed.

End Validators.

(** C3 fails as stated: ten superscript twos (U+00B2) are accepted, and
    they are not ASCII digits. *)
Lemma C3_counterexample :
  (forall (U : UnicodeData) (st : RState),
      Phone_init superscript_twos st
      = (Ok (mkPhone (next_oid st) superscript_twos),
         mkRState (S (next_oid st)) (self st)))
  /\ List.length superscript_twos = 10%nat
  /\ Forall (fun c => ascii_digit c = false) superscript_twos.
Proof.
  split; [|split].
  - intros U st. reflexivity.
  - reflexivity.
  - repeat constructor.
Qed.

(** C9 fails as stated: the constructor accepts the empty name. *)
Lemma C9_counterexample :
  Record_init [] = Ok (mkRecord (mkName []) [] None)
  /\ Record_init [] <> Raise (ValueError None)
  /\ forall e, Record_init [] <> Raise e.
Proof. repeat split; discriminate. Qed.

(* ===================================================================== *)
(** ** The phones of a Record *)
(* ===================================================================== *)

Section Phones.
Context {U : UnicodeData}.

Lemma find_phone_loop_Some (l : list Phone) (s : str) (p : Phone) :
  find_phone_loop l s = Some p
  <-> exists l1 l2,
      l = l1 ++ p :: l2 /\ Phone_value p = s
      /\ Forall (fun q => Phone_value q <> s) l1.
Proof.
  induction l as [|a l IH]; cbn [find_phone_loop].
  - split; [discriminate|]. intros ([|? ?] & ? & E & _); discriminate E.
  - destruct (str_eqb (Phone_value a) s) eqn:E.
    + apply str_eqb_eq in E. split.
      * intros [= <-]. exists [], l. auto.
      * intros ([|b l1] & l2 & El & Ev & F).
        -- now inversion El.
        -- inversion El; subst b. inversion F. contradiction.
    + apply str_eqb_neq in E. rewrite IH. split.
      * intros (l1 & l2 & -> & Ev & F). exists (a :: l1), l2. auto.
      * intros ([|b l1] & l2 & El & Ev & F).
        -- inversion El; subst a. contradiction.
        -- inversion El; subst b l. inversion F. eauto.
Qed.

Lemma find_phone_loop_None (l : list Phone) (s : str) :
  find_phone_loop l s = None <-> Forall (fun q => Phone_value q <> s) l.
Proof.
  induction l as [|a l IH]; cbn [find_phone_loop].
  - split; auto.
  - destruct (str_eqb (Phone_value a) s) eqn:E.
    + apply str_eqb_eq in E. split; [discriminate|].
      intros F. inversion F. contradiction.
    + apply str_eqb_neq in E. rewrite IH. split.
      * auto.
      * intros F. now inversion F.
Qed.

(** [l.remove(p)] takes out the phone [find_phone] returned: no phone
    before it is the same object, because none has its value. *)
Lemma list_remove_found (l1 l2 : list Phone) (p : Phone) :
  heap_consistent (l1 ++ p :: l2) ->
  Forall (fun q => Phone_value q <> Phone_value p) l1 ->
  list_remove Phone_eq p (l1 ++ p :: l2) = Ok (l1 ++ l2).
Proof.
  induction l1 as [|a l1 IH]; intros C F; cbn [list_remove app].
  - unfold Phone_eq. now rewrite Nat.eqb_refl.
  - inversion F as [|? ? Ha F']; subst.
    unfold Phone_eq at 1. destruct (Nat.eqb_spec (oid a) (oid p)) as [E|E].
    + exfalso. apply Ha. apply C; [now left| |exact E].
      right. apply in_or_app. right. now left.
    + rewrite IH; auto.
      intros x y Hx Hy. apply C; now right.
Qed.

Lemma heap_consistent_remove (l1 l2 : list Phone) (p : Phone) :
  heap_consistent (l1 ++ p :: l2) -> heap_consistent (l1 ++ l2).
Proof.
  intros C x y Hx Hy. apply C; apply in_or_app;
    (apply in_app_or in Hx, Hy); cbn; tauto.
Qed.

Lemma heap_consistent_fresh (l : list Phone) (n : nat) (v : str) :
  heap_consistent l -> Forall (fun p => (oid p < n)%nat) l ->
  heap_consistent (l ++ [mkPhone n v]).
Proof.
  intros C F x y Hx Hy E. rewrite Forall_forall in F.
  apply in_app_or in Hx, Hy. cbn in Hx, Hy.
  destruct Hx as [Hx|[<-|[]]], Hy as [Hy|[<-|[]]]; cbn in *.
  - now apply C.
  - apply F in Hx. lia.
  - apply F in Hy. lia.
  - reflexivity.
Qed.

Lemma phones_remove_found (st : RState) (l1 l2 : list Phone) (p : Phone) :
  phones (self st) = l1 ++ p :: l2 ->
  heap_consistent (phones (self st)) ->
  Forall (fun q => Phone_value q <> Phone_value p) l1 ->
  phones_remove p st
  = (Ok tt, mkRState (next_oid st)
                     (mkRecord (name (self st)) (l1 ++ l2)
                               (birthday (self st)))).
Proof.
  intros E C F. unfold phones_remove, bind, get, lift.
  rewrite E in *. now rewrite list_remove_found.
Qed.

(** C8: [find_phone(s)] returns the first phone whose value is [s], and
    [None] when there is none; [remove_phone(s)] takes exactly that
    phone out of the list, the phones before and after it staying in
    their order (a later phone with the same value included), and
    raises the [ValueError] of line 47 when no phone has the value [s],
    the list staying as it was. The hypothesis says that an identity
    stands for one object; it holds in every state the methods can
    reach ([reachable_consistent]). *)
Theorem C8_find_and_remove_phone (st : RState) (s : str) :
  heap_consistent (phones (self st)) ->
  (forall p, find_phone (self st) s = Some p
     <-> exists l1 l2,
         phones (self st) = l1 ++ p :: l2 /\ Phone_value p = s
         /\ Forall (fun q => Phone_value q <> s) l1)
  /\ (find_phone (self st) s = None
      <-> Forall (fun q => Phone_value q <> s) (phones (self st)))
  /\ (forall l1 p l2,
         phones (self st) = l1 ++ p :: l2 -> Phone_value p = s ->
         Forall (fun q => Phone_value q <> s) l1 ->
         remove_phone s st
         = (Ok tt, mkRState (next_oid st)
                            (mkRecord (name (self st)) (l1 ++ l2)
                                      (birthday (self st)))))
  /\ (Forall (fun q => Phone_value q <> s) (phones (self st)) ->
      remove_phone s st
      = (Raise (ValueError (Some "Phone number not found"%string)), st)).
Proof.
  intros C. split; [|split; [|split]].
  - intros p. apply find_phone_loop_Some.
  - apply find_phone_loop_None.
  - intros l1 p l2 E Ev F.
    unfold remove_phone, bind, get.
    assert (find_phone (self st) s = Some p) as ->.
    { apply find_phone_loop_Some. eauto. }
    apply phones_remove_found; auto. now rewrite Ev.
  - intros F. unfold remove_phone, bind, get.
    assert (find_phone (self st) s = None) as ->; [|reflexivity].
    now apply find_phone_loop_None.
Qed.

Lemma edit_phone_absent (old_phone new_phone : str) (st : RState) :
  find_phone (self st) old_phone = None ->
  edit_phone old_phone new_phone st
  = (Raise (ValueError (Some "Old phone number not found"%string)), st).
Proof. intros H. unfold edit_phone, bind, get. now rewrite H. Qed.

(** [Phone(new_phone)] is evaluated before [remove]: when it raises,
    nothing was changed. *)
Lemma edit_phone_invalid (old_phone new_phone : str) (st : RState)
      (p : Phone) :
  find_phone (self st) old_phone = Some p ->
  Phone_check new_phone <> Ok tt ->
  edit_phone old_phone new_phone st
  = (Raise (ValueError (Some "Phone number must be 10 digits"%string)), st).
Proof.
  intros Hp V. unfold edit_phone, bind at 1, get at 1. rewrite Hp.
  unfold bind at 1. now rewrite Phone_init_raise by exact V.
Qed.

Lemma edit_phone_valid (old_phone new_phone : str) (st : RState)
      (l1 : list Phone) (p : Phone) (l2 : list Phone) :
  heap_consistent (phones (self st)) ->
  phones (self st) = l1 ++ p :: l2 -> Phone_value p = old_phone ->
  Forall (fun q => Phone_value q <> old_phone) l1 ->
  Phone_check new_phone = Ok tt ->
  edit_phone old_phone new_phone st
  = (Ok tt,
     mkRState (S (next_oid st))
              (mkRecord (name (self st))
                        ((l1 ++ l2) ++ [mkPhone (next_oid st) new_phone])
                        (birthday (self st)))).
Proof.
  intros C E Ev F V.
  unfold edit_phone, bind at 1, get at 1.
  assert (find_phone (self st) old_phone = Some p) as ->.
  { apply find_phone_loop_Some. eauto. }
  unfold bind at 1. rewrite Phone_init_ok by exact V.
  unfold bind at 1.
  rewrite (@phones_remove_found
             (mkRState (S (next_oid st)) (self st)) l1 l2 p);
    [reflexivity|exact E|exact C|now rewrite Ev].
Qed.

(** C5: [edit_phone(old, new)] is all or nothing. With no phone equal
    to [old] it raises the [ValueError] of line 56 and the record is as
    before; with [old] present and [new] not a valid phone it raises
    the [ValueError] of [Phone] and the record is as before, [old]
    still in the list; with [old] present and [new] valid, the first
    phone equal to [old] leaves the list and the new phone is appended.
    No other outcome exists. The hypothesis says that an identity stands
    for one object; it holds in every state the methods can reach
    ([reachable_consistent]). *)
Theorem C5_edit_phone_all_or_nothing
        (old_phone new_phone : str) (st : RState) :
  heap_consistent (phones (self st)) ->
  (find_phone (self st) old_phone = None ->
   edit_phone old_phone new_phone st
   = (Raise (ValueError (Some "Old phone number not found"%string)), st))
  /\ (forall p,
         find_phone (self st) old_phone = Some p ->
         Phone_check new_phone <> Ok tt ->
         edit_phone old_phone new_phone st
         = (Raise (ValueError (Some "Phone number must be 10 digits"%string)),
            st)
         /\ In p (phones (self st)) /\ Phone_value p = old_phone)
  /\ (forall l1 p l2,
         phones (self st) = l1 ++ p :: l2 -> Phone_value p = old_phone ->
         Forall (fun q => Phone_value q <> old_phone) l1 ->
         Phone_check new_phone = Ok tt ->
         edit_phone old_phone new_phone st
         = (Ok tt,
            mkRState (S (next_oid st))
                     (mkRecord (name (self st))
                               ((l1 ++ l2)
                                  ++ [mkPhone (next_oid st) new_phone])
                               (birthday (self st)))))
  /\ (forall r st',
         edit_phone old_phone new_phone st = (r, st') ->
         (exists e, r = Raise e /\ st' = st)
         \/ (r = Ok tt
             /\ exists l1 p l2,
                 phones (self st) = l1 ++ p :: l2
                 /\ Phone_value p = old_phone
                 /\ Forall (fun q => Phone_value q <> old_phone) l1
                 /\ map Phone_value (phones (self st'))
                    = map Phone_value (l1 ++ l2) ++ [new_phone])).
Proof.
  intros C.
  split; [apply edit_phone_absent|].
  split; [|split; [intros l1 p l2; now apply edit_phone_valid|]].
  - intros p Hp V. split; [now apply edit_phone_invalid with p|].
    apply find_phone_loop_Some in Hp. destruct Hp as (l1 & l2 & E & Ev & _).
    split; [|exact Ev]. rewrite E. apply in_or_app. right. now left.
  - intros r st' E.
    destruct (find_phone (self st) old_phone) as [p|] eqn:Hp.
    + destruct (Phone_check_cases new_phone) as [V|V].
      * right. pose proof Hp as Hp'.
        apply find_phone_loop_Some in Hp'.
        destruct Hp' as (l1 & l2 & El & Ev & F).
        rewrite (edit_phone_valid old_phone new_phone st l1 p l2 C El Ev F V)
          in E.
        inversion E; subst.
        split; [reflexivity|]. exists l1, p, l2.
        repeat split; auto. cbn. now rewrite !map_app.
      * left.
        rewrite (edit_phone_invalid old_phone new_phone st p Hp) in E
          by congruence.
        inversion E; eauto.
    + left. rewrite edit_phone_absent in E by exact Hp. inversion E; eauto.
Qed.

(** The methods of [Record] keep the identities sound, and leave the
    name alone. *)
Lemma Record_init_wf (n : str) (r : PyRecord) (k : nat) :
  Record_init n = Ok r -> RState_wf (mkRState k r).
Proof.
  intros [= <-]. split; cbn; [intros ? ? []|constructor].
Qed.

Lemma add_phone_wf (s : str) (st : RState) (r : Result unit) (st' : RState) :
  RState_wf st -> add_phone s st = (r, st') ->
  RState_wf st' /\ name (self st') = name (self st).
Proof.
  intros [C F] E. unfold add_phone, bind at 1 in E.
  destruct (Phone_check_cases s) as [V|V].
  - rewrite Phone_init_ok in E by exact V. cbn in E. inversion E; subst.
    split; [|reflexivity]. split; cbn.
    + now apply heap_consistent_fresh.
    + apply Forall_app. split.
      * eapply Forall_impl; [|exact F]. cbn. lia.
      * constructor; [cbn; lia|constructor].
  - rewrite Phone_init_raise in E by congruence. inversion E; subst.
    split; [split|]; auto.
Qed.

Lemma find_phone_cases (r : PyRecord) (s : str) :
  (exists l1 p l2,
      phones r = l1 ++ p :: l2 /\ Phone_value p = s
      /\ Forall (fun q => Phone_value q <> s) l1)
  \/ Forall (fun q => Phone_value q <> s) (phones r).
Proof.
  destruct (find_phone r s) as [p|] eqn:E.
  - left. apply find_phone_loop_Some in E.
    destruct E as (l1 & l2 & E). eauto.
  - right. now apply find_phone_loop_None.
Qed.

Lemma remove_phone_wf (s : str) (st : RState) (r : Result unit)
      (st' : RState) :
  RState_wf st -> remove_phone s st = (r, st') ->
  RState_wf st' /\ name (self st') = name (self st).
Proof.
  intros [C F] E.
  destruct (find_phone_cases (self st) s) as [(l1 & p & l2 & El & Ev & Fl)|N].
  - unfold remove_phone, bind at 1, get at 1 in E.
    assert (find_phone (self st) s = Some p) as Hp.
    { apply find_phone_loop_Some. eauto. }
    rewrite Hp in E.
    rewrite (@phones_remove_found st l1 l2 p) in E;
      [|exact El|exact C|now rewrite Ev].
    inversion E; subst. split; [|reflexivity]. split; cbn.
    + rewrite El in C. now apply heap_consistent_remove in C.
    + rewrite El in F. apply Forall_app in F. destruct F as [F1 F2].
      inversion F2. apply Forall_app. auto.
  - unfold remove_phone, bind, get in E.
    apply find_phone_loop_None in N. unfold find_phone in E.
    rewrite N in E. inversion E; subst. split; [split|]; auto.
Qed.

Lemma edit_phone_wf (old_phone new_phone : str) (st : RState)
      (r : Result unit) (st' : RState) :
  RState_wf st -> edit_phone old_phone new_phone st = (r, st') ->
  RState_wf st' /\ name (self st') = name (self st).
Proof.
  intros [C F] E.
  destruct (find_phone_cases (self st) old_phone)
    as [(l1 & p & l2 & El & Ev & Fl)|N].
  - destruct (Phone_check_cases new_phone) as [V|V].
    + rewrite (edit_phone_valid old_phone new_phone st l1 p l2 C El Ev Fl V)
        in E.
      inversion E; subst. split; [|reflexivity].
      rewrite El in C, F. apply Forall_app in F. destruct F as [F1 F2].
      inversion F2 as [|? ? _ F3]; subst.
      assert (F' : Forall (fun q => (oid q < next_oid st)%nat) (l1 ++ l2))
        by (apply Forall_app; auto).
      split; cbn.
      * apply heap_consistent_fresh; [|exact F'].
        now apply heap_consistent_remove in C.
      * apply Forall_app. split.
        -- eapply Forall_impl; [|exact F']. cbn. lia.
        -- constructor; [cbn; lia|constructor].
    + assert (find_phone (self st) old_phone = Some p) as Hp.
      { apply find_phone_loop_Some. eauto. }
      rewrite (edit_phone_invalid old_phone new_phone st p Hp) in E
        by congruence.
      inversion E; subst. split; [split|]; auto.
  - apply find_phone_loop_None in N.
    rewrite edit_phone_absent in E by exact N.
    inversion E; subst. split; [split|]; auto.
Qed.

Lemma add_birthday_wf (b : str) (st : RState) (r : Result unit)
      (st' : RState) :
  RState_wf st -> add_birthday b st = (r, st') ->
  RState_wf st' /\ name (self st') = name (self st).
Proof.
  intros W E. unfold add_birthday, bind, lift, set_birthday in E.
  destruct (Birthday_init b); inversion E; subst; split; auto.
Qed.

(** Whatever methods are called on a new record, in whatever order and
    whether they raise or not, the identities stay sound and the name
    stays the one given to the constructor. *)
Lemma perform_wf (c : call) (st : RState) :
  RState_wf st ->
  RState_wf (snd (perform c st))
  /\ name (self (snd (perform c st))) = name (self st).
Proof.
  intros W. destruct c as [p|p|o n|b]; cbn [perform].
  - destruct (add_phone p st) as [r st'] eqn:E.
    now apply add_phone_wf with p r.
  - destruct (remove_phone p st) as [r st'] eqn:E.
    now apply remove_phone_wf with p r.
  - destruct (edit_phone o n st) as [r st'] eqn:E.
    now apply edit_phone_wf with o n r.
  - destruct (add_birthday b st) as [r st'] eqn:E.
    now apply add_birthday_wf with b r.
Qed.

Lemma perform_all_wf (cs : list call) :
  forall st,
    RState_wf st ->
    RState_wf (perform_all cs st)
    /\ name (self (perform_all cs st)) = name (self st).
Proof.
  induction cs as [|c rest IH]; intros st W; cbn [perform_all].
  - auto.
  - destruct (perform_wf c st W) as [W' N'].
    destruct (IH _ W') as [W'' N'']. split; [exact W''|congruence].
Qed.

Lemma reachable_consistent (n : str) (k : nat) (cs : list call)
      (r : PyRecord) :
  Record_init n = Ok r ->
  heap_consistent (phones (self (perform_all cs (mkRState k r))))
  /\ name (self (perform_all cs (mkRState k r))) = mkName n.
Proof.
  intros H. pose proof (Record_init_wf n r k H) as W.
  destruct (perform_all_wf cs _ W) as [[C _] N].
  split; [exact C|]. rewrite N. now inversion H.
Qed.

End Phones.

(* ===================================================================== *)
(** ** The dict of the address book *)
(* ===================================================================== *)

Section DictFacts.
Variable V : Type.
Implicit Types (d l : dict V) (k : str) (v : V).

Lemma dict_get_None k d : dict_get k d = None <-> ~ In k (dict_keys d).
Proof.
  induction d as [|[k' v'] d IH]; cbn.
  - tauto.
  - destruct (str_eqb k' k) eqn:E.
    + apply str_eqb_eq in E. split; [discriminate|]. tauto.
    + apply str_eqb_neq in E. rewrite IH. tauto.
Qed.

Lemma dict_get_Some k v d :
  dict_get k d = Some v
  <-> exists l1 l2, d = l1 ++ (k, v) :: l2 /\ ~ In k (dict_keys l1).
Proof.
  induction d as [|[k' v'] d IH]; cbn.
  - split; [discriminate|]. intros ([|? ?] & ? & E & _); discriminate E.
  - destruct (str_eqb k' k) eqn:E.
    + apply str_eqb_eq in E. subst k'. split.
      * intros [= <-]. exists [], d. auto.
      * intros ([|[k1 v1] l1] & l2 & El & N).
        -- now inversion El.
        -- inversion El; subst. cbn in N. tauto.
    + apply str_eqb_neq in E. rewrite IH. split.
      * intros (l1 & l2 & -> & N). exists ((k', v') :: l1), l2.
        cbn. split; [reflexivity|]. tauto.
      * intros ([|[k1 v1] l1] & l2 & El & N).
        -- inversion El. contradiction.
        -- inversion El; subst. cbn in N. exists l1, l2.
           split; [reflexivity|tauto].
Qed.

Lemma dict_get_app_absent k l1 l2 :
  ~ In k (dict_keys l1) -> dict_get k (l1 ++ l2) = dict_get k l2.
Proof.
  induction l1 as [|[k' v'] l1 IH]; cbn; [reflexivity|]. intros N.
  destruct (str_eqb k' k) eqn:E.
  - apply str_eqb_eq in E. tauto.
  - apply IH. tauto.
Qed.

Lemma dict_get_skip k k' v l1 l2 :
  k' <> k -> dict_get k' (l1 ++ (k, v) :: l2) = dict_get k' (l1 ++ l2).
Proof.
  intros N. induction l1 as [|[k1 v1] l1 IH]; cbn.
  - assert (str_eqb k k' = false) as ->; [|reflexivity].
    apply str_eqb_neq. congruence.
  - now rewrite IH.
Qed.

Lemma dict_setitem_absent k v d :
  ~ In k (dict_keys d) -> dict_setitem k v d = d ++ [(k, v)].
Proof.
  induction d as [|[k' v'] d IH]; cbn; [reflexivity|]. intros N.
  destruct (str_eqb k' k) eqn:E.
  - apply str_eqb_eq in E. tauto.
  - rewrite IH; tauto.
Qed.

Lemma dict_setitem_present k v v0 l1 l2 :
  ~ In k (dict_keys l1) ->
  dict_setitem k v (l1 ++ (k, v0) :: l2) = l1 ++ (k, v) :: l2.
Proof.
  induction l1 as [|[k' v'] l1 IH]; cbn; intros N.
  - now rewrite str_eqb_refl.
  - destruct (str_eqb k' k) eqn:E.
    + apply str_eqb_eq in E. tauto.
    + rewrite IH; tauto.
Qed.

Lemma dict_delitem_present k v0 l1 l2 :
  ~ In k (dict_keys l1) ->
  dict_delitem k (l1 ++ (k, v0) :: l2) = Ok (l1 ++ l2).
Proof.
  induction l1 as [|[k' v'] l1 IH]; cbn; intros N.
  - now rewrite str_eqb_refl.
  - destruct (str_eqb k' k) eqn:E.
    + apply str_eqb_eq in E. tauto.
    + rewrite IH; tauto.
Qed.

Lemma dict_keys_app l1 l2 :
  dict_keys (l1 ++ l2) = dict_keys l1 ++ dict_keys l2.
Proof. apply map_app. Qed.

Lemma dict_wf_remove k v l1 l2 :
  dict_wf (l1 ++ (k, v) :: l2) ->
  dict_wf (l1 ++ l2) /\ ~ In k (dict_keys (l1 ++ l2)).
Proof.
  unfold dict_wf. rewrite !dict_keys_app. cbn. intros H.
  split; [now apply NoDup_remove_1 in H|now apply NoDup_remove_2 in H].
Qed.

Lemma dict_wf_replace k v v' l1 l2 :
  dict_wf (l1 ++ (k, v) :: l2) -> dict_wf (l1 ++ (k, v') :: l2).
Proof. unfold dict_wf. now rewrite !dict_keys_app. Qed.

Lemma dict_wf_append k v d :
  dict_wf d -> ~ In k (dict_keys d) -> dict_wf (d ++ [(k, v)]).
Proof.
  unfold dict_wf. rewrite dict_keys_app. cbn. intros W N.
  apply NoDup_app; [exact W|repeat constructor; auto|].
  intros x Hx [<-|[]]. contradiction.
Qed.
End DictFacts.

(* ===================================================================== *)
(** ** add_record, find, delete *)
(* ===================================================================== *)

Lemma book_inv_empty : book_inv book0.
Proof. split; constructor. Qed.

Lemma book_inv_names (data : AddressBook) :
  book_inv data ->
  NoDup (map (fun r => Name_value (name r)) (dict_values data)).
Proof.
  intros [W F]. unfold dict_wf, dict_keys in W. unfold dict_values.
  rewrite map_map.
  erewrite map_ext_in; [exact W|].
  intros kv Hkv. rewrite Forall_forall in F. symmetry. now apply F.
Qed.

Lemma find_cases (data : AddressBook) (n : str) :
  (exists r l1 l2,
      find data n = Some r /\ data = l1 ++ (n, r) :: l2
      /\ ~ In n (dict_keys l1))
  \/ (find data n = None /\ ~ In n (dict_keys data)).
Proof.
  unfold find. destruct (dict_get n data) as [r|] eqn:E.
  - left. apply dict_get_Some in E. destruct E as (l1 & l2 & E & N).
    exists r, l1, l2. auto.
  - right. split; [reflexivity|]. now apply dict_get_None.
Qed.

Lemma delete_present (data l1 l2 : AddressBook) (n : str) (r : PyRecord) :
  data = l1 ++ (n, r) :: l2 -> ~ In n (dict_keys l1) ->
  delete n data = (Ok tt, l1 ++ l2).
Proof.
  intros -> N. unfold delete, dict_contains.
  assert (dict_get n (l1 ++ (n, r) :: l2) = Some r) as ->.
  { apply dict_get_Some. eauto. }
  now rewrite dict_delitem_present.
Qed.

Lemma delete_absent (data : AddressBook) (n : str) :
  find data n = None -> delete n data = (Ok tt, data).
Proof. unfold find, delete, dict_contains. now intros ->. Qed.

Lemma book_inv_delete (data data' : AddressBook) (n : str) (res : Result unit) :
  book_inv data -> delete n data = (res, data') ->
  res = Ok tt /\ book_inv data'.
Proof.
  intros [W F] E.
  destruct (find_cases data n) as [(r & l1 & l2 & _ & El & N)|[A _]].
  - rewrite (@delete_present data l1 l2 n r El N) in E. inversion E; subst.
    split; [reflexivity|]. split.
    + now apply dict_wf_remove in W.
    + apply Forall_app in F. destruct F as [F1 F2]. inversion F2.
      apply Forall_app. auto.
  - rewrite delete_absent in E by exact A. inversion E; subst.
    split; [reflexivity|]. now split.
Qed.

(** C6: the address book holds at most one record per name, and the
    operations keep it so. [add_record(r)] never raises; afterwards
    [find] gives [r] under the name of [r] and what it gave before under
    every other name; when the name was absent the entry is new, at the
    end; when the name was present the entry is overwritten where it
    stood, the record that was there being gone with its phones and its
    birthday. [delete] keeps the invariant too, and the empty book has
    it. *)
Theorem C6_one_record_per_name (data : AddressBook) (r : PyRecord) :
  book_inv data ->
  exists data',
    add_record r data = (Ok tt, data')
    /\ book_inv data'
    /\ NoDup (map (fun x => Name_value (name x)) (dict_values data'))
    /\ find data' (Name_value (name r)) = Some r
    /\ (forall k, k <> Name_value (name r) -> find data' k = find data k)
    /\ (find data (Name_value (name r)) = None ->
        data' = data ++ [(Name_value (name r), r)])
    /\ (forall old,
           find data (Name_value (name r)) = Some old ->
           exists l1 l2,
             data = l1 ++ (Name_value (name r), old) :: l2
             /\ data' = l1 ++ (Name_value (name r), r) :: l2)
    /\ (forall k res data'',
           delete k data' = (res, data'') -> res = Ok tt /\ book_inv data'')
    /\ book_inv book0.
Proof.
  intros Inv. pose proof Inv as [W F].
  set (n := Name_value (name r)).
  assert (Core : exists data',
             add_record r data = (Ok tt, data')
             /\ book_inv data'
             /\ find data' n = Some r
             /\ (forall k, k <> n -> find data' k = find data k)
             /\ (find data n = None -> data' = data ++ [(n, r)])
             /\ (forall old, find data n = Some old ->
                  exists l1 l2, data = l1 ++ (n, old) :: l2
                                /\ data' = l1 ++ (n, r) :: l2)).
  { unfold add_record. fold n.
    destruct (find_cases data n) as [(old & l1 & l2 & Hf & El & N)|[A N]].
    - exists (l1 ++ (n, r) :: l2). subst data.
      rewrite dict_setitem_present by exact N.
      split; [reflexivity|]. split; [|split; [|split; [|split]]].
      + split; [now apply dict_wf_replace with old|].
        apply Forall_app in F. destruct F as [F1 F2]. inversion F2.
        apply Forall_app. split; [exact F1|]. constructor; auto.
      + unfold find. apply dict_get_Some. eauto.
      + intros k Hk. unfold find. now rewrite !dict_get_skip.
      + rewrite Hf. discriminate.
      + intros old' Ho. rewrite Hf in Ho. inversion Ho; subst. eauto.
    - exists (data ++ [(n, r)]).
      rewrite dict_setitem_absent by exact N.
      split; [reflexivity|]. split; [|split; [|split; [|split]]].
      + split; [now apply dict_wf_append|].
        apply Forall_app. split; [exact F|]. now repeat constructor.
      + unfold find. apply dict_get_Some. exists data, []. auto.
      + intros k Hk. unfold find.
        rewrite dict_get_skip by exact Hk. now rewrite app_nil_r.
      + reflexivity.
      + intros old Ho. rewrite A in Ho. discriminate. }
  destruct Core as (data' & E & I & Fn & Fo & Ab & Pr).
  exists data'. repeat (split; [assumption|]).
  split; [now apply book_inv_names|].
  repeat (split; [assumption|]).
  split; [|apply book_inv_empty].
  intros k res data'' Ed. now apply book_inv_delete with data' k.
Qed.

(** C7: when the name is present, [delete(name)] takes its entry out and
    leaves the others in their order; [find(name)] then gives [None], the
    other names are found as before, and the text of the book is made of
    the remaining records only. When the name is absent, [delete(name)]
    raises nothing and the book is as before. *)
Theorem C7_delete (data : AddressBook) (n : str) :
  dict_wf data ->
  (forall r,
      find data n = Some r ->
      exists l1 l2,
        data = l1 ++ (n, r) :: l2
        /\ delete n data = (Ok tt, l1 ++ l2)
        /\ find (l1 ++ l2) n = None
        /\ ~ In n (dict_keys (l1 ++ l2))
        /\ (forall k, k <> n -> find (l1 ++ l2) k = find data k)
        /\ AddressBook_str (l1 ++ l2)
           = join (lit (String (ascii_of_nat 10) EmptyString))
                  (map Record_str (dict_values l1 ++ dict_values l2)))
  /\ (find data n = None -> delete n data = (Ok tt, data)).
Proof.
  intros W. split.
  - intros r Hr.
    destruct (find_cases data n) as [(r' & l1 & l2 & Hf & El & N)|[A _]];
      [|congruence].
    assert (r' = r) by congruence. subst r'.
    exists l1, l2. split; [exact El|].
    split; [now apply delete_present with r|].
    subst data. apply dict_wf_remove in W. destruct W as [W' N'].
    split; [now apply dict_get_None|]. split; [exact N'|].
    split.
    + intros k Hk. unfold find. now rewrite dict_get_skip.
    + unfold AddressBook_str, dict_values. now rewrite map_app.
  - apply delete_absent.
Qed.

(* ===================================================================== *)
(** ** The calendar *)
(* ===================================================================== *)

Lemma month_day_all (leap : bool) :
  forallb (fun k => month_day_ok leap (Z.of_nat k))
          (seq 0 (if leap then 366 else 365)%nat) = true.
Proof. destruct leap; vm_compute; reflexivity. Qed.

Lemma month_day_spec (leap : bool) (n : Z) :
  0 <= n < 365 + (if leap then 1 else 0) -> month_day_ok leap n = true.
Proof.
  intros H. pose proof (month_day_all leap) as A.
  rewrite forallb_forall in A. specialize (A (Z.to_nat n)).
  rewrite Z2Nat.id in A by lia. apply A.
  apply in_seq. destruct leap; lia.
Qed.

(** [_ord2ymd] with its cycles named. *)
Lemma ord2ymd_eq (n : Z) :
  _ord2ymd n =
    let n0 := n - 1 in
    let n400 := n0 / 146097 in
    let r1 := n0 mod 146097 in
    let n100 := r1 / 36524 in
    let r2 := r1 mod 36524 in
    let n4 := r2 / 1461 in
    let r3 := r2 mod 1461 in
    let n1 := r3 / 365 in
    let r4 := r3 mod 365 in
    let y := n400 * 400 + 1 + (n100 * 100 + n4 * 4 + n1) in
    if (n1 =? 4) || (n100 =? 4) then (y - 1, 12, 31)
    else
      let '(m, d) :=
        month_day ((n1 =? 3) && (negb (n4 =? 24) || (n100 =? 3))) r4 in
      (y, m, d).
Proof.
  unfold _ord2ymd, month_day, _DI400Y, _DI100Y, _DI4Y. cbv zeta.
  destruct ((_ =? 4) || (_ =? 4)); [reflexivity|].
  destruct (_ <? _); reflexivity.
Qed.

Ltac split_eqb :=
  repeat match goal with
         | |- context [Z.eqb ?a ?b] => destruct (Z.eqb_spec a b)
         end;
  cbn [andb orb negb].

Ltac div_lia := Z.div_mod_to_equations; lia.

(** Evaluate the month tables and the tests on literals, nothing else. *)
Ltac tables :=
  cbn [_DAYS_IN_MONTH _DAYS_BEFORE_MONTH Z.eqb Z.ltb Z.leb Z.compare
       Pos.eqb Pos.compare Pos.compare_cont andb orb negb] in *.

(** [_ord2ymd] inverts [_ymd2ord], and gives a day that exists. *)
Lemma ord2ymd_spec (n : Z) :
  1 <= n ->
  let '(y, m, d) := _ord2ymd n in
  1 <= y /\ 1 <= m <= 12 /\ 1 <= d <= _days_in_month y m
  /\ _ymd2ord y m d = n.
Proof.
  intros Hn. rewrite ord2ymd_eq. cbv zeta.
  set (n400 := (n - 1) / 146097). set (r1 := (n - 1) mod 146097).
  set (n100 := r1 / 36524). set (r2 := r1 mod 36524).
  set (n4 := r2 / 1461). set (r3 := r2 mod 1461).
  set (n1 := r3 / 365). set (r4 := r3 mod 365).
  assert (E0 : n - 1 = 146097 * n400 + r1 /\ 0 <= r1 < 146097 /\ 0 <= n400)
    by (subst n400 r1; div_lia).
  assert (E1 : r1 = 36524 * n100 + r2 /\ 0 <= r2 < 36524 /\ 0 <= n100 <= 4)
    by (subst n100 r2; div_lia).
  assert (E2 : r2 = 1461 * n4 + r3 /\ 0 <= r3 < 1461 /\ 0 <= n4 <= 24)
    by (subst n4 r3; div_lia).
  assert (E3 : r3 = 365 * n1 + r4 /\ 0 <= r4 < 365 /\ 0 <= n1 <= 4)
    by (subst n1 r4; div_lia).
  clearbody n400 r1 n100 r2 n4 r3 n1 r4.
  destruct E0 as (E0 & B0 & P0), E1 as (E1 & B1 & P1),
           E2 as (E2 & B2 & P2), E3 as (E3 & B3 & P3).
  destruct ((n1 =? 4) || (n100 =? 4)) eqn:C.
  - unfold _ymd2ord, _days_in_month, _days_before_month, _days_before_year,
      _is_leap. simpl.
    apply orb_true_iff in C. rewrite !Z.eqb_eq in C.
    split; [lia|]. split; [lia|]. split; [lia|].
    destruct C as [C|C].
    + subst n1. assert (n4 <= 23) by lia. assert (n100 <= 3) by lia.
      split_eqb; div_lia.
    + subst n100. split_eqb; div_lia.
  - apply orb_false_iff in C. rewrite !Z.eqb_neq in C.
    set (leap := (n1 =? 3) && (negb (n4 =? 24) || (n100 =? 3))).
    set (y := n400 * 400 + 1 + (n100 * 100 + n4 * 4 + n1)).
    assert (L : _is_leap y = leap).
    { unfold _is_leap, leap, y. split_eqb; try reflexivity; div_lia. }
    assert (D : _days_before_year y
                = 146097 * n400 + 36524 * n100 + 1461 * n4 + 365 * n1).
    { unfold _days_before_year, y. div_lia. }
    assert (R : 0 <= r4 < 365 + (if leap then 1 else 0)).
    { destruct leap; lia. }
    pose proof (month_day_spec leap r4 R) as MD.
    unfold month_day_ok in MD.
    destruct (month_day leap r4) as [m d].
    rewrite !andb_true_iff in MD. rewrite !Z.leb_le, Z.eqb_eq in MD.
    destruct MD as ((((M1 & M2) & D1) & D2) & EQ).
    unfold _ymd2ord, _days_in_month, _days_before_month. rewrite D, L.
    split; [subst y; lia|]. split; [lia|]. split.
    + split; [lia|].
      destruct (Z.eqb_spec m 2) as [->|]; destruct leap; cbn in *; lia.
    + lia.
Qed.

Lemma days_before_year_mono (a b : Z) :
  a <= b -> _days_before_year a <= _days_before_year b.
Proof. unfold _days_before_year. intros H. div_lia. Qed.

Lemma month_cases (m : Z) :
  1 <= m <= 12 ->
  m = 1 \/ m = 2 \/ m = 3 \/ m = 4 \/ m = 5 \/ m = 6 \/ m = 7 \/ m = 8
  \/ m = 9 \/ m = 10 \/ m = 11 \/ m = 12.
Proof. lia. Qed.

Lemma days_in_month_bounds (y m : Z) :
  1 <= m <= 12 -> 28 <= _days_in_month y m <= 31.
Proof.
  intros H. unfold _days_in_month.
  destruct (month_cases m H) as [->|[->|[->|[->|[->|[->|[->|[->|[->|[->|[->| ->]]]]]]]]]]];
    destruct (_is_leap y); tables; lia.
Qed.

(** The days of a year before a given day, that day included, are at
    most 365, or 366 in a leap year. *)
Lemma day_of_year_bounds (y m d : Z) :
  1 <= m <= 12 -> 1 <= d <= _days_in_month y m ->
  1 <= _days_before_month y m + d <= 365 + (if _is_leap y then 1 else 0).
Proof.
  intros Hm. unfold _days_in_month, _days_before_month.
  destruct (month_cases m Hm) as [->|[->|[->|[->|[->|[->|[->|[->|[->|[->|[->| ->]]]]]]]]]]];
    destruct (_is_leap y); tables; lia.
Qed.

Lemma year_length (y : Z) :
  _days_before_year (y + 1)
  = _days_before_year y + 365 + (if _is_leap y then 1 else 0).
Proof.
  unfold _days_before_year, _is_leap. split_eqb; div_lia.
Qed.

Lemma toordinal_bounds (d : date) :
  valid_date d -> 1 <= toordinal d <= _MAXORDINAL.
Proof.
  intros (Hy & Hm & Hd). unfold toordinal, _ymd2ord, _MAXORDINAL.
  unfold MINYEAR, MAXYEAR in Hy.
  pose proof (day_of_year_bounds (year d) (month d) (day d) Hm Hd) as B.
  pose proof (year_length (year d)) as L.
  pose proof (days_before_year_mono 1 (year d) ltac:(lia)) as L1.
  pose proof (days_before_year_mono (year d + 1) 10000 ltac:(lia)) as L2.
  change (_days_before_year 1) with 0 in L1.
  change (_days_before_year 10000) with 3652059 in L2.
  destruct (_is_leap (year d)); lia.
Qed.

Lemma fromordinal_spec (n : Z) :
  1 <= n <= _MAXORDINAL ->
  valid_date (fromordinal n) /\ toordinal (fromordinal n) = n.
Proof.
  intros [Lo Hi]. pose proof (ord2ymd_spec n Lo) as S.
  unfold fromordinal, toordinal, valid_date.
  destruct (_ord2ymd n) as [[y m] d]. cbn.
  destruct S as (Y & Mo & D & E). repeat split; try tauto; try lia.
  unfold MAXYEAR.
  destruct (Z_le_gt_dec y 9999) as [H|H]; [exact H|exfalso].
  pose proof (days_before_year_mono 10000 y ltac:(lia)) as L.
  change (_days_before_year 10000) with 3652059 in L.
  pose proof (day_of_year_bounds y m d Mo D).
  unfold _ymd2ord, _MAXORDINAL in *. lia.
Qed.

Lemma weekday_range (d : date) : 0 <= weekday d <= 6.
Proof. unfold weekday. div_lia. Qed.

Lemma date_new_Ok (y m d : Z) (dt : date) :
  date_new y m d = Ok dt <-> dt = mkdate y m d /\ valid_date dt.
Proof.
  unfold date_new, _check_date_fields, valid_date, rbind.
  destruct (Z.leb_spec MINYEAR y), (Z.leb_spec y MAXYEAR); cbn [andb negb];
    try (split; [discriminate|intros [-> ?]; cbn in *; lia]).
  destruct (Z.leb_spec 1 m), (Z.leb_spec m 12); cbn [andb negb];
    try (split; [discriminate|intros [-> ?]; cbn in *; lia]).
  destruct (Z.leb_spec 1 d), (Z.leb_spec d (_days_in_month y m));
    cbn [andb negb];
    try (split; [discriminate|intros [-> ?]; cbn in *; lia]).
  split.
  - intros [= <-]. cbn. auto.
  - now intros [-> _].
Qed.

Lemma date_new_raises (y m d : Z) (e : exn) :
  date_new y m d = Raise e -> e = ValueError None.
Proof.
  unfold date_new, _check_date_fields, rbind.
  repeat match goal with
         | |- context [if ?c then _ else _] => destruct c
         end; congruence.
Qed.

(** The shift of a Saturday or a Sunday to the Monday after never leaves
    the calendar: its last day, 31.12.9999, is a Friday. *)
Lemma add_days_weekend (d : date) :
  valid_date d -> 5 <= weekday d ->
  exists c,
    add_days d (7 - weekday d) = Ok c
    /\ valid_date c
    /\ toordinal c = toordinal d + (7 - weekday d)
    /\ weekday c = 0.
Proof.
  intros V W. pose proof (toordinal_bounds d V) as B.
  pose proof (weekday_range d) as R.
  unfold add_days.
  assert (O : 1 <= toordinal d + (7 - weekday d) <= _MAXORDINAL).
  { unfold weekday, _MAXORDINAL in *. div_lia. }
  assert ((0 <? toordinal d + (7 - weekday d))
          && (toordinal d + (7 - weekday d) <=? _MAXORDINAL) = true) as ->.
  { apply andb_true_iff. rewrite Z.ltb_lt, Z.leb_le. lia. }
  destruct (fromordinal_spec _ O) as [Vc Ec].
  eexists. split; [reflexivity|]. split; [exact Vc|]. split; [exact Ec|].
  unfold weekday at 1. rewrite Ec. unfold weekday in *. div_lia.
Qed.

(* ===================================================================== *)
(** ** What strptime reads *)
(* ===================================================================== *)

Ltac invert_matches :=
  repeat match goal with
         | H : matches (Alt _ _) _ |- _ => inversion H; clear H; subst
         | H : matches (Cat _ _) _ |- _ => inversion H; clear H; subst
         | H : matches (Chr _) _ |- _ => inversion H; clear H; subst
         | H : matches (Rng _ _) _ |- _ => inversion H; clear H; subst
         | H : matches Dig _ |- _ => inversion H; clear H; subst
         end.

Section Reading.
Context {U : UnicodeData}.

Lemma one_spec (p : char -> bool) (s a t : str) :
  In (a, t) (one p s) <-> exists c, a = [c] /\ s = c :: t /\ p c = true.
Proof.
  unfold one. destruct s as [|c s'].
  - split; [intros []|]. intros (c & _ & E & _). discriminate E.
  - destruct (p c) eqn:P; cbn.
    + split.
      * intros [[= <- <-]|[]]. eauto.
      * intros (c' & -> & [= <- <-] & _). now left.
    + split; [intros []|]. intros (c' & _ & [= <- _] & P'). congruence.
Qed.

(** The matcher finds exactly the prefixes in the language. *)
Lemma rx_spec (r : regex) (s a t : str) :
  In (a, t) (rx r s) <-> s = a ++ t /\ matches r a.
Proof.
  revert s a t. induction r as [c|lo hi| |r1 IH1 r2 IH2|r1 IH1 r2 IH2];
    intros s a t; cbn [rx].
  - rewrite one_spec. split.
    + intros (x & -> & -> & E). apply N.eqb_eq in E. subst x.
      split; [reflexivity|constructor].
    + intros [-> M]. inversion M; subst. exists c.
      repeat split. apply N.eqb_refl.
  - rewrite one_spec. split.
    + intros (x & -> & -> & E). apply andb_true_iff in E.
      rewrite !N.leb_le in E. split; [reflexivity|now constructor].
    + intros [-> M]. inversion M; subst. exists x. repeat split.
      apply andb_true_iff. now rewrite !N.leb_le.
  - rewrite one_spec. split.
    + intros (x & -> & -> & E). split; [reflexivity|now constructor].
    + intros [-> M]. inversion M; subst. exists x. now repeat split.
  - rewrite in_flat_map. split.
    + intros ([a1 t1] & H1 & H2). apply in_map_iff in H2.
      destruct H2 as ([a2 t2] & [= <- <-] & H2).
      apply IH1 in H1. apply IH2 in H2.
      destruct H1 as [-> M1], H2 as [-> M2].
      split; [now rewrite app_assoc|now constructor].
    + intros [-> M]. inversion M; subst.
      exists (a0, b ++ t). split.
      * apply IH1. split; [now rewrite app_assoc|assumption].
      * apply in_map_iff. exists (b, t). split; [reflexivity|].
        apply IH2. now split.
  - rewrite in_app_iff, IH1, IH2. split.
    + intros [[-> M]|[-> M]]; split; auto using m_alt_l, m_alt_r.
    + intros [-> M]. inversion M; subst; auto.
Qed.

Lemma avoids_spec (c : char) (r : regex) (a : str) :
  avoids c r = true -> matches r a -> ~ In c a.
Proof.
  intros A M. induction M; cbn [avoids] in A;
    try (apply andb_true_iff in A; destruct A as [A1 A2]).
  - apply negb_true_iff, N.eqb_neq in A. intros [->|[]]. congruence.
  - apply negb_true_iff in A. intros [->|[]].
    rewrite (proj2 (andb_true_iff _ _)) in A; [discriminate|].
    now rewrite !N.leb_le.
  - apply negb_true_iff in A. intros [->|[]]. congruence.
  - rewrite in_app_iff. intros [?|?]; [now apply IHM1|now apply IHM2].
  - now apply IHM.
  - now apply IHM.
Qed.

(** A text cut at its first [c] is cut in one way. *)
Lemma first_cut (c : char) (a a' x x' : str) :
  ~ In c a -> ~ In c a' -> a ++ c :: x = a' ++ c :: x' ->
  a = a' /\ x = x'.
Proof.
  revert a'. induction a as [|h a IH]; intros [|h' a'] Na Na' E;
    cbn in *.
  - now inversion E.
  - inversion E; subst. tauto.
  - inversion E; subst. tauto.
  - inversion E; subst. destruct (IH a') as [-> ->]; auto.
Qed.

Lemma re_Y_length (Y : str) : matches re_Y Y -> List.length Y = 4%nat.
Proof.
  intros M. unfold re_Y in M.
  repeat match goal with
         | H : matches (Cat _ _) _ |- _ => inversion H; clear H; subst
         | H : matches Dig _ |- _ => inversion H; clear H; subst
         end.
  reflexivity.
Qed.

Lemma re_d_no_dot (d : str) : matches re_d d -> ~ In dot d.
Proof. apply avoids_spec. reflexivity. Qed.

Lemma re_m_no_dot (m : str) : matches re_m m -> ~ In dot m.
Proof. apply avoids_spec. reflexivity. Qed.

Lemma all_matches_spec (s d m Y rest : str) :
  In (d, m, Y, rest) (all_matches s)
  <-> s = d ++ dot :: m ++ dot :: Y ++ rest
      /\ matches re_d d /\ matches re_m m /\ matches re_Y Y.
Proof.
  unfold all_matches. split.
  - intros H.
    apply in_flat_map in H. destruct H as ([d' s1] & H1 & H).
    apply in_flat_map in H. destruct H as ([x1 s2] & H2 & H).
    apply in_flat_map in H. destruct H as ([m' s3] & H3 & H).
    apply in_flat_map in H. destruct H as ([x2 s4] & H4 & H).
    apply in_map_iff in H. destruct H as ([Y' s5] & [= <- <- <- <-] & H5).
    apply rx_spec in H1, H2, H3, H4, H5.
    destruct H1 as [-> M1], H2 as [-> M2], H3 as [-> M3], H4 as [-> M4],
             H5 as [-> M5].
    inversion M2; subst. inversion M4; subst. cbn. auto.
  - intros (-> & M1 & M2 & M3).
    apply in_flat_map. exists (d, dot :: m ++ dot :: Y ++ rest).
    split; [apply rx_spec; auto|].
    apply in_flat_map. exists ([dot], m ++ dot :: Y ++ rest).
    split; [apply rx_spec; split; [reflexivity|constructor]|].
    apply in_flat_map. exists (m, dot :: Y ++ rest).
    split; [apply rx_spec; auto|].
    apply in_flat_map. exists ([dot], Y ++ rest).
    split; [apply rx_spec; split; [reflexivity|constructor]|].
    apply in_map_iff. exists (Y, rest). split; [reflexivity|].
    apply rx_spec; auto.
Qed.

(** The pattern matches a text in at most one way: the alternatives of
    the matcher never disagree. *)
Lemma all_matches_unique (s : str) (x y : str * str * str * str) :
  In x (all_matches s) -> In y (all_matches s) -> x = y.
Proof.
  destruct x as [[[d m] Y] rest], y as [[[d' m'] Y'] rest'].
  rewrite !all_matches_spec.
  intros (E & Md & Mm & MY) (E' & Md' & Mm' & MY').
  rewrite E in E'.
  destruct (first_cut dot _ _ _ _ (re_d_no_dot _ Md) (re_d_no_dot _ Md') E')
    as [-> E2].
  destruct (first_cut dot _ _ _ _ (re_m_no_dot _ Mm) (re_m_no_dot _ Mm') E2)
    as [-> E3].
  pose proof (re_Y_length _ MY) as L. pose proof (re_Y_length _ MY') as L'.
  assert (Y = Y' /\ rest = rest') as [-> ->]; [|reflexivity].
  destruct Y as [|a1 [|a2 [|a3 [|a4 [|]]]]]; try discriminate L.
  destruct Y' as [|b1 [|b2 [|b3 [|b4 [|]]]]]; try discriminate L'.
  cbn in E3. now inversion E3.
Qed.

Lemma format_regex_match_spec (s : str) (x : str * str * str * str) :
  format_regex_match s = Some x <-> In x (all_matches s).
Proof.
  unfold format_regex_match.
  destruct (all_matches s) as [|y l] eqn:E; cbn [hd_error].
  - split; [discriminate|intros []].
  - split.
    + intros [= ->]. now left.
    + intros H. f_equal. apply all_matches_unique with s;
        rewrite E; [now left|exact H].
Qed.
Lemma m_two (r1 r2 : regex) (a b : char) :
  matches r1 [a] -> matches r2 [b] -> matches (Cat r1 r2) [a; b].
Proof. intros. now apply (@m_cat _ r1 r2 [a] [b]). Qed.

(** The texts of a day, of a month and of a year, spelled out. *)
Lemma re_d_forms (d : str) :
  matches re_d d
  <-> (exists c, d = [c3; c] /\ (c0 <= c <= c1)%N)
      \/ (exists a x, d = [a; x] /\ (c1 <= a <= c2)%N /\ is_decimal x = true)
      \/ (exists c, d = [c0; c] /\ (c1 <= c <= c9)%N)
      \/ (exists c, d = [c] /\ (c1 <= c <= c9)%N)
      \/ (exists c, d = [blank; c] /\ (c1 <= c <= c9)%N).
Proof.
  unfold re_d. split.
  - intros M. invert_matches; cbn [app]; eauto 10.
  - intros [(c & -> & H)|[(a & x & -> & H & D)|[(c & -> & H)|[(c & -> & H)|(c & -> & H)]]]].
    + apply m_alt_l, m_two; now constructor.
    + apply m_alt_r, m_alt_l, m_two; now constructor.
    + apply m_alt_r, m_alt_r, m_alt_l, m_two; now constructor.
    + apply m_alt_r, m_alt_r, m_alt_r, m_alt_l. now constructor.
    + apply m_alt_r, m_alt_r, m_alt_r, m_alt_r, m_two; now constructor.
Qed.

Lemma re_m_forms (m : str) :
  matches re_m m
  <-> (exists c, m = [c1; c] /\ (c0 <= c <= c2)%N)
      \/ (exists c, m = [c0; c] /\ (c1 <= c <= c9)%N)
      \/ (exists c, m = [c] /\ (c1 <= c <= c9)%N).
Proof.
  unfold re_m. split.
  - intros M. invert_matches; cbn [app]; eauto 10.
  - intros [(c & -> & H)|[(c & -> & H)|(c & -> & H)]].
    + apply m_alt_l, m_two; now constructor.
    + apply m_alt_r, m_alt_l, m_two; now constructor.
    + apply m_alt_r, m_alt_r. now constructor.
Qed.

Lemma re_Y_forms (Y : str) :
  matches re_Y Y
  <-> exists a b c d,
      Y = [a; b; c; d]
      /\ Forall (fun x => is_decimal x = true) [a; b; c; d].
Proof.
  unfold re_Y. split.
  - intros M. invert_matches. cbn [app]. eauto 10.
  - intros (a & b & c & d & -> & F).
    inversion F as [|? ? Ha F1]; subst. inversion F1 as [|? ? Hb F2]; subst.
    inversion F2 as [|? ? Hc F3]; subst. inversion F3 as [|? ? Hd F4]; subst.
    apply (@m_cat _ Dig _ [a] [b; c; d]); [now constructor|].
    apply (@m_cat _ Dig _ [b] [c; d]); [now constructor|].
    apply m_two; now constructor.
Qed.

End Reading.

Section Parsing.
Context {U : UnicodeData}.

(** [strptime] returns a date exactly for the texts that read as one,
    and the date is the one read. *)
Lemma strptime_spec (s : str) (dt : date) :
  strptime_dmY s = Ok dt <-> reads_as s dt.
Proof.
  unfold strptime_dmY, reads_as. split.
  - destruct (format_regex_match s) as [[[[d m] Y] rest]|] eqn:E;
      [|discriminate].
    destruct rest; [|discriminate].
    apply format_regex_match_spec, all_matches_spec in E.
    destruct E as (E & Md & Mm & MY). rewrite app_nil_r in E.
    unfold int_or_raise, rbind.
    destruct (int Y) as [y|] eqn:Iy; [|discriminate].
    destruct (int m) as [mo|] eqn:Im; [|discriminate].
    destruct (int d) as [da|] eqn:Id; [|discriminate].
    intros H. apply date_new_Ok in H. destruct H as [-> V].
    exists d, m, Y. cbn. auto 10.
  - intros (d & m & Y & E & Md & Mm & MY & Iy & Im & Id & V).
    assert (format_regex_match s = Some (d, m, Y, [])) as ->.
    { apply format_regex_match_spec, all_matches_spec.
      rewrite app_nil_r. auto. }
    unfold int_or_raise, rbind. rewrite Iy, Im, Id.
    apply date_new_Ok. split; [now destruct dt|exact V].
Qed.

Lemma strptime_valid (s : str) (dt : date) :
  strptime_dmY s = Ok dt -> valid_date dt.
Proof.
  intros H. apply strptime_spec in H.
  destruct H as (d & m & Y & H). tauto.
Qed.

(** Whatever [strptime] raises is a [ValueError]. *)
Lemma strptime_raises (s : str) (e : exn) :
  strptime_dmY s = Raise e -> e = ValueError None.
Proof.
  unfold strptime_dmY, int_or_raise, rbind.
  destruct (format_regex_match s) as [[[[d m] Y] rest]|]; [|congruence].
  destruct rest; [|congruence].
  destruct (int Y); [|congruence].
  destruct (int m); [|congruence].
  destruct (int d); [|congruence].
  apply date_new_raises.
Qed.

Lemma Birthday_init_spec (s : str) :
  (forall b, Birthday_init s = Ok b
     <-> b = mkBirthday s /\ exists dt, reads_as s dt)
  /\ ((forall dt, ~ reads_as s dt) ->
      Birthday_init s
      = Raise (ValueError
                 (Some "Invalid date. Ensure the date is valid and in DD.MM.YYYY format"%string))).
Proof.
  unfold Birthday_init, except_ValueError, rbind.
  destruct (strptime_dmY s) as [dt|e] eqn:E.
  - apply strptime_spec in E. split.
    + intros b. split.
      * intros [= <-]. eauto.
      * now intros [-> _].
    + intros H. now elim (H dt).
  - pose proof (strptime_raises s e E) as ->. split.
    + intros b. split; [discriminate|].
      intros [_ [dt H]]. apply strptime_spec in H. congruence.
    + reflexivity.
Qed.
End Parsing.

(* ===================================================================== *)
(** ** strftime and strptime *)
(* ===================================================================== *)

Section RoundTrip.
Context {U : UnicodeData}.

Lemma digit_char_decimal (k : Z) :
  0 <= k <= 9 -> decimal_value (digit_char k) = Some k.
Proof.
  intros H. unfold decimal_value, digit_char, ascii_digit.
  assert ((48 <=? Z.to_N (48 + k))%N && (Z.to_N (48 + k) <=? 57)%N = true)
    as ->.
  { apply andb_true_iff. rewrite !N.leb_le. lia. }
  f_equal. lia.
Qed.

Lemma digit_char_ascii (k : Z) :
  0 <= k <= 9 -> ascii_digit (digit_char k) = true.
Proof.
  intros H. unfold digit_char, ascii_digit.
  apply andb_true_iff. rewrite !N.leb_le. lia.
Qed.

Lemma digit_char_not_blank (k : Z) :
  0 <= k <= 9 -> (digit_char k =? 32)%N = false.
Proof. intros H. apply N.eqb_neq. unfold digit_char. lia. Qed.

Lemma pad4_year (y : Z) :
  1 <= y <= 9999 -> matches re_Y (pad4 y) /\ int (pad4 y) = Some y.
Proof.
  intros H. unfold pad4.
  assert (D1 : 0 <= y / 1000 mod 10 <= 9) by div_lia.
  assert (D2 : 0 <= y / 100 mod 10 <= 9) by div_lia.
  assert (D3 : 0 <= y / 10 mod 10 <= 9) by div_lia.
  assert (D4 : 0 <= y mod 10 <= 9) by div_lia.
  split.
  - unfold re_Y.
    apply (@m_cat _ Dig _ [_] [_; _; _]);
      [constructor; unfold is_decimal; now rewrite digit_char_decimal|].
    apply (@m_cat _ Dig _ [_] [_; _]);
      [constructor; unfold is_decimal; now rewrite digit_char_decimal|].
    apply (@m_cat _ Dig _ [_] [_]);
      constructor; unfold is_decimal; now rewrite digit_char_decimal.
  - unfold int. cbn [lstrip]. rewrite digit_char_not_blank by exact D1.
    cbn [int_digits]. rewrite !digit_char_decimal by assumption.
    f_equal. div_lia.
Qed.

Lemma token_ok_spec (r : regex) (a : str) (v : Z) :
  token_ok r a v = true -> matches r a /\ int a = Some v.
Proof.
  unfold token_ok. rewrite andb_true_iff, existsb_exists.
  intros [([x t] & Hin & H) Hv]. cbn in H.
  apply andb_true_iff in H. destruct H as [Hx Ht].
  apply str_eqb_eq in Hx. subst x. destruct t; [|discriminate].
  apply rx_spec in Hin. split; [tauto|].
  destruct (int a); [|discriminate]. apply Z.eqb_eq in Hv. now subst.
Qed.

Lemma pad2_day_all :
  forallb (fun k => token_ok re_d (pad2 (Z.of_nat k)) (Z.of_nat k))
          (seq 1 31) = true.
Proof. vm_compute. reflexivity. Qed.

Lemma pad2_month_all :
  forallb (fun k => token_ok re_m (pad2 (Z.of_nat k)) (Z.of_nat k))
          (seq 1 12) = true.
Proof. vm_compute. reflexivity. Qed.

Lemma pad2_day (d : Z) :
  1 <= d <= 31 -> matches re_d (pad2 d) /\ int (pad2 d) = Some d.
Proof.
  intros H. apply token_ok_spec.
  pose proof pad2_day_all as A. rewrite forallb_forall in A.
  specialize (A (Z.to_nat d)). rewrite Z2Nat.id in A by lia.
  apply A, in_seq. lia.
Qed.

Lemma pad2_month (m : Z) :
  1 <= m <= 12 -> matches re_m (pad2 m) /\ int (pad2 m) = Some m.
Proof.
  intros H. apply token_ok_spec.
  pose proof pad2_month_all as A. rewrite forallb_forall in A.
  specialize (A (Z.to_nat m)). rewrite Z2Nat.id in A by lia.
  apply A, in_seq. lia.
Qed.

(** What [strftime] writes for a date, [strptime] reads as that date. *)
Lemma strftime_reads (dt : date) :
  valid_date dt -> reads_as (strftime_dmY dt) dt.
Proof.
  intros V. pose proof V as (Hy & Hm & Hd).
  pose proof (days_in_month_bounds (year dt) (month dt) Hm) as B.
  destruct (pad2_day (day dt) ltac:(lia)) as [Md Id].
  destruct (pad2_month (month dt) Hm) as [Mm Im].
  destruct (pad4_year (year dt) Hy) as [MY IY].
  exists (pad2 (day dt)), (pad2 (month dt)), (pad4 (year dt)).
  repeat split; try assumption; try apply V.
Qed.


Lemma strftime_strict (dt : date) :
  valid_date dt -> strict_shape (strftime_dmY dt).
Proof.
  intros (Hy & Hm & Hd). unfold MINYEAR, MAXYEAR in Hy.
  pose proof (days_in_month_bounds (year dt) (month dt) Hm) as B.
  unfold strict_shape, strftime_dmY, pad2, pad4.
  do 8 eexists. split; [reflexivity|].
  repeat constructor; apply digit_char_ascii; div_lia.
Qed.
Lemma ascii_digit_value (c : char) :
  ascii_digit c = true ->
  decimal_value c = Some (Z.of_N c - 48)
  /\ 0 <= Z.of_N c - 48 <= 9
  /\ digit_char (Z.of_N c - 48) = c
  /\ c <> dot /\ (c =? 32)%N = false.
Proof.
  intros H. unfold decimal_value. rewrite H.
  unfold ascii_digit in H. apply andb_true_iff in H.
  rewrite !N.leb_le in H. unfold digit_char, dot.
  repeat split; try lia. apply N.eqb_neq. lia.
Qed.

Lemma int_two (a b : char) :
  ascii_digit a = true -> ascii_digit b = true ->
  exists v, int [a; b] = Some v /\ 0 <= v <= 99 /\ pad2 v = [a; b].
Proof.
  intros Ha Hb.
  destruct (ascii_digit_value a Ha) as (Da & Ra & Ca & _ & Ba).
  destruct (ascii_digit_value b Hb) as (Db & Rb & Cb & _ & _).
  exists (10 * (Z.of_N a - 48) + (Z.of_N b - 48)).
  unfold int. cbn [lstrip]. rewrite Ba. cbn [int_digits].
  rewrite Da, Db. split; [f_equal; lia|]. split; [lia|].
  unfold pad2.
  replace ((10 * (Z.of_N a - 48) + (Z.of_N b - 48)) / 10 mod 10)
    with (Z.of_N a - 48) by div_lia.
  replace ((10 * (Z.of_N a - 48) + (Z.of_N b - 48)) mod 10)
    with (Z.of_N b - 48) by div_lia.
  now rewrite Ca, Cb.
Qed.

Lemma int_four (a b c d : char) :
  ascii_digit a = true -> ascii_digit b = true ->
  ascii_digit c = true -> ascii_digit d = true ->
  exists v, int [a; b; c; d] = Some v /\ pad4 v = [a; b; c; d].
Proof.
  intros Ha Hb Hc Hd.
  destruct (ascii_digit_value a Ha) as (Da & Ra & Ca & _ & Ba).
  destruct (ascii_digit_value b Hb) as (Db & Rb & Cb & _ & _).
  destruct (ascii_digit_value c Hc) as (Dc & Rc & Cc & _ & _).
  destruct (ascii_digit_value d Hd) as (Dd & Rd & Cd & _ & _).
  set (x := Z.of_N a - 48) in *. set (y := Z.of_N b - 48) in *.
  set (z := Z.of_N c - 48) in *. set (w := Z.of_N d - 48) in *.
  exists (1000 * x + 100 * y + 10 * z + w).
  unfold int. cbn [lstrip]. rewrite Ba. cbn [int_digits].
  rewrite Da, Db, Dc, Dd. split; [f_equal; lia|].
  unfold pad4.
  replace ((1000 * x + 100 * y + 10 * z + w) / 1000 mod 10) with x by div_lia.
  replace ((1000 * x + 100 * y + 10 * z + w) / 100 mod 10) with y by div_lia.
  replace ((1000 * x + 100 * y + 10 * z + w) / 10 mod 10) with z by div_lia.
  replace ((1000 * x + 100 * y + 10 * z + w) mod 10) with w by div_lia.
  now rewrite Ca, Cb, Cc, Cd.
Qed.

(** A text of the strict shape that reads as a date is that date as
    [strftime] writes it. *)
Lemma strict_reads (s : str) (dt : date) :
  strict_shape s -> reads_as s dt -> s = strftime_dmY dt.
Proof.
  intros (d1 & d2 & m1 & m2 & y1 & y2 & y3 & y4 & -> & F)
         (d & m & Y & E & Md & Mm & MY & IY & Im & Id & V).
  inversion F as [|? ? H1 F1]; subst. inversion F1 as [|? ? H2 F2]; subst.
  inversion F2 as [|? ? H3 F3]; subst. inversion F3 as [|? ? H4 F4]; subst.
  inversion F4 as [|? ? H5 F5]; subst. inversion F5 as [|? ? H6 F6]; subst.
  inversion F6 as [|? ? H7 F7]; subst. inversion F7 as [|? ? H8 F8]; subst.
  assert (Nd : ~ In dot [d1; d2]).
  { intros [X|[X|[]]];
      [now apply (ascii_digit_value d1 H1)|now apply (ascii_digit_value d2 H2)]. }
  assert (Nm : ~ In dot [m1; m2]).
  { intros [X|[X|[]]];
      [now apply (ascii_digit_value m1 H3)|now apply (ascii_digit_value m2 H4)]. }
  change ([d1; d2; dot; m1; m2; dot; y1; y2; y3; y4])
    with ([d1; d2] ++ dot :: [m1; m2] ++ dot :: [y1; y2; y3; y4]) in E.
  destruct (first_cut dot _ _ _ _ Nd (re_d_no_dot _ Md) E) as [<- E2].
  destruct (first_cut dot _ _ _ _ Nm (re_m_no_dot _ Mm) E2) as [<- <-].
  destruct (int_two d1 d2 H1 H2) as (vd & Jd & _ & Pd).
  destruct (int_two m1 m2 H3 H4) as (vm & Jm & _ & Pm).
  destruct (int_four y1 y2 y3 y4 H5 H6 H7 H8) as (vy & Jy & Py).
  rewrite Jd in Id. rewrite Jm in Im. rewrite Jy in IY.
  inversion Id as [Ed]. inversion Im as [Em]. inversion IY as [Ey].
  unfold strftime_dmY. rewrite <- Ed, <- Em, <- Ey, Pd, Pm, Py. reflexivity.
Qed.

End RoundTrip.

(* ===================================================================== *)
(** ** One turn of the loop of get_upcoming_birthdays *)
(* ===================================================================== *)

Lemma replace_year_Ok (d : date) (y : Z) (t : date) :
  replace_year d y = Ok t
  <-> t = mkdate y (month d) (day d) /\ valid_date t.
Proof. apply date_new_Ok. Qed.

Lemma weekend_shift (occ : date) :
  valid_date occ -> 5 <= weekday occ ->
  exists cong,
    add_days occ (7 - weekday occ) = Ok cong
    /\ valid_date cong /\ shifted occ cong.
Proof.
  intros V W. destruct (add_days_weekend occ V W) as (c & A & Vc & Oc & Wc).
  exists c. split; [exact A|]. split; [exact Vc|].
  pose proof (weekday_range occ) as R. unfold shifted.
  destruct (Z.eq_dec (weekday occ) 5) as [E|E].
  - right. left. rewrite E in Oc. auto.
  - right. right. assert (weekday occ = 6) as E6 by lia.
    rewrite E6 in Oc. auto.
Qed.

Section LoopBody.
Context {U : UnicodeData}.

(** When a turn of the loop ends without an exception, it either left
    [upcoming] alone (no birthday, or one outside the window) or
    appended the entry of the record, with the shifted date. *)
Lemma upcoming_body_Ok (today : date) (acc acc' : list Entry)
      (r : PyRecord) :
  upcoming_body today acc r = Ok acc' ->
  (birthday r = None /\ acc' = acc)
  \/ exists b bday,
      birthday r = Some b
      /\ strptime_dmY (Birthday_value b) = Ok bday
      /\ valid_date (occurrence today bday)
      /\ ((in_window today bday = false /\ acc' = acc)
          \/ (in_window today bday = true
              /\ exists cong,
                  shifted (occurrence today bday) cong
                  /\ valid_date cong
                  /\ acc' = acc ++ [mkEntry (Name_value (name r))
                                            (strftime_dmY cong)])).
Proof.
  unfold upcoming_body.
  destruct (birthday r) as [b|]; [|intros [= <-]; now left].
  intros H. right. exists b.
  destruct (strptime_dmY (Birthday_value b)) as [bday|] eqn:P;
    [|discriminate]. exists bday. cbn [rbind] in H.
  split; [reflexivity|]. split; [reflexivity|].
  destruct (replace_year bday (year today)) as [t|] eqn:R1;
    [|discriminate]. cbn [rbind] in H.
  apply replace_year_Ok in R1. destruct R1 as [Et Vt].
  assert (exists occ,
             (if date_lt t today then replace_year t (year today + 1)
              else Ok t) = Ok occ
             /\ occ = occurrence today bday /\ valid_date occ)
    as (occ & R2 & Eo & Vo).
  { unfold occurrence. rewrite <- Et.
    destruct (date_lt t today).
    - destruct (replace_year t (year today + 1)) as [t'|] eqn:R2;
        [|discriminate].
      exists t'. split; [reflexivity|].
      apply replace_year_Ok in R2. destruct R2 as [Et' Vt'].
      subst t. cbn in Et'. auto.
    - exists t. auto. }
  rewrite R2 in H. cbn [rbind] in H. subst occ.
  split; [exact Vo|]. unfold in_window.
  set (occ := occurrence today bday) in *.
  destruct ((0 <=? sub_days occ today) && (sub_days occ today <=? 7));
    [|left; now inversion H].
  right. split; [reflexivity|].
  destruct (Z.leb_spec 5 (weekday occ)) as [W|W].
  - destruct (weekend_shift occ Vo W) as (cong & A & Vc & S).
    rewrite A in H. cbn [rbind] in H. inversion H. eauto.
  - cbn [rbind] in H. inversion H. exists occ.
    split; [left; split; [lia|reflexivity]|]. auto.
Qed.

(** A turn of the loop raises nothing but [ValueError]. *)
Lemma upcoming_body_raises (today : date) (acc : list Entry)
      (r : PyRecord) (e : exn) :
  upcoming_body today acc r = Raise e -> e = ValueError None.
Proof.
  unfold upcoming_body.
  destruct (birthday r) as [b|]; [|discriminate].
  destruct (strptime_dmY (Birthday_value b)) as [bday|] eqn:P;
    cbn [rbind]; [|intros [= <-]; now apply strptime_raises in P].
  destruct (replace_year bday (year today)) as [t|] eqn:R1;
    cbn [rbind]; [|intros [= <-]; now apply date_new_raises in R1].
  apply replace_year_Ok in R1. destruct R1 as [Et Vt].
  destruct (if date_lt t today then replace_year t (year today + 1)
            else Ok t) as [occ|] eqn:R2; cbn [rbind].
  - assert (valid_date occ) as Vo.
    { destruct (date_lt t today); [|now inversion R2; subst].
      now apply replace_year_Ok in R2. }
    destruct ((0 <=? sub_days occ today) && (sub_days occ today <=? 7));
      [|discriminate].
    destruct (Z.leb_spec 5 (weekday occ)) as [W|W]; [|discriminate].
    destruct (weekend_shift occ Vo W) as (cong & A & _).
    rewrite A. discriminate.
  - intros [= <-]. destruct (date_lt t today); [|discriminate].
    now apply date_new_raises in R2.
Qed.

(** In a year that is not a leap year, the turn for a record born on
    29 February stops at [bday.replace(year=today.year)]. *)
Lemma replace_feb_29 (bday : date) (y : Z) :
  month bday = 2 -> day bday = 29 -> _is_leap y = false ->
  replace_year bday y = Raise (ValueError None).
Proof.
  intros Hm Hd L. unfold replace_year, date_new, _check_date_fields.
  rewrite Hm, Hd. unfold _days_in_month. rewrite L. tables.
  destruct (negb _); [reflexivity|]. reflexivity.
Qed.

Lemma upcoming_body_feb_29 (today : date) (acc : list Entry)
      (r : PyRecord) :
  born_feb_29 r -> _is_leap (year today) = false ->
  upcoming_body today acc r = Raise (ValueError None).
Proof.
  intros (b & bday & Hb & P & Hm & Hd) L. unfold upcoming_body.
  rewrite Hb, P. cbn [rbind].
  now rewrite (replace_feb_29 bday (year today) Hm Hd L).
Qed.

(** A birthday other than 29 February has its occurrence in every
    year. *)
Lemma replace_other_day (bday : date) (y : Z) :
  valid_date bday -> ~ (month bday = 2 /\ day bday = 29) ->
  MINYEAR <= y <= MAXYEAR ->
  replace_year bday y = Ok (mkdate y (month bday) (day bday)).
Proof.
  intros (_ & Hm & Hd) N Hy. apply replace_year_Ok.
  split; [reflexivity|]. repeat split; cbn; try tauto; try lia.
  revert Hd N. unfold _days_in_month.
  destruct (month_cases _ Hm) as [->|[->|[->|[->|[->|[->|[->|[->|[->|[->|[->| ->]]]]]]]]]]];
    destruct (_is_leap (year bday)), (_is_leap y); tables; lia.
Qed.

Lemma upcoming_body_total (today : date) (acc : list Entry)
      (r : PyRecord) :
  (forall b, birthday r = Some b ->
     exists bday, strptime_dmY (Birthday_value b) = Ok bday
                  /\ ~ (month bday = 2 /\ day bday = 29)) ->
  MINYEAR <= year today < MAXYEAR ->
  exists acc', upcoming_body today acc r = Ok acc'.
Proof.
  intros Hb Hy. unfold upcoming_body.
  destruct (birthday r) as [b|]; [|eauto].
  destruct (Hb b eq_refl) as (bday & P & N). rewrite P. cbn [rbind].
  pose proof (strptime_valid _ _ P) as V.
  rewrite (replace_other_day bday (year today) V N) by (unfold MAXYEAR in *; lia).
  cbn [rbind].
  set (t := mkdate (year today) (month bday) (day bday)).
  assert (exists occ,
             (if date_lt t today then replace_year t (year today + 1)
              else Ok t) = Ok occ /\ valid_date occ) as (occ & -> & Vo).
  { assert (valid_date t) as Vt.
    { apply (replace_year_Ok bday (year today)).
      apply replace_other_day; auto. unfold MAXYEAR in *; lia. }
    destruct (date_lt t today); [|eauto].
    rewrite (replace_other_day t (year today + 1) Vt N)
      by (unfold MAXYEAR, MINYEAR in *; lia).
    eexists. split; [reflexivity|].
    apply (replace_year_Ok t (year today + 1)).
    apply replace_other_day; auto. unfold MAXYEAR, MINYEAR in *; lia. }
  cbn [rbind].
  destruct ((0 <=? sub_days occ today) && (sub_days occ today <=? 7));
    [|eauto].
  destruct (Z.leb_spec 5 (weekday occ)) as [W|W]; [|cbn [rbind]; eauto].
  destruct (weekend_shift occ Vo W) as (cong & -> & _).
  cbn [rbind]. eauto.
Qed.
End LoopBody.

(* ===================================================================== *)
(** ** get_upcoming_birthdays *)
(* ===================================================================== *)

Section Upcoming.
Context {U : UnicodeData}.

Lemma due_None (today : date) (r : PyRecord) :
  birthday r = None -> due today r = false.
Proof. unfold due. now intros ->. Qed.

Lemma due_Some (today : date) (r : PyRecord) (b : Birthday) (bday : date) :
  birthday r = Some b -> strptime_dmY (Birthday_value b) = Ok bday ->
  due today r = in_window today bday.
Proof. unfold due. now intros -> ->. Qed.

(** What the loop adds to [upcoming], when it ends without an
    exception: one entry for each record that is due, in the order of
    the records, each with the shifted date. *)
Lemma upcoming_loop_Ok (today : date) (records : list PyRecord) :
  forall acc out,
    upcoming_loop today acc records = Ok out ->
    exists new,
      out = acc ++ new
      /\ map entry_name new
         = map (fun r => Name_value (name r)) (filter (due today) records)
      /\ forall e, In e new ->
           exists r b bday cong,
             In r records /\ birthday r = Some b
             /\ strptime_dmY (Birthday_value b) = Ok bday
             /\ in_window today bday = true
             /\ shifted (occurrence today bday) cong
             /\ valid_date cong
             /\ e = mkEntry (Name_value (name r)) (strftime_dmY cong).
Proof.
  induction records as [|r rest IH]; intros acc out H; cbn in H.
  - inversion H. exists []. rewrite app_nil_r.
    split; [reflexivity|]. split; [reflexivity|]. intros e [].
  - destruct (upcoming_body today acc r) as [acc'|] eqn:B; [|discriminate].
    cbn [rbind] in H. destruct (IH _ _ H) as (new & -> & Names & Each).
    apply upcoming_body_Ok in B.
    assert (Rest : forall e, In e new ->
              exists r0 b bday cong,
                In r0 (r :: rest) /\ birthday r0 = Some b
                /\ strptime_dmY (Birthday_value b) = Ok bday
                /\ in_window today bday = true
                /\ shifted (occurrence today bday) cong
                /\ valid_date cong
                /\ e = mkEntry (Name_value (name r0)) (strftime_dmY cong)).
    { intros e He. destruct (Each e He) as (r0 & b & bday & cong & Hin & K).
      exists r0, b, bday, cong. split; [now right|exact K]. }
    destruct B as [[Hb ->]|(b & bday & Hb & P & Vo & [[W ->]|(W & cong & S & Vc & ->)])].
    + exists new. split; [reflexivity|]. cbn [filter].
      rewrite (due_None today r Hb). auto.
    + exists new. split; [reflexivity|]. cbn [filter].
      rewrite (due_Some today r b bday Hb P), W. auto.
    + exists (mkEntry (Name_value (name r)) (strftime_dmY cong) :: new).
      split; [now rewrite <- app_assoc|]. cbn [filter].
      rewrite (due_Some today r b bday Hb P), W. cbn [map entry_name].
      split; [now rewrite Names|].
      intros e [<-|He]; [|now apply Rest].
      exists r, b, bday, cong. split; [now left|]. auto 10.
Qed.

Lemma upcoming_loop_raises (today : date) (records : list PyRecord) :
  forall acc e,
    upcoming_loop today acc records = Raise e -> e = ValueError None.
Proof.
  induction records as [|r rest IH]; intros acc e H; cbn in H.
  - discriminate.
  - destruct (upcoming_body today acc r) as [acc'|e'] eqn:B;
      cbn [rbind] in H.
    + now apply IH with acc'.
    + inversion H; subst. now apply upcoming_body_raises in B.
Qed.

Lemma upcoming_loop_feb_29 (today : date) (records : list PyRecord) :
  _is_leap (year today) = false ->
  (exists r, In r records /\ born_feb_29 r) ->
  forall acc, upcoming_loop today acc records = Raise (ValueError None).
Proof.
  intros L. induction records as [|r rest IH]; intros (r0 & Hin & F) acc.
  - destruct Hin.
  - cbn [upcoming_loop].
    destruct (upcoming_body today acc r) as [acc'|e] eqn:B; cbn [rbind].
    + destruct Hin as [<-|Hin].
      * rewrite (upcoming_body_feb_29 today acc r F L) in B. discriminate.
      * apply IH. eauto.
    + now rewrite (upcoming_body_raises _ _ _ _ B).
Qed.



(** C2: in every entry that [get_upcoming_birthdays] returns, the date
    is the occurrence of the birthday itself when that day is a Monday
    to a Friday, the day two days later for a Saturday and the day one
    day later for a Sunday, which is a Monday. With Monday 10.06.2024
    as today, a birthday on Saturday 15.06.2024 gives 17.06.2024 and one
    on Wednesday 12.06.2024 gives 12.06.2024. *)
Theorem C2_congratulation_date (today : date) (data : AddressBook)
        (out : list Entry) :
  get_upcoming_birthdays today data = Ok out ->
  (forall e, In e out ->
     exists r b bday cong,
       In r (dict_values data) /\ birthday r = Some b
       /\ strptime_dmY (Birthday_value b) = Ok bday
       /\ in_window today bday = true
       /\ shifted (occurrence today bday) cong
       /\ valid_date cong
       /\ e = mkEntry (Name_value (name r)) (strftime_dmY cong))
  /\ weekday (mkdate 2024 6 10) = 0
  /\ weekday (mkdate 2024 6 15) = 5
  /\ weekday (mkdate 2024 6 12) = 2
  /\ get_upcoming_birthdays (mkdate 2024 6 10)
       (book_of [contact "Sat" "15.06.2024"])
     = Ok [mkEntry (lit "Sat") (lit "17.06.2024")]
  /\ get_upcoming_birthdays (mkdate 2024 6 10)
       (book_of [contact "Wed" "12.06.2024"])
     = Ok [mkEntry (lit "Wed") (lit "12.06.2024")].
Proof.
  intros H. split; [|repeat split; vm_compute; reflexivity].
  unfold get_upcoming_birthdays in H.
  destruct (upcoming_loop_Ok today _ _ _ H) as (new & -> & _ & Each).
  exact Each.
Qed.

(** C10: with a record born on 29 February in the book and a year that
    is not a leap year, [get_upcoming_birthdays] returns no list: it
    raises [ValueError]. The exception comes from
    [bday.replace(year=today.year)] in the turn of that record. A book
    built with [Record], [add_birthday] and [add_record] is enough: the
    birthday 29.02.2000 is accepted, and the query raises in 2023. *)
Theorem C10_feb_29_raises (today : date) (data : AddressBook) :
  _is_leap (year today) = false ->
  (exists r, In r (dict_values data) /\ born_feb_29 r) ->
  get_upcoming_birthdays today data = Raise (ValueError None)
  /\ (forall out, get_upcoming_birthdays today data <> Ok out)
  /\ (forall r, born_feb_29 r ->
        (forall b bday,
            birthday r = Some b ->
            strptime_dmY (Birthday_value b) = Ok bday ->
            replace_year bday (year today) = Raise (ValueError None))
        /\ forall acc, upcoming_body today acc r = Raise (ValueError None))
  /\ Record_init (lit "Bob") = Ok (self state0)
  /\ add_birthday (lit "29.02.2000") state0
     = (Ok tt, mkRState 0 (contact "Bob" "29.02.2000"))
  /\ add_record (contact "Bob" "29.02.2000") book0
     = (Ok tt, book_of [contact "Bob" "29.02.2000"])
  /\ get_upcoming_birthdays (mkdate 2023 6 12)
       (book_of [contact "Bob" "29.02.2000"])
     = Raise (ValueError None).
Proof.
  intros L E.
  assert (R : get_upcoming_birthdays today data = Raise (ValueError None)).
  { unfold get_upcoming_birthdays. now apply upcoming_loop_feb_29. }
  split; [exact R|]. split; [rewrite R; discriminate|].
  split; [|repeat split; vm_compute; reflexivity].
  intros r F. split.
  - intros b bday Hb P. destruct F as (b' & bday' & Hb' & P' & Hm & Hd).
    rewrite Hb in Hb'. inversion Hb'; subst b'.
    rewrite P in P'. inversion P'; subst bday'.
    now apply replace_feb_29.
  - intros acc. now apply upcoming_body_feb_29.
Qed.

(** C1 at a failing input: on 12.06.2023, with Ann born on 14.06.1990
    and Bob born on 29.02.2000 in the book, the query raises
    [ValueError] and returns nothing, although Ann's birthday is two
    days away; with Ann alone in the book the query returns her entry.
    The same happens in a leap year once 29 February is past: there the
    second [replace] raises. For the books without a birthday on
    29 February the query returns the records that are due
    ([get_upcoming_birthdays_due]). *)
Theorem C1_feb_29_failing_input :
  get_upcoming_birthdays (mkdate 2023 6 12)
    (book_of [contact "Ann" "14.06.1990"; contact "Bob" "29.02.2000"])
  = Raise (ValueError None)
  /\ get_upcoming_birthdays (mkdate 2023 6 12)
       (book_of [contact "Ann" "14.06.1990"])
     = Ok [mkEntry (lit "Ann") (lit "14.06.2023")]
  /\ due (mkdate 2023 6 12) (contact "Ann" "14.06.1990") = true
  /\ get_upcoming_birthdays (mkdate 2024 3 1)
       (book_of [contact "Ann" "02.03.1990"; contact "Bob" "29.02.2000"])
     = Raise (ValueError None)
  /\ get_upcoming_birthdays (mkdate 2024 6 10)
       (book_of [contact "Far" "20.06.2024"])
     = Ok [].
Proof. repeat split; vm_compute; reflexivity. Qed.

(** C4, as the code has it: [Birthday(s)] succeeds exactly when [s] is
    a day, a dot, a month, a dot and a year as [strptime] reads them (a
    day and a month of one or two digits, a day also with a blank
    before its digit, a year of four digits: [re_d_forms], [re_m_forms],
    [re_Y_forms]) and the three numbers are a date of the calendar; the
    stored value is then [s]. Otherwise it raises the [ValueError] of
    line 29. Every date of the calendar written DD.MM.YYYY is accepted,
    and a text of that strict shape is accepted only when it is such a
    date; 31.02.2024 and 00.01.2020 are not accepted. *)
Theorem C4_birthday_validation (s : str) :
  (forall b, Birthday_init s = Ok b
     <-> b = mkBirthday s /\ exists dt, reads_as s dt)
  /\ ((forall dt, ~ reads_as s dt) ->
      Birthday_init s
      = Raise (ValueError
                 (Some "Invalid date. Ensure the date is valid and in DD.MM.YYYY format"%string)))
  /\ (forall dt, valid_date dt ->
        strict_shape (strftime_dmY dt)
        /\ Birthday_init (strftime_dmY dt)
           = Ok (mkBirthday (strftime_dmY dt)))
  /\ (strict_shape s ->
      ((exists b, Birthday_init s = Ok b)
       <-> exists dt, valid_date dt /\ s = strftime_dmY dt))
  /\ Birthday_init (lit "31.02.2024")
     = Raise (ValueError
                (Some "Invalid date. Ensure the date is valid and in DD.MM.YYYY format"%string))
  /\ Birthday_init (lit "00.01.2020")
     = Raise (ValueError
                (Some "Invalid date. Ensure the date is valid and in DD.MM.YYYY format"%string)).
Proof.
  destruct (Birthday_init_spec s) as [A B].
  assert (W : forall dt, valid_date dt ->
                Birthday_init (strftime_dmY dt)
                = Ok (mkBirthday (strftime_dmY dt))).
  { intros dt V. apply (proj1 (Birthday_init_spec (strftime_dmY dt))).
    split; [reflexivity|]. exists dt. now apply strftime_reads. }
  split; [exact A|]. split; [exact B|].
  split; [|split; [|split; vm_compute; reflexivity]].
  - intros dt V. split; [now apply strftime_strict|now apply W].
  - intros S. split.
    + intros (b & Hb). apply A in Hb. destruct Hb as (_ & dt & R).
      exists dt. split; [|now apply strict_reads].
      destruct R as (? & ? & ? & R). tauto.
    + intros (dt & V & ->). eexists. now apply W.
Qed.
End Upcoming.

(** C4 fails as stated: 1.1.2020, with a day and a month of one digit,
    is accepted, and it is not of the shape DD.MM.YYYY. *)
Lemma C4_counterexample :
  (forall U : UnicodeData,
      Birthday_init (lit "1.1.2020") = Ok (mkBirthday (lit "1.1.2020")))
  /\ ~ strict_shape (lit "1.1.2020").
Proof.
  split; [intros U; vm_compute; reflexivity|].
  intros (? & ? & ? & ? & ? & ? & ? & ? & E & _). discriminate E.
Qed.

(* ===================================================================== *)
(** ** Further facts: the methods of Record *)
(* ===================================================================== *)

Section RecordMore.
Context {U : UnicodeData}.

(** The phone [find_phone] returned is in the list, so [list.remove]
    finds it: its [ValueError] cannot occur, and one element goes. *)
Lemma list_remove_In (p : Phone) (l : list Phone) :
  In p l ->
  exists l', list_remove Phone_eq p l = Ok l' /\ List.length l = S (List.length l').
Proof.
  induction l as [|a l IH]; intros H; [destruct H|]. cbn [list_remove].
  destruct (Phone_eq a p) eqn:E; [eauto|].
  destruct H as [->|H].
  - unfold Phone_eq in E. now rewrite Nat.eqb_refl in E.
  - destruct (IH H) as (l' & -> & L). eexists. split; [reflexivity|].
    cbn. now rewrite L.
Qed.

Lemma find_phone_In (r : PyRecord) (s : str) (p : Phone) :
  find_phone r s = Some p -> In p (phones r) /\ Phone_value p = s.
Proof.
  intros H. apply find_phone_loop_Some in H.
  destruct H as (l1 & l2 & E & V & _). split; [|exact V].
  rewrite E. apply in_or_app. right. now left.
Qed.

Lemma phones_remove_In (p : Phone) (st : RState) :
  In p (phones (self st)) ->
  exists l',
    phones_remove p st
    = (Ok tt, mkRState (next_oid st)
                       (mkRecord (name (self st)) l' (birthday (self st))))
    /\ List.length (phones (self st)) = S (List.length l').
Proof.
  intros H. destruct (list_remove_In p _ H) as (l' & E & L).
  exists l'. split; [|exact L].
  unfold phones_remove, bind, get, lift. cbv beta. now rewrite E.
Qed.

Lemma add_phone_Ok (s : str) (st : RState) :
  Phone_check s = Ok tt ->
  add_phone s st
  = (Ok tt,
     mkRState (S (next_oid st))
              (mkRecord (name (self st))
                        (phones (self st) ++ [mkPhone (next_oid st) s])
                        (birthday (self st)))).
Proof.
  intros V. unfold add_phone, bind at 1. now rewrite Phone_init_ok by exact V.
Qed.

Lemma add_phone_Raise (s : str) (st : RState) :
  Phone_check s <> Ok tt ->
  add_phone s st
  = (Raise (ValueError (Some "Phone number must be 10 digits"%string)), st).
Proof.
  intros V. unfold add_phone, bind at 1.
  now rewrite Phone_init_raise by exact V.
Qed.

Lemma find_phone_loop_app_last (l : list Phone) (p : Phone) :
  exists q, find_phone_loop (l ++ [p]) (Phone_value p) = Some q
            /\ Phone_value q = Phone_value p.
Proof.
  induction l as [|a l IH]; cbn [app find_phone_loop].
  - rewrite str_eqb_refl. eauto.
  - destruct (str_eqb (Phone_value a) (Phone_value p)) eqn:E; [|exact IH].
    apply str_eqb_eq in E. eauto.
Qed.

(** X1. [add_phone(s)] with a valid number puts a new phone with that
    number at the end of the list, whether or not the number is there
    already, and changes nothing else; [find_phone(s)] then finds the
    number. With a number that is not valid it raises the [ValueError]
    of [Phone] and the record is as before. *)
Theorem add_phone_appends (s : str) (st : RState) :
  (Phone_check s = Ok tt ->
   add_phone s st
   = (Ok tt,
      mkRState (S (next_oid st))
               (mkRecord (name (self st))
                         (phones (self st) ++ [mkPhone (next_oid st) s])
                         (birthday (self st))))
   /\ (exists q, find_phone (self (snd (add_phone s st))) s = Some q
                 /\ Phone_value q = s)
   /\ map Phone_value (phones (self (snd (add_phone s st))))
      = map Phone_value (phones (self st)) ++ [s])
  /\ (Phone_check s <> Ok tt ->
      add_phone s st
      = (Raise (ValueError (Some "Phone number must be 10 digits"%string)),
         st)).
Proof.
  split; [|apply add_phone_Raise].
  intros V. rewrite (add_phone_Ok s st V). split; [reflexivity|].
  cbn [snd self phones]. split.
  - apply (find_phone_loop_app_last (phones (self st))
                                    (mkPhone (next_oid st) s)).
  - now rewrite map_app.
Qed.

Lemma remove_phone_found (st : RState) (s : str) (l1 : list Phone)
      (p : Phone) (l2 : list Phone) :
  heap_consistent (phones (self st)) ->
  phones (self st) = l1 ++ p :: l2 -> Phone_value p = s ->
  Forall (fun q => Phone_value q <> s) l1 ->
  remove_phone s st
  = (Ok tt, mkRState (next_oid st)
                     (mkRecord (name (self st)) (l1 ++ l2)
                               (birthday (self st)))).
Proof.
  intros C E Ev F. unfold remove_phone, bind, get.
  assert (find_phone (self st) s = Some p) as ->.
  { apply find_phone_loop_Some. eauto. }
  apply phones_remove_found; auto. now rewrite Ev.
Qed.

(** X2. Adding a valid number and then removing it: when the number was
    not in the list, the record is again what it was; when it was, the
    phone that goes is the old one, the first with that number, and the
    new one stays at the end. *)
Theorem add_then_remove_phone (s : str) (st : RState) :
  RState_wf st -> Phone_check s = Ok tt ->
  exists st1,
    add_phone s st = (Ok tt, st1)
    /\ (Forall (fun q => Phone_value q <> s) (phones (self st)) ->
        remove_phone s st1
        = (Ok tt,
           mkRState (S (next_oid st))
                    (mkRecord (name (self st)) (phones (self st))
                              (birthday (self st)))))
    /\ (forall l1 p l2,
           phones (self st) = l1 ++ p :: l2 -> Phone_value p = s ->
           Forall (fun q => Phone_value q <> s) l1 ->
           remove_phone s st1
           = (Ok tt,
              mkRState (S (next_oid st))
                       (mkRecord (name (self st))
                                 (l1 ++ l2 ++ [mkPhone (next_oid st) s])
                                 (birthday (self st))))).
Proof.
  intros [C F] V. eexists. split; [apply add_phone_Ok; exact V|].
  set (st1 := mkRState _ _).
  assert (C1 : heap_consistent (phones (self st1))).
  { cbn. now apply heap_consistent_fresh. }
  split.
  - intros N.
    rewrite (remove_phone_found st1 s (phones (self st))
               (mkPhone (next_oid st) s) [] C1 eq_refl eq_refl N).
    cbn. now rewrite app_nil_r.
  - intros l1 p l2 E Ev N.
    assert (E1 : phones (self st1)
                 = l1 ++ p :: (l2 ++ [mkPhone (next_oid st) s])).
    { cbn. rewrite E. now rewrite <- app_assoc. }
    rewrite (remove_phone_found st1 s l1 p _ C1 E1 Ev N). reflexivity.
Qed.

Lemma list_remove_incl (p : Phone) (l l' : list Phone) :
  list_remove Phone_eq p l = Ok l' -> incl l' l.
Proof.
  revert l'. induction l as [|a l IH]; intros l' H; cbn [list_remove] in H.
  - discriminate.
  - destruct (Phone_eq a p).
    + inversion H; subst. now apply incl_tl.
    + destruct (list_remove Phone_eq p l) as [t|]; [|discriminate].
      inversion H; subst. apply incl_cons; [now left|].
      apply incl_tl. now apply IH.
Qed.

(** What [remove_phone] can do. *)
Lemma remove_phone_outcomes (s : str) (st : RState) (r : Result unit)
      (st' : RState) :
  remove_phone s st = (r, st') ->
  (r = Raise (ValueError (Some "Phone number not found"%string)) /\ st' = st)
  \/ (r = Ok tt
      /\ exists p l',
          In p (phones (self st)) /\ Phone_value p = s
          /\ list_remove Phone_eq p (phones (self st)) = Ok l'
          /\ List.length (phones (self st)) = S (List.length l')
          /\ st' = mkRState (next_oid st)
                            (mkRecord (name (self st)) l' (birthday (self st)))).
Proof.
  unfold remove_phone, bind at 1, get at 1.
  destruct (find_phone (self st) s) as [p|] eqn:Hp.
  - destruct (find_phone_In _ _ _ Hp) as [Hin Hv].
    destruct (list_remove_In p _ Hin) as (l' & E & L).
    unfold phones_remove, bind, get, lift. cbv beta. rewrite E.
    intros [= <- <-]. right. split; [reflexivity|]. exists p, l'. auto 10.
  - intros [= <- <-]. now left.
Qed.

(** What [edit_phone] can do. *)
Lemma edit_phone_outcomes (o n : str) (st : RState) (r : Result unit)
      (st' : RState) :
  edit_phone o n st = (r, st') ->
  (r = Raise (ValueError (Some "Old phone number not found"%string))
   /\ st' = st)
  \/ (r = Raise (ValueError (Some "Phone number must be 10 digits"%string))
      /\ st' = st)
  \/ (r = Ok tt /\ Phone_check n = Ok tt
      /\ exists p l',
          In p (phones (self st)) /\ Phone_value p = o
          /\ list_remove Phone_eq p (phones (self st)) = Ok l'
          /\ List.length (phones (self st)) = S (List.length l')
          /\ st' = mkRState (S (next_oid st))
                            (mkRecord (name (self st))
                                      (l' ++ [mkPhone (next_oid st) n])
                                      (birthday (self st)))).
Proof.
  destruct (find_phone (self st) o) as [p|] eqn:Hp.
  - destruct (Phone_check_cases n) as [V|V].
    + destruct (find_phone_In _ _ _ Hp) as [Hin Hv].
      destruct (list_remove_In p _ Hin) as (l' & E & L).
      unfold edit_phone, bind at 1, get at 1. rewrite Hp.
      unfold bind at 1. rewrite Phone_init_ok by exact V.
      unfold bind at 1, phones_remove, bind at 1, get at 1.
      unfold bind at 1, lift. cbn [self phones next_oid]. rewrite E.
      cbn. intros [= <- <-]. right. right.
      split; [reflexivity|]. split; [exact V|]. exists p, l'. auto 10.
    + rewrite (edit_phone_invalid o n st p Hp) by congruence.
      intros [= <- <-]. right. now left.
  - rewrite edit_phone_absent by exact Hp. intros [= <- <-]. now left.
Qed.

(** X4. The methods raise only the errors written in [hw_07.py]: the
    [ValueError] of [list.remove] never comes out of [remove_phone] or
    [edit_phone]. A call that raises leaves the record as it was; a
    successful [add_phone] makes the list one longer, a successful
    [remove_phone] one shorter, and [edit_phone] keeps its length. *)
Theorem phones_count (st : RState) :
  (forall s r st',
      add_phone s st = (r, st') ->
      (r = Ok tt /\ List.length (phones (self st'))
                   = S (List.length (phones (self st))))
      \/ (r = Raise (ValueError (Some "Phone number must be 10 digits"%string))
          /\ st' = st))
  /\ (forall s r st',
         remove_phone s st = (r, st') ->
         (r = Ok tt /\ List.length (phones (self st))
                      = S (List.length (phones (self st'))))
         \/ (r = Raise (ValueError (Some "Phone number not found"%string))
             /\ st' = st))
  /\ (forall o n r st',
         edit_phone o n st = (r, st') ->
         (r = Ok tt /\ List.length (phones (self st'))
                      = List.length (phones (self st)))
         \/ (r = Raise (ValueError (Some "Old phone number not found"%string))
             /\ st' = st)
         \/ (r = Raise (ValueError
                          (Some "Phone number must be 10 digits"%string))
             /\ st' = st)).
Proof.
  split; [|split].
  - intros s r st' E. destruct (Phone_check_cases s) as [V|V].
    + rewrite (add_phone_Ok s st V) in E. inversion E; subst. left.
      split; [reflexivity|]. cbn. rewrite length_app. cbn. lia.
    + rewrite add_phone_Raise in E by congruence. inversion E; subst.
      now right.
  - intros s r st' E.
    destruct (remove_phone_outcomes s st r st' E)
      as [[-> ->]|(-> & p & l' & _ & _ & _ & L & ->)]; [now right|].
    left. split; [reflexivity|exact L].
  - intros o n r st' E.
    destruct (edit_phone_outcomes o n st r st' E)
      as [[-> ->]|[[-> ->]|(-> & _ & p & l' & _ & _ & _ & L & ->)]];
      [right; now left|right; now right|].
    left. split; [reflexivity|]. cbn. rewrite length_app. cbn. lia.
Qed.

(** X3. [add_birthday(s)] with a text that reads as a date stores it in
    place of whatever birthday was there, and touches nothing else; with
    any other text it raises the [ValueError] of [Birthday] and the
    birthday that was there stays. *)
Theorem add_birthday_replaces (s : str) (st : RState) :
  ((exists dt, reads_as s dt) ->
   add_birthday s st
   = (Ok tt,
      mkRState (next_oid st)
               (mkRecord (name (self st)) (phones (self st))
                         (Some (mkBirthday s)))))
  /\ ((forall dt, ~ reads_as s dt) ->
      add_birthday s st
      = (Raise (ValueError
                  (Some "Invalid date. Ensure the date is valid and in DD.MM.YYYY format"%string)),
         st)).
Proof.
  destruct (Birthday_init_spec s) as [A B]. split.
  - intros H. unfold add_birthday, bind, lift.
    rewrite (proj2 (A (mkBirthday s)) (conj eq_refl H)). reflexivity.
  - intros H. unfold add_birthday, bind, lift. now rewrite (B H).
Qed.

(** X5. Whatever calls are made on a new record, every phone it holds
    passed the test of [Phone] and its birthday, if any, reads as a
    date: no field is stored without having been validated. *)
Theorem record_fields_validated (n : str) (k : nat) (cs : list call) :
  Record_init n = Ok (mkRecord (mkName n) [] None)
  /\ fields_valid
       (self (perform_all cs (mkRState k (mkRecord (mkName n) [] None)))).
Proof.
  split; [reflexivity|].
  assert (Step : forall c st, fields_valid (self st) ->
                              fields_valid (self (snd (perform c st)))).
  { intros c st [P B]. destruct c as [s|s|o nw|b]; cbn [perform].
    - destruct (add_phone s st) as [res st'] eqn:E. cbn [snd].
      destruct (Phone_check_cases s) as [V|V].
      + rewrite (add_phone_Ok s st V) in E. inversion E; subst.
        split; cbn; [|exact B]. apply Forall_app. split; [exact P|].
        now repeat constructor.
      + rewrite add_phone_Raise in E by congruence. inversion E; subst.
        now split.
    - destruct (remove_phone s st) as [res st'] eqn:E. cbn [snd].
      destruct (remove_phone_outcomes s st res st' E)
        as [[-> ->]|(-> & p & l' & _ & _ & R & _ & ->)]; [now split|].
      split; cbn; [|exact B]. apply list_remove_incl in R.
      rewrite Forall_forall in *. auto.
    - destruct (edit_phone o nw st) as [res st'] eqn:E. cbn [snd].
      destruct (edit_phone_outcomes o nw st res st' E)
        as [[-> ->]|[[-> ->]|(-> & V & p & l' & _ & _ & R & _ & ->)]];
        [now split|now split|].
      split; cbn; [|exact B]. apply list_remove_incl in R.
      apply Forall_app. split; [|now repeat constructor].
      rewrite Forall_forall in *. auto.
    - destruct (add_birthday b st) as [res st'] eqn:E. cbn [snd].
      unfold add_birthday, bind, lift in E.
      destruct (Birthday_init b) as [bb|] eqn:Eb.
      + apply Birthday_init_spec in Eb. destruct Eb as [-> H].
        inversion E; subst. split; cbn; [exact P|].
        intros b0 [= <-]. exact H.
      + inversion E; subst. now split. }
  set (st0 := mkRState k _).
  assert (I0 : fields_valid (self st0)).
  { split; cbn; [constructor|discriminate]. }
  clearbody st0. revert st0 I0.
  induction cs as [|c rest IH]; intros st0 I0; cbn [perform_all]; auto.
Qed.

End RecordMore.

(* ===================================================================== *)
(** ** Further facts: the address book *)
(* ===================================================================== *)

Lemma dict_setitem_same (V : Type) (k : str) (v : V) (d : dict V) :
  dict_get k d = Some v -> dict_setitem k v d = d.
Proof.
  induction d as [|[k' v'] d IH]; cbn; [discriminate|].
  destruct (str_eqb k' k) eqn:E.
  - now intros [= ->].
  - intros H. now rewrite IH.
Qed.

Lemma dict_get_setitem (V : Type) (k : str) (v : V) (d : dict V) :
  dict_get k (dict_setitem k v d) = Some v.
Proof.
  induction d as [|[k' v'] d IH]; cbn.
  - now rewrite str_eqb_refl.
  - destruct (str_eqb k' k) eqn:E; cbn; now rewrite E.
Qed.

Lemma dict_get_setitem_other (V : Type) (k k' : str) (v : V) (d : dict V) :
  k' <> k -> dict_get k' (dict_setitem k v d) = dict_get k' d.
Proof.
  intros N. induction d as [|[k0 v0] d IH]; cbn.
  - assert (str_eqb k k' = false) as ->; [|reflexivity].
    apply str_eqb_neq. congruence.
  - destruct (str_eqb k0 k) eqn:E; cbn.
    + apply str_eqb_eq in E. subst k0.
      assert (str_eqb k k' = false) as ->; [|reflexivity].
      apply str_eqb_neq. congruence.
    + now rewrite IH.
Qed.


Lemma dict_keys_setitem_present (V : Type) (k : str) (v v0 : V) (d : dict V) :
  dict_get k d = Some v0 -> dict_keys (dict_setitem k v d) = dict_keys d.
Proof.
  unfold dict_keys. induction d as [|[k' v'] d IH]; cbn; [discriminate|].
  destruct (str_eqb k' k) eqn:E; cbn; [reflexivity|].
  intros H. now rewrite IH.
Qed.

Lemma join_snoc (sep : str) (l : list str) (x : str) :
  join sep (l ++ [x])
  = match l with [] => x | _ => join sep l ++ sep ++ x end.
Proof.
  induction l as [|a l IH]; [reflexivity|].
  destruct l as [|b l]; [reflexivity|].
  change (join sep ((a :: b :: l) ++ [x]))
    with (a ++ sep ++ join sep ((b :: l) ++ [x])).
  rewrite IH. change (join sep (a :: b :: l)) with (a ++ sep ++ join sep (b :: l)).
  now rewrite <- !app_assoc.
Qed.

(** X6. [add_record] and [delete] undo each other: a record added under a
    name the book did not have and deleted again leaves the book as it
    was; deleting a name and adding a record under it again puts the
    record at the end of the book, not where the old one stood. *)
Theorem add_then_delete (data : AddressBook) (r : PyRecord) :
  (find data (Name_value (name r)) = None ->
   delete (Name_value (name r)) (snd (add_record r data)) = (Ok tt, data))
  /\ (forall old l1 l2,
         dict_wf data ->
         data = l1 ++ (Name_value (name r), old) :: l2 ->
         snd (add_record r (snd (delete (Name_value (name r)) data)))
         = l1 ++ l2 ++ [(Name_value (name r), r)]).
Proof.
  set (n := Name_value (name r)). split.
  - intros A. unfold add_record. cbn [snd]. fold n.
    apply dict_get_None in A. rewrite dict_setitem_absent by exact A.
    rewrite (delete_present (data ++ [(n, r)]) data [] n r eq_refl A).
    now rewrite app_nil_r.
  - intros old l1 l2 W E.
    assert (N1 : ~ In n (dict_keys l1)).
    { intros H. rewrite E in W. unfold dict_wf in W.
      rewrite dict_keys_app in W. cbn in W.
      apply NoDup_remove_2 in W. apply W, in_or_app. now left. }
    rewrite (delete_present data l1 l2 n old E N1). cbn [snd].
    unfold add_record. cbn [snd]. fold n.
    rewrite E in W. apply dict_wf_remove in W. destruct W as [_ N].
    rewrite dict_setitem_absent by exact N. now rewrite <- app_assoc.
Qed.


(** X8. The text of the book lists the records in the order they were
    first added: [add_record] of a new name adds a line at the end, and
    [add_record] of a name the book has replaces the record where it
    stands, the other lines and their order staying. *)
Theorem listing_order (data : AddressBook) (r : PyRecord) :
  (find data (Name_value (name r)) = None ->
   dict_values (snd (add_record r data)) = dict_values data ++ [r]
   /\ AddressBook_str (snd (add_record r data))
      = match data with
        | [] => Record_str r
        | _ => AddressBook_str data ++ newline ++ Record_str r
        end)
  /\ (forall old l1 l2,
         data = l1 ++ (Name_value (name r), old) :: l2 ->
         ~ In (Name_value (name r)) (dict_keys l1) ->
         dict_values (snd (add_record r data))
         = dict_values l1 ++ r :: dict_values l2
         /\ dict_keys (snd (add_record r data)) = dict_keys data).
Proof.
  set (n := Name_value (name r)). split.
  - intros A. unfold add_record. cbn [snd]. fold n.
    apply dict_get_None in A. rewrite dict_setitem_absent by exact A.
    unfold AddressBook_str, dict_values. rewrite map_app. cbn [map snd].
    split; [reflexivity|]. rewrite map_app. cbn [map].
    rewrite join_snoc. destruct data; reflexivity.
  - intros old l1 l2 E N. unfold add_record. cbn [snd]. fold n.
    rewrite E. rewrite dict_setitem_present by exact N.
    unfold dict_values, dict_keys. rewrite !map_app. cbn. auto.
Qed.

(* ===================================================================== *)
(** ** Further facts: get_upcoming_birthdays *)
(* ===================================================================== *)

Lemma leap_next (y : Z) : _is_leap y = true -> _is_leap (y + 1) = false.
Proof.
  unfold _is_leap. intros H.
  apply andb_true_iff in H. destruct H as [H _]. apply Z.eqb_eq in H.
  assert (((y + 1) mod 4 =? 0) = false) as ->; [|reflexivity].
  apply Z.eqb_neq. div_lia.
Qed.

Section UpcomingMore.
Context {U : UnicodeData}.

(** The turn of a record born on 29 February, in a leap year. *)
Lemma upcoming_body_feb_29_leap (today : date) (acc : list Entry)
      (r : PyRecord) :
  born_feb_29 r -> _is_leap (year today) = true ->
  MINYEAR <= year today < MAXYEAR ->
  (date_lt (mkdate (year today) 2 29) today = true ->
   upcoming_body today acc r = Raise (ValueError None))
  /\ (date_lt (mkdate (year today) 2 29) today = false ->
      exists acc', upcoming_body today acc r = Ok acc').
Proof.
  intros (b & bday & Hb & P & Hm & Hd) L Hy.
  assert (R1 : replace_year bday (year today)
               = Ok (mkdate (year today) 2 29)).
  { apply replace_year_Ok. rewrite Hm, Hd. split; [reflexivity|].
    unfold valid_date, _days_in_month, MINYEAR, MAXYEAR in *. cbn.
    rewrite L. cbn. lia. }
  unfold upcoming_body. rewrite Hb, P. cbn [rbind]. rewrite R1.
  cbn [rbind]. split; intros D; rewrite D.
  - rewrite (replace_feb_29 (mkdate (year today) 2 29) (year today + 1)
               eq_refl eq_refl (leap_next _ L)). reflexivity.
  - cbn [rbind].
    assert (Vo : valid_date (mkdate (year today) 2 29)).
    { now apply (replace_year_Ok bday (year today)). }
    set (occ := mkdate (year today) 2 29) in *.
    destruct ((0 <=? sub_days occ today) && (sub_days occ today <=? 7));
      [|eauto].
    destruct (Z.leb_spec 5 (weekday occ)) as [W|W]; [|cbn [rbind]; eauto].
    destruct (weekend_shift occ Vo W) as (cong & -> & _).
    cbn [rbind]. eauto.
Qed.

Lemma born_feb_29_dec (r : PyRecord) :
  (forall b, birthday r = Some b ->
             exists bday, strptime_dmY (Birthday_value b) = Ok bday) ->
  born_feb_29 r
  \/ (forall b, birthday r = Some b ->
        exists bday, strptime_dmY (Birthday_value b) = Ok bday
                     /\ ~ (month bday = 2 /\ day bday = 29)).
Proof.
  intros V. destruct (birthday r) as [b|] eqn:Hb.
  - destruct (V b eq_refl) as (bday & P).
    destruct (Z.eq_dec (month bday) 2) as [Em|Em];
      [destruct (Z.eq_dec (day bday) 29) as [Ed|Ed]|].
    + left. exists b, bday. auto.
    + right. intros b' [= <-]. exists bday. split; [exact P|tauto].
    + right. intros b' [= <-]. exists bday. split; [exact P|tauto].
  - right. discriminate.
Qed.

Lemma upcoming_body_answerable (today : date) (acc : list Entry)
      (r : PyRecord) :
  (forall b, birthday r = Some b ->
             exists bday, strptime_dmY (Birthday_value b) = Ok bday) ->
  MINYEAR <= year today < MAXYEAR ->
  ((exists acc', upcoming_body today acc r = Ok acc') <-> answerable today r).
Proof.
  intros V Hy. destruct (born_feb_29_dec r V) as [F|NF].
  - destruct (_is_leap (year today)) eqn:L.
    + destruct (upcoming_body_feb_29_leap today acc r F L Hy) as [A B].
      destruct (date_lt (mkdate (year today) 2 29) today) eqn:D.
      * split.
        -- intros (acc' & E). rewrite (A eq_refl) in E. discriminate.
        -- intros H. destruct (H F) as [_ X]. congruence.
      * split; [intros _ _; auto|intros _; now apply B].
    + split.
      * intros (acc' & E).
        rewrite (upcoming_body_feb_29 today acc r F L) in E. discriminate.
      * intros H. destruct (H F) as [X _]. congruence.
  - split.
    + intros _ (b & bday & Hb & P & Hm & Hd).
      destruct (NF b Hb) as (bday' & P' & N). rewrite P in P'.
      inversion P'; subst. tauto.
    + intros _. now apply upcoming_body_total.
Qed.

Lemma upcoming_loop_answerable (today : date) (records : list PyRecord) :
  Forall (fun r => forall b, birthday r = Some b ->
            exists bday, strptime_dmY (Birthday_value b) = Ok bday)
         records ->
  MINYEAR <= year today < MAXYEAR ->
  forall acc,
    (exists out, upcoming_loop today acc records = Ok out)
    <-> Forall (answerable today) records.
Proof.
  intros V Hy. induction V as [|r rest Vr V IH]; intros acc;
    cbn [upcoming_loop].
  - split; [constructor|eauto].
  - pose proof (upcoming_body_answerable today acc r Vr Hy) as B.
    destruct (upcoming_body today acc r) as [acc'|e]; cbn [rbind].
    + rewrite IH. split.
      * intros H. constructor; [apply B; eauto|exact H].
      * intros H. now inversion H.
    + split.
      * intros (out & E). discriminate.
      * intros H. inversion H as [|? ? Hr _]; subst.
        apply B in Hr. destruct Hr as (acc' & E). discriminate.
Qed.

(** X9. With every stored birthday valid and a year before the last of
    the calendar, the query returns a list exactly when every record
    born on 29 February can be handled: the year is a leap year and
    29 February is not yet past. On every other day one such record
    makes the query raise [ValueError]. *)
Theorem upcoming_returns_iff (today : date) (data : AddressBook) :
  birthdays_valid data -> MINYEAR <= year today < MAXYEAR ->
  ((exists out, get_upcoming_birthdays today data = Ok out)
   <-> Forall (answerable today) (dict_values data))
  /\ (~ Forall (answerable today) (dict_values data) ->
      get_upcoming_birthdays today data = Raise (ValueError None)).
Proof.
  intros V Hy. unfold get_upcoming_birthdays.
  pose proof (upcoming_loop_answerable today _ V Hy []) as I.
  split; [exact I|]. intros N.
  destruct (upcoming_loop today [] (dict_values data)) as [out|e] eqn:E.
  - elim N. apply I. eauto.
  - now rewrite (upcoming_loop_raises _ _ _ _ E).
Qed.

(** X10. Whenever the query returns, its list names the records that are
    due, each once and in the order of the book; a record with no
    birthday, or with one outside the window, is not in it. *)
Theorem upcoming_names (today : date) (data : AddressBook)
        (out : list Entry) :
  get_upcoming_birthdays today data = Ok out ->
  map entry_name out
  = map (fun r => Name_value (name r))
        (filter (due today) (dict_values data))
  /\ (List.length out <= List.length data)%nat
  /\ (forall r, In r (dict_values data) -> birthday r = None ->
                ~ In r (filter (due today) (dict_values data))).
Proof.
  intros H. unfold get_upcoming_birthdays in H.
  destruct (upcoming_loop_Ok today _ _ _ H) as (new & -> & N & _).
  cbn [app]. split; [exact N|]. split.
  - rewrite <- (length_map entry_name), N, length_map.
    unfold dict_values. rewrite <- (length_map snd data).
    apply filter_length_le.
  - intros r _ Hb Hin. apply filter_In in Hin. destruct Hin as [_ D].
    rewrite (due_None today r Hb) in D. discriminate.
Qed.


End UpcomingMore.

(* ===================================================================== *)
(** ** Further facts: the command handlers *)
(* ===================================================================== *)

Section HandlersMore.
Context {U : UnicodeData}.

Lemma World_eta (w : World) : mkWorld (book w) (heap w) = w.
Proof. now destruct w. Qed.

Lemma Phone_check_nonempty (s : str) : Phone_check s = Ok tt -> s <> [].
Proof. intros H ->. discriminate H. Qed.

(** A method that raises without having changed the record leaves the
    world as it was: the record put back is the one taken out. *)
Lemma on_record_unchanged (A : Type) (key : str) (record : PyRecord)
      (m : M RState A) (w : World) (e : exn) :
  find (book w) key = Some record ->
  m (mkRState (heap w) record) = (Raise e, mkRState (heap w) record) ->
  Handlers.on_record key record m w = (Raise e, w).
Proof.
  intros F E. unfold Handlers.on_record. rewrite E. cbn [self next_oid].
  rewrite dict_setitem_same by exact F. now rewrite World_eta.
Qed.

Lemma add_contact_existing_run (n phone : str) (rest : list str) (w : World)
      (record : PyRecord) :
  find (book w) n = Some record -> Phone_check phone = Ok tt ->
  Handlers.add_contact (n :: phone :: rest) w
  = (Ok (Returned (lit "Contact updated.")),
     mkWorld (dict_setitem n
                (mkRecord (name record)
                          (phones record ++ [mkPhone (heap w) phone])
                          (birthday record))
                (book w))
             (S (heap w))).
Proof.
  intros F V. pose proof (Phone_check_nonempty phone V) as NE.
  unfold Handlers.add_contact, Handlers.input_error.
  unfold bind at 1, get at 1. rewrite F. unfold bind at 1, ret at 1.
  cbn [fst snd]. unfold bind at 1.
  destruct phone as [|c phone]; [now elim NE|].
  unfold Handlers.on_record. rewrite (add_phone_Ok _ _ V).
  cbn [self next_oid name phones birthday]. reflexivity.
Qed.

Lemma add_contact_existing_invalid (n phone : str) (rest : list str)
      (w : World) (record : PyRecord) :
  find (book w) n = Some record -> phone <> [] ->
  Phone_check phone <> Ok tt ->
  Handlers.add_contact (n :: phone :: rest) w
  = (Ok (Caught (Text (lit "Phone number must be 10 digits"))), w).
Proof.
  intros F NE V.
  unfold Handlers.add_contact, Handlers.input_error.
  unfold bind at 1, get at 1. rewrite F. unfold bind at 1, ret at 1.
  cbn [fst snd]. unfold bind at 1.
  destruct phone as [|c phone]; [now elim NE|].
  rewrite (on_record_unchanged _ n record _ w _ F
             (add_phone_Raise _ _ V)).
  reflexivity.
Qed.

Lemma add_contact_existing_no_phone (n : str) (rest : list str) (w : World)
      (record : PyRecord) :
  find (book w) n = Some record ->
  Handlers.add_contact (n :: [] :: rest) w
  = (Ok (Returned (lit "Contact updated.")), w).
Proof.
  intros F. unfold Handlers.add_contact, Handlers.input_error.
  unfold bind at 1, get at 1. rewrite F. reflexivity.
Qed.

Lemma add_contact_new_no_phone (n : str) (rest : list str) (w : World) :
  find (book w) n = None ->
  Handlers.add_contact (n :: [] :: rest) w
  = (Ok (Returned (lit "Contact added.")),
     mkWorld (book w ++ [(n, mkRecord (mkName n) [] None)]) (heap w)).
Proof.
  intros F. unfold Handlers.add_contact, Handlers.input_error.
  unfold bind at 1, get at 1. rewrite F.
  unfold bind at 1, bind at 1, lift at 1, Record_init, Name_init, rbind.
  unfold bind at 1, Handlers.in_book, add_record.
  cbn [book heap name Name_value].
  apply dict_get_None in F. rewrite dict_setitem_absent by exact F.
  reflexivity.
Qed.

Lemma add_contact_new_invalid (n phone : str) (rest : list str) (w : World) :
  find (book w) n = None -> phone <> [] -> Phone_check phone <> Ok tt ->
  Handlers.add_contact (n :: phone :: rest) w
  = (Ok (Caught (Text (lit "Phone number must be 10 digits"))),
     mkWorld (book w ++ [(n, mkRecord (mkName n) [] None)]) (heap w)).
Proof.
  intros F NE V.
  assert (G : dict_get n (book w ++ [(n, mkRecord (mkName n) [] None)])
              = Some (mkRecord (mkName n) [] None)).
  { apply dict_get_Some. exists (book w), []. split; [reflexivity|].
    now apply dict_get_None. }
  unfold Handlers.add_contact, Handlers.input_error.
  unfold bind at 1, get at 1. rewrite F.
  unfold bind at 1, bind at 1, lift at 1, Record_init, Name_init, rbind.
  unfold bind at 1, Handlers.in_book, add_record.
  cbn [book heap name Name_value].
  apply dict_get_None in F. rewrite dict_setitem_absent by exact F.
  unfold ret at 1. cbn [fst snd]. unfold bind at 1.
  destruct phone as [|c phone]; [now elim NE|].
  unfold Handlers.on_record. cbn [heap book].
  rewrite add_phone_Raise by exact V. cbn [self next_oid].
  rewrite dict_setitem_same by exact G. reflexivity.
Qed.

Lemma add_contact_new_run (n phone : str) (rest : list str) (w : World) :
  find (book w) n = None -> Phone_check phone = Ok tt ->
  Handlers.add_contact (n :: phone :: rest) w
  = (Ok (Returned (lit "Contact added.")),
     mkWorld (book w
              ++ [(n, mkRecord (mkName n) [mkPhone (heap w) phone] None)])
             (S (heap w))).
Proof.
  intros F V. pose proof (Phone_check_nonempty phone V) as NE.
  unfold Handlers.add_contact, Handlers.input_error.
  unfold bind at 1, get at 1. rewrite F.
  unfold bind at 1, bind at 1, lift at 1, Record_init, Name_init, rbind.
  unfold bind at 1, Handlers.in_book, add_record.
  cbn [book heap name Name_value].
  apply dict_get_None in F. rewrite dict_setitem_absent by exact F.
  unfold ret at 1. cbn [fst snd]. unfold bind at 1.
  destruct phone as [|c phone]; [now elim NE|].
  unfold Handlers.on_record. cbn [heap book].
  rewrite (add_phone_Ok _ _ V). cbn [self next_oid name phones birthday app].
  unfold ret. rewrite dict_setitem_present by exact F. reflexivity.
Qed.


(** X14. [add_contact] is not all or nothing: for a name the book does
    not have and a number that is not valid, the reply is the message of
    [Phone], and yet the contact is in the book afterwards, with no
    phone and no birthday. *)
Theorem add_contact_invalid_phone_keeps_contact
        (n phone : str) (rest : list str) (w : World) :
  find (book w) n = None -> phone <> [] -> Phone_check phone <> Ok tt ->
  Handlers.add_contact (n :: phone :: rest) w
  = (Ok (Caught (Text (lit "Phone number must be 10 digits"))),
     mkWorld (book w ++ [(n, mkRecord (mkName n) [] None)]) (heap w))
  /\ find (book w ++ [(n, mkRecord (mkName n) [] None)]) n
     = Some (mkRecord (mkName n) [] None).
Proof.
  intros F NE V. split; [now apply add_contact_new_invalid|].
  apply dict_get_Some. exists (book w), []. split; [reflexivity|].
  now apply dict_get_None.
Qed.

(** X15. [add_contact] on a name the book does not have, with a valid
    number: the reply is "Contact added." and the book has one more
    entry, at the end, a record with that name, that one phone and no
    birthday. *)
Theorem add_contact_new (n phone : str) (rest : list str) (w : World) :
  find (book w) n = None -> Phone_check phone = Ok tt ->
  Handlers.add_contact (n :: phone :: rest) w
  = (Ok (Returned (lit "Contact added.")),
     mkWorld (book w
              ++ [(n, mkRecord (mkName n) [mkPhone (heap w) phone] None)])
             (S (heap w))).
Proof. apply add_contact_new_run. Qed.

(** X16. A handler called with too few arguments answers with the text
    of the [ValueError] that unpacking raises, and changes nothing; the
    message "Not enough arguments. Try again." is not what comes back. *)
Theorem too_few_arguments (w : World) :
  (forall args, (List.length args < 2)%nat ->
     Handlers.add_contact args w = (Ok (Caught RuntimeText), w))
  /\ (forall args, (List.length args < 3)%nat ->
        Handlers.change_contact args w = (Ok (Caught RuntimeText), w))
  /\ Handlers.show_phone [] w = (Ok (Caught RuntimeText), w)
  /\ (forall args, (List.length args < 2)%nat ->
        Handlers.add_birthday args w = (Ok (Caught RuntimeText), w))
  /\ Handlers.show_birthday [] w = (Ok (Caught RuntimeText), w).
Proof.
  repeat split.
  - intros [|a [|b args]] H; try reflexivity. cbn in H. lia.
  - intros [|a [|b [|c args]]] H; try reflexivity. cbn in H. lia.
  - intros [|a [|b args]] H; try reflexivity. cbn in H. lia.
Qed.

(** X17. A command about a name the book does not have answers "This
    contact does not exist." and changes nothing. *)
Theorem unknown_contact (w : World) (n : str) :
  find (book w) n = None ->
  (forall o nw rest,
      Handlers.change_contact (n :: o :: nw :: rest) w
      = (Ok (Caught (Text (lit "This contact does not exist."))), w))
  /\ (forall rest,
         Handlers.show_phone (n :: rest) w
         = (Ok (Caught (Text (lit "This contact does not exist."))), w))
  /\ (forall b rest,
         Handlers.add_birthday (n :: b :: rest) w
         = (Ok (Caught (Text (lit "This contact does not exist."))), w))
  /\ (forall rest,
         Handlers.show_birthday (n :: rest) w
         = (Ok (Caught (Text (lit "This contact does not exist."))), w)).
Proof.
  intros F. repeat split; intros.
  - unfold Handlers.change_contact, Handlers.input_error, bind, get.
    now rewrite F.
  - unfold Handlers.show_phone, Handlers.input_error, bind, get.
    now rewrite F.
  - unfold Handlers.add_birthday, Handlers.input_error, bind, get.
    now rewrite F.
  - unfold Handlers.show_birthday, Handlers.input_error, bind, get.
    now rewrite F.
Qed.

(** X18. [change_contact] is all or nothing on the book: whenever it
    answers with a message of failure the world is as before, and when
    it answers "Contact updated." the record under that name has the
    same name, the same birthday and as many phones as before, the new
    number last, every other name being found as before. *)
Theorem change_contact_all_or_nothing (args : list str) (w : World) :
  exists r w',
    Handlers.change_contact args w = (Ok r, w')
    /\ ((exists m, r = Caught m /\ w' = w)
        \/ (r = Returned (lit "Contact updated.")
            /\ exists n o nw rest record l',
                args = n :: o :: nw :: rest
                /\ find (book w) n = Some record
                /\ List.length (phones record) = S (List.length l')
                /\ incl l' (phones record)
                /\ find (book w') n
                   = Some (mkRecord (name record)
                                    (l' ++ [mkPhone (heap w) nw])
                                    (birthday record))
                /\ (forall k, k <> n -> find (book w') k = find (book w) k)
                /\ dict_keys (book w') = dict_keys (book w))).
Proof.
  destruct args as [|n [|o [|nw rest]]];
    try (exists (Caught RuntimeText), w; split; [reflexivity|left; eauto]).
  destruct (find (book w) n) as [record|] eqn:F.
  - destruct (edit_phone o nw (mkRState (heap w) record)) as [res st'] eqn:E.
    destruct (edit_phone_outcomes o nw _ res st' E)
      as [[-> ->]|[[-> ->]|(-> & V & p & l' & Hin & Hv & R & L & ->)]].
    + eexists _, w. split; [|left; eauto].
      unfold Handlers.change_contact, Handlers.input_error.
      unfold bind at 1, get at 1. rewrite F. unfold bind at 1.
      rewrite (on_record_unchanged _ n record _ w _ F E). reflexivity.
    + eexists _, w. split; [|left; eauto].
      unfold Handlers.change_contact, Handlers.input_error.
      unfold bind at 1, get at 1. rewrite F. unfold bind at 1.
      rewrite (on_record_unchanged _ n record _ w _ F E). reflexivity.
    + eexists _, _. split.
      * unfold Handlers.change_contact, Handlers.input_error.
        unfold bind at 1, get at 1. rewrite F. unfold bind at 1.
        unfold Handlers.on_record. rewrite E. unfold ret. reflexivity.
      * right. split; [reflexivity|].
        exists n, o, nw, rest, record, l'. cbn [self next_oid book heap name
          phones birthday] in *.
        split; [reflexivity|]. split; [exact F|]. split; [exact L|].
        split; [now apply list_remove_incl with p|].
        split; [apply dict_get_setitem|]. split.
        -- intros k Hk. now apply dict_get_setitem_other.
        -- now apply dict_keys_setitem_present with record.
  - exists (Caught (Text (lit "This contact does not exist."))), w.
    split; [|left; eauto].
    unfold Handlers.change_contact, Handlers.input_error, bind, get.
    now rewrite F.
Qed.

(** X19. What [add_contact] stores, [show_phone] shows: after a number
    was added for a name, the phones shown for that name are the ones
    it had, in their order, followed by the new one. *)
Theorem add_then_show_phone (n phone : str) (rest rest' : list str)
        (w : World) :
  Phone_check phone = Ok tt ->
  exists w',
    snd (Handlers.add_contact (n :: phone :: rest) w) = w'
    /\ Handlers.show_phone (n :: rest') w'
       = (Ok (Returned
                (join (lit "; ")
                      (match find (book w) n with
                       | Some record => map Phone_value (phones record)
                       | None => []
                       end ++ [phone]))), w').
Proof.
  intros V. eexists. split; [reflexivity|].
  assert (Show : forall w' l,
             find (book w') n = Some l -> phones l <> [] ->
             Handlers.show_phone (n :: rest') w'
             = (Ok (Returned (join (lit "; ") (map Phone_value (phones l)))),
                w')).
  { intros w' l F NE.
    unfold Handlers.show_phone, Handlers.input_error, bind, get, ret.
    rewrite F. destruct (phones l); [now elim NE|reflexivity]. }
  destruct (find (book w) n) as [record|] eqn:F.
  - rewrite (add_contact_existing_run n phone rest w record F V). cbn [snd].
    rewrite (Show _ (mkRecord (name record)
                              (phones record ++ [mkPhone (heap w) phone])
                              (birthday record)));
      cbn [phones book].
    + now rewrite map_app.
    + apply dict_get_setitem.
    + now destruct (phones record).
  - rewrite (add_contact_new_run n phone rest w F V). cbn [snd].
    rewrite (Show _ (mkRecord (mkName n) [mkPhone (heap w) phone] None)).
    + reflexivity.
    + cbn [book]. unfold find. apply dict_get_Some.
      exists (book w), []. split; [reflexivity|]. now apply dict_get_None.
    + discriminate.
Qed.

(** X20. [birthdays] never lets the [ValueError] of the query through:
    with a record born on 29 February in the book and a year that is
    not a leap year, it answers with the text of that error and changes
    nothing. *)
Theorem birthdays_feb_29_reply (today : date) (args : list str) (w : World) :
  _is_leap (year today) = false ->
  (exists r, In r (dict_values (book w)) /\ born_feb_29 r) ->
  Handlers.birthdays today args w = (Ok (Caught RuntimeText), w).
Proof.
  intros L E. unfold Handlers.birthdays, Handlers.input_error.
  unfold bind at 1, get at 1. unfold bind at 1, lift at 1.
  unfold get_upcoming_birthdays.
  now rewrite (upcoming_loop_feb_29 today _ L E []).
Qed.


End HandlersMore.

(* ===================================================================== *)
(** ** Further facts: parse_input and the command loop *)
(* ===================================================================== *)

Section LoopMore.
Context {U : UnicodeData} {T : UnicodeText}.

Lemma split_from_words (s : str) :
  forall word,
    Forall (fun c => is_space c = false) word ->
    Forall word_ok (split_from word s).
Proof.
  induction s as [|c t IH]; intros word W; cbn [split_from].
  - destruct word as [|a word]; constructor; [|constructor].
    split; [discriminate|exact W].
  - destruct (is_space c) eqn:S.
    + destruct word as [|a word]; [now apply IH|].
      constructor; [split; [discriminate|exact W]|now apply IH].
    + apply IH. apply Forall_app. split; [exact W|now repeat constructor].
Qed.

Lemma split_from_nil (s : str) :
  forall word,
    split_from word s = []
    <-> word = [] /\ Forall (fun c => is_space c = true) s.
Proof.
  induction s as [|c t IH]; intros word; cbn [split_from].
  - destruct word; split; try discriminate; auto.
    intros [E _]. discriminate E.
  - destruct (is_space c) eqn:S.
    + destruct word as [|a word].
      * rewrite IH. split; intros [A B]; split; auto.
        now inversion B.
      * split; [discriminate|]. intros [E _]. discriminate E.
    + rewrite IH. split.
      * intros [E _]. destruct word; discriminate E.
      * intros [_ F]. inversion F; subst. congruence.
Qed.

Lemma lstrip_space_word (s : str) :
  Forall (fun c => is_space c = false) s -> lstrip_space s = s.
Proof.
  intros F. destruct s as [|c t]; [reflexivity|]. cbn.
  inversion F as [|? ? H _]. now rewrite H.
Qed.

Lemma strip_word (s : str) : word_ok s -> strip s = s.
Proof.
  intros [_ F]. unfold strip. rewrite (lstrip_space_word s F).
  rewrite lstrip_space_word; [apply rev_involutive|].
  now apply Forall_rev.
Qed.

Lemma parse_input_Returned (s : str) (w : World) (cmd : str)
      (args : list str) :
  split s = cmd :: args ->
  Handlers.parse_input s w = (Ok (Returned (lower cmd, args)), w)
  /\ Forall word_ok (cmd :: args).
Proof.
  intros E. pose proof (split_from_words s [] (Forall_nil _)) as W.
  fold (split s) in W. rewrite E in W. split; [|exact W].
  unfold Handlers.parse_input, Handlers.input_error. rewrite E.
  unfold ret. rewrite strip_word; [reflexivity|now inversion W].
Qed.

Lemma parse_input_blank (s : str) (w : World) :
  split s = [] ->
  Handlers.parse_input s w = (Ok (Caught RuntimeText), w).
Proof.
  intros E. unfold Handlers.parse_input, Handlers.input_error.
  now rewrite E.
Qed.

(** X22. [parse_input] cuts the line at whitespace: the command is the
    first word in lower case and the arguments are the other words, none
    of them empty and none with whitespace in it. A line of whitespace
    only has no word: the reply is then the text of the [ValueError] of
    unpacking, not a command. *)
Theorem parse_input_words (s : str) (w : World) :
  (Forall (fun c => is_space c = true) s ->
   Handlers.parse_input s w = (Ok (Caught RuntimeText), w))
  /\ (~ Forall (fun c => is_space c = true) s ->
      exists cmd args,
        split s = cmd :: args
        /\ Handlers.parse_input s w = (Ok (Returned (lower cmd, args)), w)
        /\ Forall word_ok (cmd :: args)).
Proof.
  split.
  - intros F. apply parse_input_blank. now apply split_from_nil.
  - intros N. destruct (split s) as [|cmd args] eqn:E.
    + elim N. now apply (split_from_nil s []).
    + exists cmd, args. split; [reflexivity|].
      now apply parse_input_Returned.
Qed.

(** The handlers that only look. *)
Lemma show_phone_total (args : list str) (w : World) :
  exists r, Handlers.show_phone args w = (Ok r, w).
Proof.
  unfold Handlers.show_phone, Handlers.input_error, bind, get, ret, raise.
  destruct args as [|n rest]; [eauto|].
  destruct (find (book w) n); eauto.
Qed.

Lemma show_all_total (args : list str) (w : World) :
  exists r, Handlers.show_all args w = (Ok r, w).
Proof.
  unfold Handlers.show_all, Handlers.input_error, bind, get, ret.
  destruct (book w); eauto.
Qed.

Lemma show_birthday_total (args : list str) (w : World) :
  exists r, Handlers.show_birthday args w = (Ok r, w).
Proof.
  unfold Handlers.show_birthday, Handlers.input_error, bind, get, ret, raise.
  destruct args as [|n rest]; [eauto|].
  destruct (find (book w) n); eauto.
Qed.

Lemma birthdays_total (today : date) (args : list str) (w : World) :
  exists r, Handlers.birthdays today args w = (Ok r, w).
Proof.
  unfold Handlers.birthdays, Handlers.input_error.
  unfold bind at 1, get at 1. unfold bind at 1, lift at 1.
  destruct (get_upcoming_birthdays today (book w)) as [out|e] eqn:E.
  - unfold ret. destruct out; eauto.
  - unfold get_upcoming_birthdays in E.
    rewrite (upcoming_loop_raises _ _ _ _ E). eauto.
Qed.

(** The handlers that change the book. *)
Lemma add_contact_cases (args : list str) (w : World) :
  exists r w',
    Handlers.add_contact args w = (Ok r, w')
    /\ (w' = w
        \/ (exists n phone rest record,
               args = n :: phone :: rest
               /\ find (book w) n = Some record
               /\ Phone_check phone = Ok tt
               /\ w' = mkWorld
                         (dict_setitem n
                            (mkRecord (name record)
                                      (phones record
                                         ++ [mkPhone (heap w) phone])
                                      (birthday record))
                            (book w))
                         (S (heap w)))
        \/ (exists n phone rest,
               args = n :: phone :: rest
               /\ find (book w) n = None
               /\ ((Phone_check phone = Ok tt
                    /\ w' = mkWorld
                              (book w
                               ++ [(n, mkRecord (mkName n)
                                                [mkPhone (heap w) phone]
                                                None)])
                              (S (heap w)))
                   \/ w' = mkWorld
                             (book w ++ [(n, mkRecord (mkName n) [] None)])
                             (heap w)))).
Proof.
  destruct args as [|n [|phone rest]];
    try (exists (Caught RuntimeText), w; split; [reflexivity|now left]).
  destruct (find (book w) n) as [record|] eqn:F.
  - destruct phone as [|c phone].
    + rewrite (add_contact_existing_no_phone n rest w record F).
      eexists _, _. split; [reflexivity|]. now left.
    + destruct (Phone_check_cases (c :: phone)) as [V|V].
      * rewrite (add_contact_existing_run n _ rest w record F V).
        eexists _, _. split; [reflexivity|].
        right. left. exists n, (c :: phone), rest, record. auto.
      * rewrite (add_contact_existing_invalid n (c :: phone) rest w record F)
          by (discriminate || congruence).
        eexists _, _. split; [reflexivity|]. now left.
  - destruct phone as [|c phone].
    + rewrite (add_contact_new_no_phone n rest w F).
      eexists _, _. split; [reflexivity|].
      right. right. exists n, [], rest. auto.
    + destruct (Phone_check_cases (c :: phone)) as [V|V].
      * rewrite (add_contact_new_run n _ rest w F V).
        eexists _, _. split; [reflexivity|].
        right. right. exists n, (c :: phone), rest. auto.
      * rewrite (add_contact_new_invalid n (c :: phone) rest w F)
          by (discriminate || congruence).
        eexists _, _. split; [reflexivity|].
        right. right. exists n, (c :: phone), rest. auto.
Qed.

Lemma change_contact_cases (args : list str) (w : World) :
  exists r w',
    Handlers.change_contact args w = (Ok r, w')
    /\ (w' = w
        \/ exists n o nw rest record l',
            args = n :: o :: nw :: rest
            /\ find (book w) n = Some record
            /\ Phone_check nw = Ok tt
            /\ incl l' (phones record)
            /\ w' = mkWorld
                      (dict_setitem n
                         (mkRecord (name record)
                                   (l' ++ [mkPhone (heap w) nw])
                                   (birthday record))
                         (book w))
                      (S (heap w))).
Proof.
  destruct args as [|n [|o [|nw rest]]];
    try (exists (Caught RuntimeText), w; split; [reflexivity|now left]).
  destruct (find (book w) n) as [record|] eqn:F.
  - destruct (edit_phone o nw (mkRState (heap w) record)) as [res st'] eqn:E.
    destruct (edit_phone_outcomes o nw _ res st' E)
      as [[-> ->]|[[-> ->]|(-> & V & p & l' & Hin & Hv & R & L & ->)]].
    + eexists _, w. split; [|now left].
      unfold Handlers.change_contact, Handlers.input_error.
      unfold bind at 1, get at 1. rewrite F. unfold bind at 1.
      rewrite (on_record_unchanged _ n record _ w _ F E). reflexivity.
    + eexists _, w. split; [|now left].
      unfold Handlers.change_contact, Handlers.input_error.
      unfold bind at 1, get at 1. rewrite F. unfold bind at 1.
      rewrite (on_record_unchanged _ n record _ w _ F E). reflexivity.
    + eexists _, _. split.
      * unfold Handlers.change_contact, Handlers.input_error.
        unfold bind at 1, get at 1. rewrite F. unfold bind at 1.
        unfold Handlers.on_record. rewrite E. unfold ret. reflexivity.
      * right. exists n, o, nw, rest, record, l'.
        cbn [self next_oid] in *. repeat split; auto.
        now apply list_remove_incl with p.
  - exists (Caught (Text (lit "This contact does not exist."))), w.
    split; [|now left].
    unfold Handlers.change_contact, Handlers.input_error, bind, get.
    now rewrite F.
Qed.

Lemma add_birthday_cases (args : list str) (w : World) :
  exists r w',
    Handlers.add_birthday args w = (Ok r, w')
    /\ (w' = w
        \/ exists n b rest record,
            args = n :: b :: rest
            /\ find (book w) n = Some record
            /\ (exists dt, reads_as b dt)
            /\ w' = mkWorld
                      (dict_setitem n
                         (mkRecord (name record) (phones record)
                                   (Some (mkBirthday b)))
                         (book w))
                      (heap w)).
Proof.
  destruct args as [|n [|b rest]];
    try (exists (Caught RuntimeText), w; split; [reflexivity|now left]).
  destruct (find (book w) n) as [record|] eqn:F.
  - unfold Handlers.add_birthday, Handlers.input_error.
    unfold bind at 1, get at 1. rewrite F. unfold bind at 1.
    unfold Handlers.on_record, add_birthday, bind, lift, set_birthday.
    destruct (Birthday_init b) as [bb|e] eqn:Eb.
    + apply Birthday_init_spec in Eb. destruct Eb as [-> H].
      cbn [self next_oid name phones]. unfold ret.
      eexists _, _. split; [reflexivity|]. right.
      exists n, b, rest, record. auto.
    + cbn [self next_oid]. rewrite dict_setitem_same by exact F.
      rewrite World_eta.
      unfold Birthday_init, except_ValueError, rbind in Eb.
      destruct (strptime_dmY b) as [dt|e'] eqn:P; [discriminate|].
      rewrite (strptime_raises b e' P) in Eb. inversion Eb; subst.
      eexists _, w. split; [reflexivity|now left].
  - exists (Caught (Text (lit "This contact does not exist."))), w.
    split; [|now left].
    unfold Handlers.add_birthday, Handlers.input_error, bind, get.
    now rewrite F.
Qed.

(** X12. No exception leaves a handler: whatever the arguments and the
    book, each of them gives back a text. The handlers that show
    something leave the world as it is. *)
Theorem handlers_never_raise (today : date) (args : list str) (w : World) :
  (exists r w', Handlers.add_contact args w = (Ok r, w'))
  /\ (exists r w', Handlers.change_contact args w = (Ok r, w'))
  /\ (exists r w', Handlers.add_birthday args w = (Ok r, w'))
  /\ (exists r, Handlers.show_phone args w = (Ok r, w))
  /\ (exists r, Handlers.show_all args w = (Ok r, w))
  /\ (exists r, Handlers.show_birthday args w = (Ok r, w))
  /\ (exists r, Handlers.birthdays today args w = (Ok r, w)).
Proof.
  split; [destruct (add_contact_cases args w) as (r & w' & E & _); eauto|].
  split; [destruct (change_contact_cases args w) as (r & w' & E & _); eauto|].
  split; [destruct (add_birthday_cases args w) as (r & w' & E & _); eauto|].
  split; [apply show_phone_total|]. split; [apply show_all_total|].
  split; [apply show_birthday_total|apply birthdays_total].
Qed.

End LoopMore.

Section InvariantMore.
Context {U : UnicodeData} {T : UnicodeText}.

Lemma heap_consistent_incl (l l' : list Phone) :
  incl l' l -> heap_consistent l -> heap_consistent l'.
Proof. intros I C p q Hp Hq. apply C; now apply I. Qed.

Lemma record_inv_mono (h h' : nat) (r : PyRecord) :
  (h <= h')%nat -> record_inv h r -> record_inv h' r.
Proof.
  intros L (F & C & O). repeat split; try apply F; [exact C|].
  eapply Forall_impl; [|exact O]. cbn. lia.
Qed.

Lemma World_inv_replace (w : World) (n : str) (record r' : PyRecord)
      (h' : nat) :
  World_inv w -> find (book w) n = Some record ->
  name r' = name record -> record_inv h' r' -> (heap w <= h')%nat ->
  World_inv (mkWorld (dict_setitem n r' (book w)) h').
Proof.
  intros ((W & K) & Ws & Rs) F N R L.
  apply dict_get_Some in F. destruct F as (l1 & l2 & E & A).
  unfold World_inv. cbn [book heap]. rewrite E in *.
  rewrite dict_setitem_present by exact A.
  apply Forall_app in K. destruct K as [K1 K2].
  inversion K2 as [|? ? Kn K3]. cbn [fst snd] in Kn.
  unfold dict_values in Rs. rewrite map_app in Rs. cbn [map snd] in Rs.
  apply Forall_app in Rs. destruct Rs as [R1 R2].
  inversion R2 as [|? ? _ R3].
  split; [split|split].
  - now apply dict_wf_replace with record.
  - apply Forall_app. split; [exact K1|]. constructor; [|exact K3].
    cbn [fst snd]. now rewrite N.
  - unfold dict_keys in *. rewrite map_app in *. exact Ws.
  - unfold dict_values. rewrite map_app. cbn [map snd].
    apply Forall_app. split.
    + eapply Forall_impl; [|exact R1]. intros a. now apply record_inv_mono.
    + constructor; [exact R|].
      eapply Forall_impl; [|exact R3]. intros a. now apply record_inv_mono.
Qed.

Lemma World_inv_append (w : World) (n : str) (r : PyRecord) (h' : nat) :
  World_inv w -> find (book w) n = None -> word_ok n ->
  Name_value (name r) = n -> record_inv h' r -> (heap w <= h')%nat ->
  World_inv (mkWorld (book w ++ [(n, r)]) h').
Proof.
  intros ((W & K) & Ws & Rs) F Wn N R L.
  apply dict_get_None in F.
  unfold World_inv. cbn [book heap].
  split; [split|split].
  - now apply dict_wf_append.
  - apply Forall_app. split; [exact K|].
    constructor; [cbn [fst snd]; now rewrite N|constructor].
  - rewrite dict_keys_app. apply Forall_app. split; [exact Ws|].
    constructor; [exact Wn|constructor].
  - unfold dict_values. rewrite map_app. apply Forall_app. split.
    + eapply Forall_impl; [|exact Rs]. intros a. now apply record_inv_mono.
    + constructor; [exact R|constructor].
Qed.

Lemma World_inv_record (w : World) (n : str) (record : PyRecord) :
  World_inv w -> find (book w) n = Some record -> record_inv (heap w) record.
Proof.
  intros (_ & _ & Rs) F. apply dict_get_Some in F.
  destruct F as (l1 & l2 & E & _). rewrite Forall_forall in Rs.
  apply Rs. unfold dict_values. rewrite E, map_app. apply in_or_app.
  right. now left.
Qed.

Lemma record_inv_new_phone (h : nat) (r : PyRecord) (l' : list Phone)
      (s : str) :
  record_inv h r -> incl l' (phones r) -> Phone_check s = Ok tt ->
  record_inv (S h) (mkRecord (name r) (l' ++ [mkPhone h s]) (birthday r)).
Proof.
  intros ((P & B) & C & O) I V.
  assert (O' : Forall (fun p => (oid p < h)%nat) l').
  { rewrite Forall_forall in *. auto. }
  split; [split|split]; cbn [phones birthday].
  - apply Forall_app. split; [|now repeat constructor].
    rewrite Forall_forall in *. auto.
  - exact B.
  - apply heap_consistent_fresh; [|exact O'].
    now apply heap_consistent_incl with (phones r).
  - apply Forall_app. split.
    + eapply Forall_impl; [|exact O']. cbn. lia.
    + constructor; [cbn; lia|constructor].
Qed.

Lemma record_inv_empty (h : nat) (n : str) :
  record_inv h (mkRecord (mkName n) [] None).
Proof.
  split; [split|split]; cbn; try constructor; try discriminate.
  intros ? ? [].
Qed.

Lemma add_contact_inv (args : list str) (w : World) :
  Forall word_ok args -> World_inv w ->
  World_inv (snd (Handlers.add_contact args w)).
Proof.
  intros Wa I.
  destruct (add_contact_cases args w)
    as (r & w' & -> & [->|[(n & phone & rest & record & -> & F & V & ->)
                          |(n & phone & rest & -> & F & H)]]); cbn [snd].
  - exact I.
  - apply World_inv_replace with (record := record); auto.
    apply record_inv_new_phone; auto using incl_refl.
    now apply (World_inv_record w n).
  - inversion Wa as [|? ? Wn _]; subst.
    destruct H as [[V ->]| ->].
    + apply World_inv_append; auto.
      apply (record_inv_new_phone (heap w) (mkRecord (mkName n) [] None) []);
        auto using incl_refl, record_inv_empty.
    + apply World_inv_append; auto using record_inv_empty.
Qed.

Lemma change_contact_inv (args : list str) (w : World) :
  World_inv w -> World_inv (snd (Handlers.change_contact args w)).
Proof.
  intros I.
  destruct (change_contact_cases args w)
    as (r & w' & -> & [->|(n & o & nw & rest & record & l' & -> & F & V
                           & Il & ->)]); cbn [snd]; [exact I|].
  apply World_inv_replace with (record := record); auto.
  apply record_inv_new_phone; auto.
  now apply (World_inv_record w n).
Qed.

Lemma add_birthday_inv (args : list str) (w : World) :
  World_inv w -> World_inv (snd (Handlers.add_birthday args w)).
Proof.
  intros I.
  destruct (add_birthday_cases args w)
    as (r & w' & -> & [->|(n & b & rest & record & -> & F & R & ->)]);
    cbn [snd]; [exact I|].
  apply World_inv_replace with (record := record); auto.
  destruct (World_inv_record w n record I F) as ((P & _) & C & O).
  split; [split|split]; cbn [phones birthday]; auto.
  intros b0 [= <-]. exact R.
Qed.

(** What one turn of the loop does with a line that has a word in it. *)
Lemma main_turn_command (today : date) (s : str) (w : World) (cmd : str)
      (args : list str) :
  split s = cmd :: args ->
  exists res w',
    Handlers.main_turn today s w = (Ok res, w')
    /\ (w' = w
        \/ w' = snd (Handlers.add_contact args w)
        \/ w' = snd (Handlers.change_contact args w)
        \/ w' = snd (Handlers.add_birthday args w))
    /\ ((exists out, res = Break out)
        <-> lower cmd = lit "close" \/ lower cmd = lit "exit")
    /\ (forall out, res = Break out ->
          out = [Print (Text (lit "Good bye!"))] /\ w' = w).
Proof.
  intros E. destruct (parse_input_Returned s w cmd args E) as [P _].
  assert (NE : s <> []) by (intros ->; discriminate E).
  unfold Handlers.main_turn. destruct s as [|c0 s0]; [now elim NE|].
  unfold bind at 1. rewrite P. unfold bind at 1, lift at 1.
  cbn [Handlers.unpack_command fst snd].
  destruct (str_eqb (lower cmd) (lit "close")) eqn:C1.
  { apply str_eqb_eq in C1. cbn [orb]. unfold ret. eexists _, _.
    split; [reflexivity|]. split; [now left|]. split.
    - split; eauto.
    - intros out [= <-]. auto. }
  destruct (str_eqb (lower cmd) (lit "exit")) eqn:C2.
  { apply str_eqb_eq in C2. cbn [orb]. unfold ret. eexists _, _.
    split; [reflexivity|]. split; [now left|]. split.
    - split; eauto.
    - intros out [= <-]. auto. }
  apply str_eqb_neq in C1, C2. cbn [orb].
  assert (Go : forall (res : turn) (w' : World) (out : list output),
             res = Continue out ->
             ((exists o, res = Break o)
              <-> lower cmd = lit "close" \/ lower cmd = lit "exit")
             /\ (forall o, res = Break o ->
                   o = [Print (Text (lit "Good bye!"))] /\ w' = w)).
  { intros res w' out ->. split.
    - split; [intros (o & X); discriminate X|tauto].
    - intros o X. discriminate X. }
  destruct (str_eqb (lower cmd) (lit "hello")).
  { unfold ret. eexists _, _. split; [reflexivity|].
    split; [now left|]. now apply Go with (out := [Print (Text (lit "How can I help you?"))]). }
  destruct (str_eqb (lower cmd) (lit "add")).
  { destruct (add_contact_cases args w) as (r & w' & A & _).
    unfold bind. rewrite A. unfold ret. eexists _, _.
    split; [reflexivity|]. cbn [snd].
    split; [right; now left|]. now apply Go with (out := [Handlers.printed r]). }
  destruct (str_eqb (lower cmd) (lit "change")).
  { destruct (change_contact_cases args w) as (r & w' & A & _).
    unfold bind. rewrite A. unfold ret. eexists _, _.
    split; [reflexivity|]. cbn [snd].
    split; [right; right; now left|]. now apply Go with (out := [Handlers.printed r]). }
  destruct (str_eqb (lower cmd) (lit "phone")).
  { destruct (show_phone_total args w) as (r & A).
    unfold bind. rewrite A. unfold ret. eexists _, _.
    split; [reflexivity|].
    split; [now left|]. now apply Go with (out := [Handlers.printed r]). }
  destruct (str_eqb (lower cmd) (lit "all")).
  { destruct (show_all_total args w) as (r & A).
    unfold bind. rewrite A. unfold ret. eexists _, _.
    split; [reflexivity|].
    split; [now left|]. now apply Go with (out := [Handlers.printed r]). }
  destruct (str_eqb (lower cmd) (lit "add-birthday")).
  { destruct (add_birthday_cases args w) as (r & w' & A & _).
    unfold bind. rewrite A. unfold ret. eexists _, _.
    split; [reflexivity|]. cbn [snd].
    split; [right; right; now right|]. now apply Go with (out := [Handlers.printed r]). }
  destruct (str_eqb (lower cmd) (lit "show-birthday")).
  { destruct (show_birthday_total args w) as (r & A).
    unfold bind. rewrite A. unfold ret. eexists _, _.
    split; [reflexivity|].
    split; [now left|]. now apply Go with (out := [Handlers.printed r]). }
  destruct (str_eqb (lower cmd) (lit "birthdays")).
  { destruct (birthdays_total today args w) as (r & A).
    unfold bind. rewrite A. unfold ret. eexists _, _.
    split; [reflexivity|].
    split; [now left|]. now apply Go with (out := [Handlers.printed r]). }
  unfold ret. eexists _, _. split; [reflexivity|].
  split; [now left|]. now apply Go with (out := [Print (Text (lit "Invalid command."))]).
Qed.

Lemma main_turn_blank (today : date) (s : str) (w : World) :
  s <> [] -> split s = [] ->
  Handlers.main_turn today s w = (Raise (ValueError None), w).
Proof.
  intros NE E. unfold Handlers.main_turn. destruct s; [now elim NE|].
  unfold bind at 1. rewrite (parse_input_blank _ w E). reflexivity.
Qed.

(** X23. A line that is not empty and is made of whitespace only stops
    the program: the message [parse_input] gave back is unpacked as if
    it were a command, which raises a [ValueError] that nothing catches.
    No other line makes a turn of the loop raise. *)
Theorem blank_line_stops_main (today : date) (s : str) (w : World) :
  ((exists e w', Handlers.main_turn today s w = (Raise e, w'))
   <-> s <> [] /\ Forall (fun c => is_space c = true) s)
  /\ (s <> [] -> Forall (fun c => is_space c = true) s ->
      forall rest,
        Handlers.main_loop ((today, s) :: rest) w
        = ([Prompt (lit "Enter a command: ")], Uncaught (ValueError None), w)).
Proof.
  assert (B : s <> [] -> Forall (fun c => is_space c = true) s ->
              Handlers.main_turn today s w = (Raise (ValueError None), w)).
  { intros NE F. apply main_turn_blank; [exact NE|].
    now apply (split_from_nil s []). }
  split.
  - split.
    + intros (e & w' & E). destruct s as [|c s0]; [discriminate E|].
      split; [discriminate|].
      destruct (split (c :: s0)) as [|cmd args] eqn:S.
      * now apply (split_from_nil (c :: s0) []) in S.
      * destruct (main_turn_command today _ w cmd args S)
          as (res & w1 & E1 & _). rewrite E1 in E. discriminate.
    + intros [NE F]. rewrite (B NE F). eauto.
  - intros NE F rest. cbn [Handlers.main_loop]. now rewrite (B NE F).
Qed.


Lemma main_turn_inv (today : date) (s : str) (w : World) :
  World_inv w -> World_inv (snd (Handlers.main_turn today s w)).
Proof.
  intros I. destruct s as [|c s0]; [exact I|].
  destruct (split (c :: s0)) as [|cmd args] eqn:S.
  - rewrite main_turn_blank; [exact I|discriminate|exact S].
  - destruct (parse_input_Returned _ w cmd args S) as [_ Wa].
    inversion Wa as [|? ? _ Wargs]; subst.
    destruct (main_turn_command today _ w cmd args S)
      as (res & w' & -> & [->|[->|[->| ->]]] & _); cbn [snd].
    + exact I.
    + now apply add_contact_inv.
    + now apply change_contact_inv.
    + now apply add_birthday_inv.
Qed.

Lemma main_loop_inv (inputs : list (date * str)) :
  forall w, World_inv w -> World_inv (snd (Handlers.main_loop inputs w)).
Proof.
  induction inputs as [|[today s] rest IH]; intros w I;
    cbn [Handlers.main_loop]; [exact I|].
  pose proof (main_turn_inv today s w I) as I1.
  destruct (Handlers.main_turn today s w) as [[[out|out]|e] w1];
    cbn [snd] in I1.
  - specialize (IH w1 I1).
    destruct (Handlers.main_loop rest w1) as [[o e] w2]. exact IH.
  - exact I1.
  - exact I1.
Qed.

(** X24. Whatever is typed, at the end of the run of [main] the book has
    one record per name, each filed under its own name; no name is empty
    or has whitespace in it; every phone in it passed the test of
    [Phone] and every birthday reads as a date. *)
Theorem main_keeps_invariant (inputs : list (date * str)) :
  book_inv (book (snd (Handlers.main inputs)))
  /\ Forall word_ok (dict_keys (book (snd (Handlers.main inputs))))
  /\ Forall fields_valid (dict_values (book (snd (Handlers.main inputs))))
  /\ birthdays_valid (book (snd (Handlers.main inputs))).
Proof.
  assert (I0 : World_inv (mkWorld [] 0)).
  { split; [apply book_inv_empty|split; constructor]. }
  pose proof (main_loop_inv inputs _ I0) as I.
  unfold Handlers.main.
  destruct (Handlers.main_loop inputs (mkWorld [] 0)) as [[o e] w].
  cbn [snd] in *. destruct I as (B & K & R).
  split; [exact B|]. split; [exact K|].
  assert (F : Forall fields_valid (dict_values (book w))).
  { eapply Forall_impl; [|exact R]. now intros r (F & _). }
  split; [exact F|].
  unfold birthdays_valid. eapply Forall_impl; [|exact F].
  intros r [_ Bv] b Hb. destruct (Bv b Hb) as (dt & Rd).
  exists dt. now apply strptime_spec.
Qed.

End InvariantMore.

(* ===================================================================== *)
(** ** The statements at concrete inputs *)
(* ===================================================================== *)

Ltac by_identity :=
  let p := fresh "p" in
  let q := fresh "q" in
  let Hp := fresh "Hp" in
  let Hq := fresh "Hq" in
  let E := fresh "E" in
  intros p q Hp Hq E; cbn in Hp, Hq;
  destruct Hp as [<-|[<-|[<-|[]]]], Hq as [<-|[<-|[<-|[]]]];
  try reflexivity; discriminate E.

Lemma C3_witness :
  (List.length (lit "0501234567") = 10%nat
   /\ Forall (fun c => is_digit (U:=latin1_only) c = true) (lit "0501234567"))
  /\ Phone_init (U:=latin1_only) (lit "0501234567") state0
     = (Ok (mkPhone 0 (lit "0501234567")),
        mkRState 1 (self state0)).
Proof.
  assert (H : List.length (lit "0501234567") = 10%nat
              /\ Forall (fun c => is_digit (U:=latin1_only) c = true)
                        (lit "0501234567")).
  { split; [reflexivity|repeat constructor]. }
  split; [exact H|].
  exact (proj1 (C3_phone_validation (U:=latin1_only) (lit "0501234567") state0) H).
Defined.

Lemma C4_witness :
  valid_date (mkdate 2024 2 29)
  /\ strict_shape (lit "29.02.2024")
  /\ Birthday_init (U:=latin1_only) (lit "29.02.2024")
     = Ok (mkBirthday (lit "29.02.2024")).
Proof.
  assert (V : valid_date (mkdate 2024 2 29)).
  { repeat split; vm_compute; discriminate. }
  split; [exact V|].
  exact (proj1 (proj2 (proj2 (C4_birthday_validation (U:=latin1_only)
                                (lit "29.02.2024"))))
               (mkdate 2024 2 29) V).
Defined.

Lemma C5_witness :
  heap_consistent (phones (self state3))
  /\ edit_phone (U:=latin1_only) (lit "1111111111") (lit "3333333333") state3
     = (Ok tt,
        mkRState 4 (mkRecord (mkName (lit "Ann"))
                             [phone_b; phone_c; mkPhone 3 (lit "3333333333")]
                             None))
  /\ edit_phone (U:=latin1_only) (lit "1111111111") (lit "33") state3
     = (Raise (ValueError (Some "Phone number must be 10 digits"%string)),
        state3)
  /\ edit_phone (U:=latin1_only) (lit "4444444444") (lit "3333333333") state3
     = (Raise (ValueError (Some "Old phone number not found"%string)), state3).
Proof.
  pose proof (C5_edit_phone_all_or_nothing (U:=latin1_only)) as T.
  assert (state3_consistent : heap_consistent (phones (self state3)))
    by by_identity.
  split; [exact state3_consistent|]. split; [|split].
  - refine (proj1 (proj2 (proj2
      (T (lit "1111111111") (lit "3333333333") state3 state3_consistent)))
      [] phone_a [phone_b; phone_c] eq_refl eq_refl _ eq_refl).
    constructor.
  - refine (proj1 (proj1 (proj2
      (T (lit "1111111111") (lit "33") state3 state3_consistent))
      phone_a eq_refl _)).
    discriminate.
  - exact (proj1 (T (lit "4444444444") (lit "3333333333") state3
                    state3_consistent) eq_refl).
Defined.

Lemma C8_witness :
  heap_consistent (phones (self state3))
  /\ find_phone (self state3) (lit "1111111111") = Some phone_a
  /\ remove_phone (lit "1111111111") state3
     = (Ok tt,
        mkRState 3 (mkRecord (mkName (lit "Ann")) [phone_b; phone_c] None))
  /\ remove_phone (lit "4444444444") state3
     = (Raise (ValueError (Some "Phone number not found"%string)), state3).
Proof.
  pose proof (C8_find_and_remove_phone state3) as T.
  assert (state3_consistent : heap_consistent (phones (self state3)))
    by by_identity.
  split; [exact state3_consistent|]. split; [|split].
  - apply (proj1 (T (lit "1111111111") state3_consistent)).
    exists [], [phone_b; phone_c]. repeat split. constructor.
  - refine (proj1 (proj2 (proj2 (T (lit "1111111111") state3_consistent)))
                  [] phone_a [phone_b; phone_c] eq_refl eq_refl _).
    constructor.
  - refine (proj2 (proj2 (proj2 (T (lit "4444444444") state3_consistent))) _).
    repeat constructor; discriminate.
Defined.

Lemma C6_witness :
  book_inv (book_of [contact "Ann" "14.06.1990"; contact "Bob" "29.02.2000"])
  /\ exists data',
      add_record (contact "Ann" "01.01.2001")
                 (book_of [contact "Ann" "14.06.1990";
                           contact "Bob" "29.02.2000"])
      = (Ok tt, data')
      /\ book_inv data'
      /\ find data' (lit "Ann") = Some (contact "Ann" "01.01.2001").
Proof.
  assert (I : book_inv (book_of [contact "Ann" "14.06.1990";
                                 contact "Bob" "29.02.2000"])).
  { split.
    - repeat constructor; cbn; intuition discriminate.
    - repeat constructor. }
  split; [exact I|].
  destruct (C6_one_record_per_name
              (book_of [contact "Ann" "14.06.1990";
                        contact "Bob" "29.02.2000"])
              (contact "Ann" "01.01.2001") I)
    as (data' & E & I' & _ & F & _).
  exists data'. auto.
Defined.

Lemma C7_witness :
  dict_wf (book_of [contact "Ann" "14.06.1990"; contact "Bob" "29.02.2000"])
  /\ delete (lit "Zed")
            (book_of [contact "Ann" "14.06.1990"; contact "Bob" "29.02.2000"])
     = (Ok tt,
        book_of [contact "Ann" "14.06.1990"; contact "Bob" "29.02.2000"])
  /\ exists l1 l2,
      book_of [contact "Ann" "14.06.1990"; contact "Bob" "29.02.2000"]
      = l1 ++ (lit "Ann", contact "Ann" "14.06.1990") :: l2
      /\ delete (lit "Ann")
                (book_of [contact "Ann" "14.06.1990";
                          contact "Bob" "29.02.2000"])
         = (Ok tt, l1 ++ l2)
      /\ find (l1 ++ l2) (lit "Ann") = None.
Proof.
  assert (W : dict_wf (book_of [contact "Ann" "14.06.1990";
                                contact "Bob" "29.02.2000"])).
  { repeat constructor; cbn; intuition discriminate. }
  split; [exact W|]. split.
  - exact (proj2 (C7_delete _ (lit "Zed") W) eq_refl).
  - destruct (proj1 (C7_delete _ (lit "Ann") W)
                    (contact "Ann" "14.06.1990") eq_refl)
      as (l1 & l2 & E & D & F & _).
    exists l1, l2. auto.
Defined.

Lemma C2_witness :
  get_upcoming_birthdays (U:=latin1_only) (mkdate 2024 6 10)
    (book_of [contact "Sat" "15.06.2024"])
  = Ok [mkEntry (lit "Sat") (lit "17.06.2024")]
  /\ exists r b bday cong,
      In r (dict_values (book_of [contact "Sat" "15.06.2024"]))
      /\ birthday r = Some b
      /\ strptime_dmY (U:=latin1_only) (Birthday_value b) = Ok bday
      /\ in_window (mkdate 2024 6 10) bday = true
      /\ shifted (occurrence (mkdate 2024 6 10) bday) cong
      /\ valid_date cong
      /\ mkEntry (lit "Sat") (lit "17.06.2024")
         = mkEntry (Name_value (name r)) (strftime_dmY cong).
Proof.
  assert (H : get_upcoming_birthdays (U:=latin1_only) (mkdate 2024 6 10)
                (book_of [contact "Sat" "15.06.2024"])
              = Ok [mkEntry (lit "Sat") (lit "17.06.2024")]).
  { vm_compute. reflexivity. }
  split; [exact H|].
  apply (proj1 (C2_congratulation_date (U:=latin1_only)
                  (mkdate 2024 6 10) _ _ H)).
  now left.
Defined.

Lemma C10_witness :
  _is_leap (year (mkdate 2023 6 12)) = false
  /\ (exists r,
         In r (dict_values (book_of [contact "Ann" "14.06.1990";
                                     contact "Bob" "29.02.2000"]))
         /\ born_feb_29 (U:=latin1_only) r)
  /\ get_upcoming_birthdays (U:=latin1_only) (mkdate 2023 6 12)
       (book_of [contact "Ann" "14.06.1990"; contact "Bob" "29.02.2000"])
     = Raise (ValueError None).
Proof.
  assert (L : _is_leap (year (mkdate 2023 6 12)) = false) by reflexivity.
  assert (E : exists r,
             In r (dict_values (book_of [contact "Ann" "14.06.1990";
                                         contact "Bob" "29.02.2000"]))
             /\ born_feb_29 (U:=latin1_only) r).
  { exists (contact "Bob" "29.02.2000"). split; [right; now left|].
    exists (mkBirthday (lit "29.02.2000")), (mkdate 2000 2 29).
    repeat split. }
  split; [exact L|]. split; [exact E|].
  exact (proj1 (C10_feb_29_raises (U:=latin1_only) (mkdate 2023 6 12) _ L E)).
Defined.
(* ===================================================================== *)
(** ** The further statements at concrete inputs *)

Lemma add_then_remove_phone_witness :
  RState_wf state3
  /\ Phone_check (U:=latin1_only) (lit "1111111111") = Ok tt
  /\ exists st1,
      add_phone (U:=latin1_only) (lit "1111111111") state3 = (Ok tt, st1)
      /\ remove_phone (lit "1111111111") st1
         = (Ok tt,
            mkRState 4
              (mkRecord (mkName (lit "Ann"))
                        [phone_b; phone_c; mkPhone 3 (lit "1111111111")]
                        None)).
Proof.
  assert (W : RState_wf state3).
  { split.
    - intros p q [<-|[<-|[<-|[]]]] [<-|[<-|[<-|[]]]]; cbn;
        intros; try reflexivity; discriminate.
    - repeat constructor. }
  assert (V : Phone_check (U:=latin1_only) (lit "1111111111") = Ok tt)
    by reflexivity.
  split; [exact W|]. split; [exact V|].
  destruct (add_then_remove_phone (U:=latin1_only) _ state3 W V)
    as (st1 & A & _ & R).
  exists st1. split; [exact A|].
  apply (R [] phone_a [phone_b; phone_c]); [reflexivity|reflexivity|constructor].
Defined.

Lemma upcoming_returns_iff_witness :
  birthdays_valid (U:=latin1_only)
    (book_of [contact "Ann" "14.06.1990"; contact "Bob" "29.02.2000"])
  /\ MINYEAR <= year (mkdate 2024 2 10) < MAXYEAR
  /\ ((exists out,
          get_upcoming_birthdays (U:=latin1_only) (mkdate 2024 2 10)
            (book_of [contact "Ann" "14.06.1990"; contact "Bob" "29.02.2000"])
          = Ok out)
      <-> Forall (answerable (U:=latin1_only) (mkdate 2024 2 10))
            (dict_values
               (book_of [contact "Ann" "14.06.1990";
                         contact "Bob" "29.02.2000"]))).
Proof.
  assert (V : birthdays_valid (U:=latin1_only)
                (book_of [contact "Ann" "14.06.1990";
                          contact "Bob" "29.02.2000"])).
  { constructor; [|constructor; [|constructor]];
      intros b E; vm_compute in E; injection E as E0; subst b;
      eexists; vm_compute; reflexivity. }
  assert (B : MINYEAR <= year (mkdate 2024 2 10) < MAXYEAR)
    by (unfold MINYEAR, MAXYEAR; cbn [year]; lia).
  split; [exact V|]. split; [exact B|].
  exact (proj1 (upcoming_returns_iff (U:=latin1_only) (mkdate 2024 2 10) _ V B)).
Defined.

Lemma upcoming_names_witness :
  get_upcoming_birthdays (U:=latin1_only) (mkdate 2024 6 10)
    (book_of [contact "Sat" "15.06.2024"; contact "Ann" "14.01.1990"])
  = Ok [mkEntry (lit "Sat") (lit "17.06.2024")]
  /\ map entry_name [mkEntry (lit "Sat") (lit "17.06.2024")]
     = map (fun r => Name_value (name r))
           (filter (due (U:=latin1_only) (mkdate 2024 6 10))
              (dict_values
                 (book_of [contact "Sat" "15.06.2024";
                           contact "Ann" "14.01.1990"]))).
Proof.
  assert (H : get_upcoming_birthdays (U:=latin1_only) (mkdate 2024 6 10)
                (book_of [contact "Sat" "15.06.2024";
                          contact "Ann" "14.01.1990"])
              = Ok [mkEntry (lit "Sat") (lit "17.06.2024")]).
  { vm_compute. reflexivity. }
  split; [exact H|].
  exact (proj1 (upcoming_names (U:=latin1_only) (mkdate 2024 6 10) _ _ H)).
Defined.



Lemma add_contact_invalid_phone_keeps_contact_witness :
  find (book (mkWorld [] 0)) (lit "Bob") = None
  /\ lit "12" <> []
  /\ Phone_check (U:=latin1_only) (lit "12") <> Ok tt
  /\ Handlers.add_contact (U:=latin1_only) [lit "Bob"; lit "12"] (mkWorld [] 0)
     = (Ok (Caught (Text (lit "Phone number must be 10 digits"))),
        mkWorld [(lit "Bob", mkRecord (mkName (lit "Bob")) [] None)] 0).
Proof.
  assert (F : find (book (mkWorld [] 0)) (lit "Bob") = None) by reflexivity.
  assert (N : lit "12" <> []) by discriminate.
  assert (V : Phone_check (U:=latin1_only) (lit "12") <> Ok tt)
    by (vm_compute; discriminate).
  split; [exact F|]. split; [exact N|]. split; [exact V|].
  exact (proj1 (add_contact_invalid_phone_keeps_contact
                  (U:=latin1_only) _ _ [] _ F N V)).
Defined.

Lemma add_contact_new_witness :
  find (book (mkWorld [] 0)) (lit "Bob") = None
  /\ Phone_check (U:=latin1_only) (lit "0123456789") = Ok tt
  /\ Handlers.add_contact (U:=latin1_only) [lit "Bob"; lit "0123456789"]
       (mkWorld [] 0)
     = (Ok (Returned (lit "Contact added.")),
        mkWorld [(lit "Bob",
                  mkRecord (mkName (lit "Bob"))
                           [mkPhone 0 (lit "0123456789")] None)] 1).
Proof.
  assert (F : find (book (mkWorld [] 0)) (lit "Bob") = None) by reflexivity.
  assert (V : Phone_check (U:=latin1_only) (lit "0123456789") = Ok tt)
    by reflexivity.
  split; [exact F|]. split; [exact V|].
  exact (add_contact_new (U:=latin1_only) _ _ [] _ F V).
Defined.

Lemma unknown_contact_witness :
  find (book (mkWorld (book_of [contact "Ann" "14.06.1990"]) 0)) (lit "Bob")
  = None
  /\ Handlers.show_birthday [lit "Bob"]
       (mkWorld (book_of [contact "Ann" "14.06.1990"]) 0)
     = (Ok (Caught (Text (lit "This contact does not exist."))),
        mkWorld (book_of [contact "Ann" "14.06.1990"]) 0).
Proof.
  assert (F : find (book (mkWorld (book_of [contact "Ann" "14.06.1990"]) 0))
                (lit "Bob") = None) by reflexivity.
  split; [exact F|].
  exact (proj2 (proj2 (proj2 (unknown_contact (U:=latin1_only) _ _ F))) []).
Defined.

Lemma add_then_show_phone_witness :
  Phone_check (U:=latin1_only) (lit "0123456789") = Ok tt
  /\ exists w',
      snd (Handlers.add_contact (U:=latin1_only)
             [lit "Bob"; lit "0123456789"] (mkWorld [] 0)) = w'
      /\ Handlers.show_phone [lit "Bob"] w'
         = (Ok (Returned (lit "0123456789")), w').
Proof.
  assert (V : Phone_check (U:=latin1_only) (lit "0123456789") = Ok tt)
    by reflexivity.
  split; [exact V|].
  exact (add_then_show_phone (U:=latin1_only) (lit "Bob") _ [] []
           (mkWorld [] 0) V).
Defined.

Lemma birthdays_feb_29_reply_witness :
  _is_leap (year (mkdate 2023 6 12)) = false
  /\ (exists r,
         In r (dict_values
                 (book (mkWorld (book_of [contact "Bob" "29.02.2000"]) 0)))
         /\ born_feb_29 (U:=latin1_only) r)
  /\ Handlers.birthdays (U:=latin1_only) (mkdate 2023 6 12) []
       (mkWorld (book_of [contact "Bob" "29.02.2000"]) 0)
     = (Ok (Caught RuntimeText),
        mkWorld (book_of [contact "Bob" "29.02.2000"]) 0).
Proof.
  assert (L : _is_leap (year (mkdate 2023 6 12)) = false) by reflexivity.
  assert (E : exists r,
             In r (dict_values
                     (book (mkWorld (book_of [contact "Bob" "29.02.2000"]) 0)))
             /\ born_feb_29 (U:=latin1_only) r).
  { exists (contact "Bob" "29.02.2000"). split; [now left|].
    exists (mkBirthday (lit "29.02.2000")), (mkdate 2000 2 29).
    repeat split. }
  split; [exact L|]. split; [exact E|].
  exact (birthdays_feb_29_reply (U:=latin1_only) (mkdate 2023 6 12) [] _ L E).
Defined.

